(** * bench_analyze: BENCH-line extraction and scaling metrics

    A shallow embedding of [tools/bench_analyze.py]: the line parser
    ([BENCH_RE], [parse_lines]), the baseline look-ups ([find_baseline],
    [find_self_baseline], [_weak_baseline]), the two metric passes
    ([_strong_metrics], [_weak_metrics]), [compute_metrics] and the part of
    [main] that runs before the CSV file is written.

    Conventions of the embedding.
    - A Python [str] is a [string]; a character is a code point below 256.
    - A Python [int] is a [Z].
    - A Python [float] is an IEEE binary64 value, a [spec_float] used at
      precision 53 and exponent bound 1024.
    - A raised exception is the [Raise] branch of [result]; [try]/[except]
      is a match on it.

    Left out of the embedding: the decoding of the input file, the
    interpreter's configurable limit on the number of digits [int()]
    accepts, the CSV writer and the plots. *)

From Stdlib Require Import ZArith List String Ascii Bool Lia DecimalString.
From Stdlib Require Import Floats.SpecFloat.
From Stdlib Require DecimalZ.
Import ListNotations.

Local Open Scope string_scope.
Local Open Scope list_scope.
Local Open Scope Z_scope.

(** ** Exceptions *)

Inductive exn : Type :=
| SystemExit (msg : string)
| ValueError
| OverflowError
| ZeroDivisionError.

Inductive result (A : Type) : Type :=
| Ok (a : A)
| Raise (e : exn).

Arguments Ok {A} a.
Arguments Raise {A} e.

Definition bind {A B : Type} (c : result A) (k : A -> result B) : result B :=
  match c with
  | Ok a => k a
  | Raise e => Raise e
  end.

Notation "x <- c ;; k" := (bind c (fun x => k))
  (at level 61, c at next level, right associativity).

(** ** Floats *)

Module Float.

Definition float : Type := spec_float.

Definition prec : Z := 53.
Definition emax : Z := 1024.

(** The literals [0.0] and [1.0]. *)
Definition zero : float := S754_zero false.
Definition one : float := S754_finite false 4503599627370496 (-52).

Definition ltb (a b : float) : bool := SFltb a b.
Definition leb (a b : float) : bool := SFleb a b.
Definition eqb (a b : float) : bool := SFeqb a b.

(** [float(n)] for an [int]: the nearest binary64 value, or
    [OverflowError] when that is out of range. *)
Definition of_int (n : Z) : result float :=
  match binary_normalize prec emax n 0 false with
  | S754_infinity _ => Raise OverflowError
  | f => Ok f
  end.

(** [a / b] on two floats. *)
Definition truediv (a b : float) : result float :=
  if eqb b zero then Raise ZeroDivisionError
  else Ok (SFdiv prec emax a b).

(** [a / n] for a float [a] and an [int] [n]: [n] is converted first. *)
Definition truediv_int (a : float) (n : Z) : result float :=
  b <- of_int n ;; truediv a b.

(** The value of the decimal numeral [n / 10^k], correctly rounded. *)
Definition of_decimal (n : Z) (k : nat) : float :=
  match n with
  | Zpos m => SFdiv prec emax (S754_finite false m 0)
                (S754_finite false (Z.to_pos (10 ^ Z.of_nat k)) 0)
  | _ => zero
  end.

End Float.

Abbreviation float := Float.float.

(** ** Strings, [int()] and [float()] *)

Module Str.

Definition code (c : ascii) : N := N_of_ascii c.

(** [str.isspace] and the class [\s], on code points below 256. *)
Definition is_space (c : ascii) : bool :=
  let n := code c in
  ((9 <=? n) && (n <=? 13) || (28 <=? n) && (n <=? 32)
   || (n =? 133) || (n =? 160))%N.

(** The classes [\d] and [[0-9]], on code points below 256. *)
Definition is_digit (c : ascii) : bool :=
  let n := code c in ((48 <=? n) && (n <=? 57))%N.

Definition is_dot (c : ascii) : bool := (code c =? 46)%N.

Fixpoint lstrip (s : list ascii) : list ascii :=
  match s with
  | c :: s' => if is_space c then lstrip s' else s
  | [] => []
  end.

(** [s.strip()] *)
Definition strip (s : list ascii) : list ascii :=
  rev (lstrip (rev (lstrip s))).

Definition digit_value (c : ascii) : Z := Z.of_N (code c) - 48.

Definition digits_value (ds : list ascii) : Z :=
  fold_left (fun acc c => 10 * acc + digit_value c) ds 0.

Definition all_digits (ds : list ascii) : bool :=
  negb (Nat.eqb (List.length ds) 0) && forallb is_digit ds.

(** [int(s)] on a token: an optional sign and decimal digits. *)
Definition int (s : list ascii) : result Z :=
  let body (sign : Z) (ds : list ascii) :=
    if all_digits ds then Ok (sign * digits_value ds) else Raise ValueError in
  match s with
  | "-"%char :: ds => body (-1) ds
  | "+"%char :: ds => body 1 ds
  | ds => body 1 ds
  end.

Fixpoint span (cls : ascii -> bool) (s : list ascii)
  : list ascii * list ascii :=
  match s with
  | c :: s' =>
      if cls c then let (a, b) := span cls s' in (c :: a, b) else ([], s)
  | [] => ([], [])
  end.

(** [float(s)] on a token over the digits and the dot, the only tokens
    the group [time_s] of [BENCH_RE] can hold: digits with at most one
    dot and at least one digit; anything else is a [ValueError]. *)
Definition float_of_str (s : list ascii) : result float :=
  let (ip, rest) := span is_digit s in
  match rest with
  | [] =>
      match ip with
      | [] => Raise ValueError
      | _ => Ok (Float.of_decimal (digits_value ip) 0)
      end
  | c :: fp =>
      if is_dot c && forallb is_digit fp
         && negb (Nat.eqb (List.length ip + List.length fp) 0)
      then Ok (Float.of_decimal (digits_value (ip ++ fp)%list) (List.length fp))
      else Raise ValueError
  end.

End Str.

(** ** The fragment of [re] that [BENCH_RE] is written in *)

Module Re.

(** One piece of a pattern: a literal, [cls+] (named or not), [cls*],
    or the anchor [$]. *)
Inductive item : Type :=
| Lit (s : string)
| Plus (cls : ascii -> bool) (name : option string)
| Star (cls : ascii -> bool)
| Eol.

Definition captures : Type := list (string * list ascii).

Fixpoint strip_prefix (l s : list ascii) : option (list ascii) :=
  match l, s with
  | [], _ => Some s
  | a :: l', b :: s' => if Ascii.eqb a b then strip_prefix l' s' else None
  | _ :: _, [] => None
  end.

(** Every way of splitting off a run of [cls] characters from the front
    of [s], the longest run first: the order a greedy quantifier tries
    them in. *)
Fixpoint runs (cls : ascii -> bool) (s : list ascii)
  : list (list ascii * list ascii) :=
  match s with
  | c :: s' =>
      if cls c
      then (map (fun ab => (c :: fst ab, snd ab)) (runs cls s') ++ [([], s)])%list
      else [([], s)]
  | [] => [([], [])]
  end.

Fixpoint first_some {A B : Type} (f : A -> option B) (l : list A)
  : option B :=
  match l with
  | [] => None
  | a :: l' => match f a with Some b => Some b | None => first_some f l' end
  end.

Definition nonempty {A : Type} (l : list A) : bool :=
  match l with [] => false | _ => true end.

Definition record (name : option string) (tok : list ascii)
    (caps : captures) : captures :=
  match name with
  | Some n => (n, tok) :: caps
  | None => caps
  end.

(** [re.match]: the pattern must match at the start of [s]. *)
Fixpoint rmatch (items : list item) (s : list ascii) : option captures :=
  match items with
  | [] => Some []
  | Lit l :: rest =>
      match strip_prefix (list_ascii_of_string l) s with
      | Some s' => rmatch rest s'
      | None => None
      end
  | Plus cls name :: rest =>
      first_some
        (fun ab =>
           if nonempty (fst ab)
           then option_map (record name (fst ab)) (rmatch rest (snd ab))
           else None)
        (runs cls s)
  | Star cls :: rest =>
      first_some (fun ab => rmatch rest (snd ab)) (runs cls s)
  | Eol :: rest =>
      match s with
      | [] => rmatch rest s
      | [c] => if Ascii.eqb c "010"%char then rmatch rest s else None
      | _ => None
      end
  end.

(** [m.group(name)] *)
Fixpoint group (caps : captures) (name : string) : list ascii :=
  match caps with
  | [] => []
  | (n, tok) :: caps' => if String.eqb n name then tok else group caps' name
  end.

End Re.

(** ** The source *)

Definition BENCH_RE : list Re.item :=
  let s := Str.is_space in
  let S := fun c => negb (Str.is_space c) in
  let d := Str.is_digit in
  [ Re.Lit "BENCH"; Re.Plus s None;
    Re.Lit "version="; Re.Plus S (Some "version"); Re.Plus s None;
    Re.Lit "n_bats="; Re.Plus d (Some "n_bats"); Re.Plus s None;
    Re.Lit "iters="; Re.Plus d (Some "iters"); Re.Plus s None;
    Re.Lit "procs="; Re.Plus d (Some "procs"); Re.Plus s None;
    Re.Lit "threads="; Re.Plus d (Some "threads"); Re.Plus s None;
    Re.Lit "time_s=";
    Re.Plus (fun c => Str.is_digit c || Str.is_dot c) (Some "time_s");
    Re.Star s; Re.Eol ].

Record BenchRow : Type := mkBenchRow {
  version : string;
  n_bats : Z;
  iters : Z;
  procs : Z;
  threads : Z;
  time_s : float
}.

(** The property [BenchRow.p]. *)
Definition p (r : BenchRow) : Z :=
  if String.eqb (version r) "openmp" then threads r
  else if String.eqb (version r) "mpi" then procs r
  else 1.

(** The body of the loop of [parse_lines] for one line: [None] is the
    [continue] of a line that does not match. *)
Definition parse_line (line : string) : result (option BenchRow) :=
  let line := Str.strip (list_ascii_of_string line) in
  match Re.rmatch BENCH_RE line with
  | None => Ok None
  | Some m =>
      n <- Str.int (Re.group m "n_bats") ;;
      it <- Str.int (Re.group m "iters") ;;
      pr <- Str.int (Re.group m "procs") ;;
      th <- Str.int (Re.group m "threads") ;;
      t <- Str.float_of_str (Re.group m "time_s") ;;
      Ok (Some (mkBenchRow (string_of_list_ascii (Re.group m "version"))
                           n it pr th t))
  end.

Fixpoint parse_lines (lines : list string) : result (list BenchRow) :=
  match lines with
  | [] => Ok []
  | line :: rest =>
      o <- parse_line line ;;
      rows <- parse_lines rest ;;
      Ok (match o with Some r => r :: rows | None => rows end)
  end.

(** The key of [group_key]: version, n_bats, iters. *)
Definition group_key (row : BenchRow) : string * Z * Z :=
  (version row, n_bats row, iters row).

(** ** Containers: the dicts, sets and [sorted] calls of the source *)

Module Dict.

Section WithKey.
Context {K V : Type} (eqb : K -> K -> bool).

(** [d[k] = v]: an existing key keeps its place and takes the new
    value, a new key goes last. *)
Fixpoint set (k : K) (v : V) (d : list (K * V)) : list (K * V) :=
  match d with
  | [] => [(k, v)]
  | (k', v') :: d' =>
      if eqb k' k then (k', v) :: d' else (k', v') :: set k v d'
  end.

Fixpoint get (k : K) (d : list (K * V)) : option V :=
  match d with
  | [] => None
  | (k', v') :: d' => if eqb k' k then Some v' else get k d'
  end.

(** [d.setdefault(k, init)] followed by an update [f] of the entry. *)
Fixpoint update_default (k : K) (init : V) (f : V -> V)
    (d : list (K * V)) : list (K * V) :=
  match d with
  | [] => [(k, f init)]
  | (k', v') :: d' =>
      if eqb k' k then (k', f v') :: d'
      else (k', v') :: update_default k init f d'
  end.

Definition values (d : list (K * V)) : list V := map snd d.
End WithKey.

End Dict.

Module PySet.

(** [s.add(x)] on a set kept as a duplicate-free list. *)
Definition add (x : Z) (s : list Z) : list Z :=
  if existsb (Z.eqb x) s then s else (s ++ [x])%list.

Section Sorted.
Context {A : Type} (cmp : A -> A -> comparison).

Fixpoint insert (x : A) (l : list A) : list A :=
  match l with
  | [] => [x]
  | y :: l' =>
      match cmp x y with
      | Lt => x :: l
      | Eq => l
      | Gt => y :: insert x l'
      end
  end.

(** [sorted({... for x in l})] *)
Definition sorted_set (l : list A) : list A :=
  fold_left (fun acc x => insert x acc) l [].
End Sorted.

Definition cmp_pair (a b : Z * Z) : comparison :=
  match Z.compare (fst a) (fst b) with
  | Eq => Z.compare (snd a) (snd b)
  | c => c
  end.

End PySet.

Definition key_eqb (a b : string * Z * Z) : bool :=
  let '(v1, n1, i1) := a in
  let '(v2, n2, i2) := b in
  String.eqb v1 v2 && (n1 =? n2) && (i1 =? i2).

Definition size_eqb (a b : Z * Z) : bool :=
  (fst a =? fst b) && (snd a =? snd b).

(** [for x in l: out.extend(body(x))], stopping at the first exception. *)
Fixpoint for_each {A B : Type} (body : A -> result (list B)) (l : list A)
  : result (list B) :=
  match l with
  | [] => Ok []
  | a :: l' =>
      bs <- body a ;;
      rest <- for_each body l' ;;
      Ok (bs ++ rest)%list
  end.

(** [min(xs)] on a non-empty sequence [x :: xs] of floats. *)
Definition min_float (x : float) (xs : list float) : float :=
  fold_left (fun acc y => if Float.ltb y acc then y else acc) xs x.

(** [min(rs, key=lambda r: r.n_bats)] on a non-empty list [r :: rs]. *)
Definition min_n_bats (r : BenchRow) (rs : list BenchRow) : BenchRow :=
  fold_left (fun acc y => if n_bats y <? n_bats acc then y else acc) rs r.

Definition show (n : Z) : string := NilZero.string_of_int (Z.to_int n).

Definition find_baseline (rows : list BenchRow) (n it : Z) : result float :=
  let candidates :=
    filter (fun r => String.eqb (version r) "sequential"
                     && (n_bats r =? n) && (iters r =? it)) rows in
  match candidates with
  | [] => Raise (SystemExit ("Missing sequential baseline for n_bats="
                             ++ show n ++ " iters=" ++ show it)%string)
  | c :: cs => Ok (min_float (time_s c) (map time_s cs))
  end.

Definition find_self_baseline (rows : list BenchRow) (v : string) (n it : Z)
  : option float :=
  let candidates :=
    filter (fun r => String.eqb (version r) v
                     && (n_bats r =? n) && (iters r =? it) && (p r =? 1))
           rows in
  match candidates with
  | [] => None
  | c :: cs => Some (min_float (time_s c) (map time_s cs))
  end.

Inductive Mode : Type := strong | weak.

(** One output dict, with the keys of the CSV header. *)
Record MetricRow : Type := mkMetricRow {
  m_mode : Mode;
  m_version : string;
  m_n_bats : Z;
  m_iters : Z;
  m_procs : Z;
  m_threads : Z;
  m_p : Z;
  m_time_s : float;
  baseline_n_bats : Z;
  T_base_s : float;
  T_seq1_s : float;
  T_self1_s : float;
  speedup : float;
  efficiency : float;
  speedup_seq : float;
  efficiency_seq : float;
  speedup_self : float;
  efficiency_self : float
}.

(** The first loop of [_strong_metrics]: the set of [p] seen per key. *)
Definition by_key (rows : list BenchRow) : list (string * Z * Z * list Z) :=
  fold_left
    (fun d r =>
       if String.eqb (version r) "sequential" then d
       else Dict.update_default key_eqb (group_key r) [] (PySet.add (p r)) d)
    rows [].

Definition strong_keys (rows : list BenchRow) : list (string * Z * Z) :=
  map fst (filter (fun kps => (2 <=? List.length (snd kps))%nat) (by_key rows)).

Definition sizes (rows : list BenchRow) : list (Z * Z) :=
  PySet.sorted_set PySet.cmp_pair (map (fun r => (n_bats r, iters r)) rows).

(** The loop that fills [baselines]: a [SystemExit] of [find_baseline] is
    caught and the size left out. *)
Fixpoint baselines_loop (rows : list BenchRow) (szs : list (Z * Z))
    (acc : list (Z * Z * float)) : result (list (Z * Z * float)) :=
  match szs with
  | [] => Ok acc
  | (n, it) :: szs' =>
      match find_baseline rows n it with
      | Ok t => baselines_loop rows szs' (Dict.set size_eqb (n, it) t acc)
      | Raise (SystemExit _) => baselines_loop rows szs' acc
      | Raise e => Raise e
      end
  end.

(** The body of the last loop of [_strong_metrics] for one record. *)
Definition strong_row (rows : list BenchRow) (keys : list (string * Z * Z))
    (baselines : list (Z * Z * float)) (r : BenchRow)
  : result (list MetricRow) :=
  if negb (String.eqb (version r) "sequential")
     && negb (existsb (key_eqb (group_key r)) keys)
  then Ok []
  else
    match Dict.get size_eqb (n_bats r, iters r) baselines with
    | None => Ok []
    | Some t_seq1 =>
        let t_self1 :=
          match find_self_baseline rows (version r) (n_bats r) (iters r) with
          | None => t_seq1
          | Some t => t
          end in
        let p := p r in
        speedup_seq <- (if Float.ltb Float.zero (time_s r)
                        then Float.truediv t_seq1 (time_s r)
                        else Ok Float.zero) ;;
        eff_seq <- (if 0 <? p then Float.truediv_int speedup_seq p
                    else Ok Float.zero) ;;
        speedup_self <- (if Float.ltb Float.zero (time_s r)
                         then Float.truediv t_self1 (time_s r)
                         else Ok Float.zero) ;;
        eff_self <- (if 0 <? p then Float.truediv_int speedup_self p
                     else Ok Float.zero) ;;
        let speedup := speedup_self in
        let eff := eff_self in
        Ok [ {| m_mode := strong;
                m_version := version r;
                m_n_bats := n_bats r;
                m_iters := iters r;
                m_procs := procs r;
                m_threads := threads r;
                m_p := p;
                m_time_s := time_s r;
                baseline_n_bats := n_bats r;
                T_base_s := t_seq1;
                T_seq1_s := t_seq1;
                T_self1_s := t_self1;
                speedup := speedup;
                efficiency := eff;
                speedup_seq := speedup_seq;
                efficiency_seq := eff_seq;
                speedup_self := speedup_self;
                efficiency_self := eff_self |} ]
    end.

Definition _strong_metrics (rows : list BenchRow) : result (list MetricRow) :=
  let keys := strong_keys rows in
  baselines <- baselines_loop rows (sizes rows) [] ;;
  for_each (strong_row rows keys baselines) rows.

Definition _weak_baseline (rows : list BenchRow) (it : Z) (v : string)
  : option BenchRow :=
  let seq :=
    filter (fun r => (iters r =? it) && String.eqb (version r) "sequential"
                     && (p r =? 1)) rows in
  match seq with
  | c :: cs => Some (min_n_bats c cs)
  | [] =>
      let same :=
        filter (fun r => (iters r =? it) && String.eqb (version r) v
                         && (p r =? 1)) rows in
      match same with
      | c :: cs => Some (min_n_bats c cs)
      | [] => None
      end
  end.

(** The dict appended for one record of a weak group. *)
Definition weak_row (base_n : Z) (t_base_seq t_base_self : float)
    (r : BenchRow) : result MetricRow :=
  let p := p r in
  weak_eff_seq <- (if Float.ltb Float.zero (time_s r)
                   then Float.truediv t_base_seq (time_s r)
                   else Ok Float.zero) ;;
  weak_eff_self <- (if Float.ltb Float.zero (time_s r)
                    then Float.truediv t_base_self (time_s r)
                    else Ok Float.zero) ;;
  Ok {| m_mode := weak;
        m_version := version r;
        m_n_bats := n_bats r;
        m_iters := iters r;
        m_procs := procs r;
        m_threads := threads r;
        m_p := p;
        m_time_s := time_s r;
        baseline_n_bats := base_n;
        T_base_s := t_base_seq;
        T_seq1_s := t_base_seq;
        T_self1_s := t_base_self;
        speedup := weak_eff_self;
        efficiency := weak_eff_self;
        speedup_seq := weak_eff_seq;
        efficiency_seq := weak_eff_seq;
        speedup_self := weak_eff_self;
        efficiency_self := weak_eff_self |}.

(** The dict appended for the baseline of a weak group. *)
Definition baseline_row (baseline : BenchRow) (base_n : Z)
    (t_base_seq t_base_self : float) : MetricRow :=
  {| m_mode := weak;
     m_version := version baseline;
     m_n_bats := n_bats baseline;
     m_iters := iters baseline;
     m_procs := procs baseline;
     m_threads := threads baseline;
     m_p := 1;
     m_time_s := time_s baseline;
     baseline_n_bats := base_n;
     T_base_s := t_base_seq;
     T_seq1_s := t_base_seq;
     T_self1_s := t_base_self;
     speedup := Float.one;
     efficiency := Float.one;
     speedup_seq := Float.one;
     efficiency_seq := Float.one;
     speedup_self := Float.one;
     efficiency_self := Float.one |}.

(** The body of the inner loop of [_weak_metrics] for one [iters] and one
    [version]. *)
Definition weak_group (rows : list BenchRow) (it : Z) (v : string)
  : result (list MetricRow) :=
  if String.eqb v "sequential" then Ok []
  else
    let baseline_seq := _weak_baseline rows it v in
    let baseline_self := _weak_baseline rows it v in
    let same :=
      filter (fun r => (iters r =? it) && String.eqb (version r) v
                       && (p r =? 1)) rows in
    let baseline_self :=
      match same with
      | c :: cs => Some (min_n_bats c cs)
      | [] => baseline_self
      end in
    match baseline_seq with
    | None => Ok []
    | Some baseline =>
        let t_base_seq := time_s baseline in
        let base_n := n_bats baseline in
        let t_base_self :=
          match baseline_self with
          | Some b => time_s b
          | None => t_base_seq
          end in
        let candidates :=
          filter (fun r => (iters r =? it) && String.eqb (version r) v) rows in
        ms <- for_each
                (fun r => m <- weak_row base_n t_base_seq t_base_self r ;;
                          Ok [m])
                candidates ;;
        Ok (ms ++ [baseline_row baseline base_n t_base_seq t_base_self])
    end.

Definition mode_eqb (a b : Mode) : bool :=
  match a, b with
  | strong, strong | weak, weak => true
  | _, _ => false
  end.

Definition row_key (m : MetricRow)
  : Mode * string * Z * Z * Z * Z :=
  (m_mode m, m_version m, m_n_bats m, m_iters m, m_procs m, m_threads m).

Definition row_key_eqb (a b : Mode * string * Z * Z * Z * Z) : bool :=
  let '(mo1, v1, n1, i1, p1, t1) := a in
  let '(mo2, v2, n2, i2, p2, t2) := b in
  mode_eqb mo1 mo2 && String.eqb v1 v2 && (n1 =? n2) && (i1 =? i2)
  && (p1 =? p2) && (t1 =? t2).

(** The last loop of [_weak_metrics]: [uniq[key] = m] for every dict. *)
Definition dedup (out : list MetricRow) : list MetricRow :=
  Dict.values
    (fold_left (fun uniq m => Dict.set row_key_eqb (row_key m) m uniq) out []).

Definition iters_set (rows : list BenchRow) : list Z :=
  PySet.sorted_set Z.compare (map iters rows).

Definition versions (rows : list BenchRow) : list string :=
  PySet.sorted_set String.compare (map version rows).

Definition weak_out (rows : list BenchRow) : result (list MetricRow) :=
  for_each
    (fun it => for_each (fun v => weak_group rows it v) (versions rows))
    (iters_set rows).

Definition _weak_metrics (rows : list BenchRow) : result (list MetricRow) :=
  out <- weak_out rows ;;
  Ok (dedup out).

Definition compute_metrics (rows : list BenchRow) : result (list MetricRow) :=
  strong <- _strong_metrics rows ;;
  weak <- _weak_metrics rows ;;
  Ok (strong ++ weak).

(** [main], from the lines of the input file to the metrics that are then
    written to the CSV file. *)
Definition main (lines : list string) : result (list MetricRow) :=
  rows <- parse_lines lines ;;
  match rows with
  | [] => Raise (SystemExit "No BENCH lines found in input.")
  | _ => compute_metrics rows
  end.

(** * Specification predicates *)

(** The dict that [_strong_metrics] appends for a record [r] whose size
    has the sequential baseline [t_seq1]. *)
Record StrongRowOf (rows : list BenchRow) (r : BenchRow) (t_seq1 : float)
    (m : MetricRow) : Prop := {
  sr_mode : m_mode m = strong;
  sr_version : m_version m = version r;
  sr_n_bats : m_n_bats m = n_bats r;
  sr_iters : m_iters m = iters r;
  sr_procs : m_procs m = procs r;
  sr_threads : m_threads m = threads r;
  sr_p : m_p m = p r;
  sr_time_s : m_time_s m = time_s r;
  sr_baseline_n_bats : baseline_n_bats m = n_bats r;
  sr_T_base_s : T_base_s m = t_seq1;
  sr_T_seq1_s : T_seq1_s m = t_seq1;
  sr_T_self1_s :
    T_self1_s m =
    match find_self_baseline rows (version r) (n_bats r) (iters r) with
    | None => t_seq1
    | Some t => t
    end;
  sr_speedup_seq :
    (if Float.ltb Float.zero (time_s r)
     then Float.truediv t_seq1 (time_s r) else Ok Float.zero)
    = Ok (speedup_seq m);
  sr_efficiency_seq :
    (if 0 <? p r then Float.truediv_int (speedup_seq m) (p r)
     else Ok Float.zero)
    = Ok (efficiency_seq m);
  sr_speedup_self :
    (if Float.ltb Float.zero (time_s r)
     then Float.truediv (T_self1_s m) (time_s r) else Ok Float.zero)
    = Ok (speedup_self m);
  sr_efficiency_self :
    (if 0 <? p r then Float.truediv_int (speedup_self m) (p r)
     else Ok Float.zero)
    = Ok (efficiency_self m);
  sr_speedup : speedup m = speedup_self m;
  sr_efficiency : efficiency m = efficiency_self m
}.

(** The test of the list [seq] of [_weak_baseline]. *)
Definition is_seq_base (it : Z) (r : BenchRow) : bool :=
  (iters r =? it) && String.eqb (version r) "sequential" && (p r =? 1).

(** The test of the list [same] of [_weak_baseline]. *)
Definition is_same_base (it : Z) (v : string) (r : BenchRow) : bool :=
  (iters r =? it) && String.eqb (version r) v && (p r =? 1).

(** The dict that [_weak_metrics] appends for a record [r] of a group. *)
Record WeakRowOf (base_n : Z) (t_seq t_self : float) (r : BenchRow)
    (m : MetricRow) : Prop := {
  wr_mode : m_mode m = weak;
  wr_version : m_version m = version r;
  wr_n_bats : m_n_bats m = n_bats r;
  wr_iters : m_iters m = iters r;
  wr_procs : m_procs m = procs r;
  wr_threads : m_threads m = threads r;
  wr_p : m_p m = p r;
  wr_time_s : m_time_s m = time_s r;
  wr_baseline_n_bats : baseline_n_bats m = base_n;
  wr_T_base_s : T_base_s m = t_seq;
  wr_T_seq1_s : T_seq1_s m = t_seq;
  wr_T_self1_s : T_self1_s m = t_self;
  wr_speedup_seq :
    (if Float.ltb Float.zero (time_s r)
     then Float.truediv t_seq (time_s r) else Ok Float.zero)
    = Ok (speedup_seq m);
  wr_speedup_self :
    (if Float.ltb Float.zero (time_s r)
     then Float.truediv t_self (time_s r) else Ok Float.zero)
    = Ok (speedup_self m);
  wr_efficiency_seq : efficiency_seq m = speedup_seq m;
  wr_efficiency_self : efficiency_self m = speedup_self m;
  wr_speedup : speedup m = speedup_self m;
  wr_efficiency : efficiency m = speedup_self m
}.

(** Where a dict of the weak pass comes from: a record of a group that
    has a baseline, or the baseline of such a group. *)
Inductive WeakRowIn (rows : list BenchRow) (m : MetricRow) : Prop :=
| WR_record (it : Z) (v : string) (baseline r : BenchRow) (t_self : float) :
    v <> "sequential" ->
    _weak_baseline rows it v = Some baseline ->
    In r rows -> iters r = it -> version r = v ->
    WeakRowOf (n_bats baseline) (time_s baseline) t_self r m ->
    WeakRowIn rows m
| WR_baseline (it : Z) (v : string) (baseline : BenchRow) (t_self : float) :
    v <> "sequential" ->
    _weak_baseline rows it v = Some baseline ->
    m = baseline_row baseline (n_bats baseline) (time_s baseline) t_self ->
    WeakRowIn rows m.

(** The six ratio fields of a dict all hold [x]. *)
Definition all_ratios (m : MetricRow) (x : float) : Prop :=
  speedup m = x /\ efficiency m = x
  /\ speedup_seq m = x /\ efficiency_seq m = x
  /\ speedup_self m = x /\ efficiency_self m = x.

(** A line is one that [BENCH_RE] matches, once stripped. *)
Definition matches (line : string) : bool :=
  match Re.rmatch BENCH_RE (Str.strip (list_ascii_of_string line)) with
  | Some _ => true
  | None => false
  end.

(** [main] leaves through [SystemExit], with its one-line message. *)
Definition exits_with_diagnostic (lines : list string) : Prop :=
  exists msg, main lines = Raise (SystemExit msg).

(** ** Sample inputs *)

Definition rows_of (lines : list string) : list BenchRow :=
  match parse_lines lines with
  | Ok rows => rows
  | Raise _ => []
  end.

Definition metrics_of (rows : list BenchRow) : list MetricRow :=
  match compute_metrics rows with
  | Ok out => out
  | Raise _ => []
  end.

Definition no_row : MetricRow :=
  baseline_row (mkBenchRow "" 0 0 0 0 Float.zero) 0 Float.zero Float.zero.

(** A strong-scaling log: one sequential run and two OpenMP runs of the
    same size. *)
Definition strong_log : list string :=
  [ "BENCH version=sequential n_bats=2000 iters=2000 procs=1 threads=1 time_s=4.0";
    "some other output of the program";
    "BENCH version=openmp n_bats=2000 iters=2000 procs=1 threads=2 time_s=2.2";
    "BENCH version=openmp n_bats=2000 iters=2000 procs=1 threads=4 time_s=1.3" ].

Definition strong_rows : list BenchRow :=
  Eval vm_compute in rows_of strong_log.

Definition strong_out : list MetricRow :=
  Eval vm_compute in metrics_of strong_rows.

(** A weak-scaling log: the size grows with the number of ranks. *)
Definition weak_log : list string :=
  [ "BENCH version=sequential n_bats=1000 iters=500 procs=1 threads=1 time_s=1.0";
    "BENCH version=mpi n_bats=1000 iters=500 procs=1 threads=1 time_s=1.1";
    "BENCH version=mpi n_bats=2000 iters=500 procs=2 threads=1 time_s=1.15" ].

Definition weak_rows : list BenchRow :=
  Eval vm_compute in rows_of weak_log.

Definition weak_out_sample : list MetricRow :=
  Eval vm_compute in metrics_of weak_rows.

(** A log without any sequential run. *)
Definition mpi_only_log : list string :=
  [ "BENCH version=mpi n_bats=1000 iters=500 procs=1 threads=1 time_s=1.1";
    "BENCH version=mpi n_bats=2000 iters=500 procs=2 threads=1 time_s=1.15" ].

Definition mpi_only_rows : list BenchRow :=
  Eval vm_compute in rows_of mpi_only_log.

(** A line that [BENCH_RE] matches and [float] rejects. *)
Definition two_dots_log : list string :=
  [ "BENCH version=mpi n_bats=1 iters=1 procs=1 threads=1 time_s=1.2.3" ].

(** An OpenMP run reported with zero threads. *)
Definition zero_threads_log : list string :=
  [ "BENCH version=openmp n_bats=1 iters=1 procs=1 threads=0 time_s=1.0" ].

Definition zero_threads_row : BenchRow :=
  Eval vm_compute in hd (mkBenchRow "" 0 0 0 0 Float.zero)
                        (rows_of zero_threads_log).

(** A sequential run whose time is reported as zero, and one MPI run. *)
Definition zero_time_log : list string :=
  [ "BENCH version=sequential n_bats=1000 iters=500 procs=1 threads=1 time_s=0.0";
    "BENCH version=mpi n_bats=1000 iters=500 procs=1 threads=1 time_s=1.1" ].

Definition zero_time_rows : list BenchRow :=
  Eval vm_compute in rows_of zero_time_log.

Definition zero_time_out : list MetricRow :=
  Eval vm_compute in metrics_of zero_time_rows.

(** Runs with zero time next to a sequential run of the same size. *)
Definition zero_strong_log : list string :=
  [ "BENCH version=sequential n_bats=10 iters=5 procs=1 threads=1 time_s=2.0";
    "BENCH version=openmp n_bats=10 iters=5 procs=1 threads=2 time_s=0";
    "BENCH version=openmp n_bats=10 iters=5 procs=1 threads=4 time_s=0.5" ].

Definition zero_strong_rows : list BenchRow :=
  Eval vm_compute in rows_of zero_strong_log.

Definition zero_strong_out : list MetricRow :=
  Eval vm_compute in metrics_of zero_strong_rows.

(** ** Predicates for the order and the selection of the output *)

(** The record a dict was built from, read back from its raw fields. *)
Definition record_of (m : MetricRow) : BenchRow :=
  mkBenchRow (m_version m) (m_n_bats m) (m_iters m) (m_procs m)
             (m_threads m) (m_time_s m).

(** Some sequential record has this n_bats and this iters. *)
Definition has_sequential (rows : list BenchRow) (n it : Z) : bool :=
  existsb (fun r => String.eqb (version r) "sequential"
                    && (n_bats r =? n) && (iters r =? it)) rows.

(** The two tests a record passes in the last loop of [_strong_metrics]. *)
Definition strong_selected (rows : list BenchRow) (r : BenchRow) : bool :=
  (String.eqb (version r) "sequential"
   || existsb (key_eqb (group_key r)) (strong_keys rows))
  && has_sequential rows (n_bats r) (iters r).

(** A strong-scaling log in which one run reports a thread count that no
    float can hold. *)
Definition huge_threads_rows : list BenchRow :=
  [ mkBenchRow "sequential" 10 5 1 1 Float.one;
    mkBenchRow "openmp" 10 5 1 2 Float.one;
    mkBenchRow "openmp" 10 5 1 (2 ^ 1024) Float.one ].

(** The last dict of [out] whose key is [k], if any. *)
Fixpoint last_with (k : Mode * string * Z * Z * Z * Z)
    (out : list MetricRow) : option MetricRow :=
  match out with
  | [] => None
  | m :: rest =>
      match last_with k rest with
      | Some m' => Some m'
      | None => if row_key_eqb (row_key m) k then Some m else None
      end
  end.

(** The value of [t_base_self] in a weak group whose baseline is [b]. *)
Definition weak_self_time (rows : list BenchRow) (it : Z) (v : string)
    (b : BenchRow) : float :=
  match filter (is_same_base it v) rows with
  | c :: cs => time_s (min_n_bats c cs)
  | [] => time_s b
  end.

(** ** Predicates on tokens and lines *)




(** Zero, a positive finite float, or plus infinity. *)
Definition nonneg_float (f : float) : Prop :=
  match f with
  | S754_zero s | S754_infinity s | S754_finite s _ _ => s = false
  | S754_nan => False
  end.










(** ** The plots: which files [try_plot] saves

    [try_plot] is embedded as the list of the file names it passes to
    [savefig], in the order of the calls and relative to [outdir]; what
    is drawn in a figure is left out, and the calls into matplotlib are
    taken not to raise. *)

(** [len({int(m["p"]) for m in ms})] *)
Definition distinct_p (ms : list MetricRow) : nat :=
  List.length (fold_left (fun s m => PySet.add (m_p m) s) ms []).

Definition plot_compare_strong (n it : Z) (ms : list MetricRow)
  : list string :=
  let omp := filter (fun m => String.eqb (m_version m) "openmp") ms in
  let mpi := filter (fun m => String.eqb (m_version m) "mpi") ms in
  if (distinct_p (omp ++ mpi) <? 2)%nat then []
  else
    let title_tag := ("nbats" ++ show n ++ "_it" ++ show it)%string in
    [ ("compare_strong_time_" ++ title_tag ++ ".png")%string;
      ("compare_strong_speedup_vs_seq_" ++ title_tag ++ ".png")%string;
      ("compare_strong_efficiency_vs_seq_" ++ title_tag ++ ".png")%string;
      ("compare_strong_speedup_vs_self_" ++ title_tag ++ ".png")%string;
      ("compare_strong_efficiency_vs_self_" ++ title_tag ++ ".png")%string ].

Definition plot_compare_weak (base_n it : Z) (ms : list MetricRow)
  : list string :=
  let omp := filter (fun m => String.eqb (m_version m) "openmp") ms in
  let mpi := filter (fun m => String.eqb (m_version m) "mpi") ms in
  if (distinct_p (omp ++ mpi) <? 2)%nat then []
  else
    let title_tag := ("base" ++ show base_n ++ "_it" ++ show it)%string in
    [ ("compare_weak_time_" ++ title_tag ++ ".png")%string;
      ("compare_weak_efficiency_vs_seq_" ++ title_tag ++ ".png")%string;
      ("compare_weak_efficiency_vs_self_" ++ title_tag ++ ".png")%string ].

(** [groups.setdefault(key, []).append(m)] *)
Definition group_append (key : Z * Z) (m : MetricRow)
    (groups : list (Z * Z * list MetricRow)) : list (Z * Z * list MetricRow) :=
  Dict.update_default size_eqb key [] (fun ms => ms ++ [m]) groups.

(** The loop of [try_plot] that fills [strong_groups] and [weak_groups]. *)
Definition plot_groups (metrics : list MetricRow)
  : list (Z * Z * list MetricRow) * list (Z * Z * list MetricRow) :=
  fold_left
    (fun g m =>
       match m_mode m with
       | strong => (group_append (m_n_bats m, m_iters m) m (fst g), snd g)
       | weak => (fst g, group_append (baseline_n_bats m, m_iters m) m (snd g))
       end)
    metrics ([], []).

Fixpoint insert_item (x : Z * Z * list MetricRow)
    (l : list (Z * Z * list MetricRow)) : list (Z * Z * list MetricRow) :=
  match l with
  | [] => [x]
  | y :: l' =>
      match PySet.cmp_pair (fst x) (fst y) with
      | Lt => x :: l
      | _ => y :: insert_item x l'
      end
  end.

(** [sorted(groups.items())], on a dict, whose keys are distinct. *)
Definition sorted_items (groups : list (Z * Z * list MetricRow))
  : list (Z * Z * list MetricRow) :=
  fold_left (fun acc x => insert_item x acc) groups [].

Definition try_plot (have_matplotlib : bool) (metrics : list MetricRow)
  : list string :=
  if have_matplotlib then
    let g := plot_groups metrics in
    flat_map (fun kms => plot_compare_strong (fst (fst kms)) (snd (fst kms))
                                             (snd kms))
             (sorted_items (fst g))
    ++ flat_map (fun kms => plot_compare_weak (fst (fst kms)) (snd (fst kms))
                                              (snd kms))
                (sorted_items (snd g))
  else [].

(** A dict of one of the two parallel versions that the plots draw. *)
Definition is_parallel (m : MetricRow) : bool :=
  String.eqb (m_version m) "openmp" || String.eqb (m_version m) "mpi".

(** The group a dict is filed in by the loop of [try_plot], for each of
    the two dicts of groups. *)
Definition pick_strong (m : MetricRow) : option (Z * Z) :=
  match m_mode m with
  | strong => Some (m_n_bats m, m_iters m)
  | weak => None
  end.

Definition pick_weak (m : MetricRow) : option (Z * Z) :=
  match m_mode m with
  | strong => None
  | weak => Some (baseline_n_bats m, m_iters m)
  end.

(** * Properties *)

(** ** The exception monad *)

Lemma bind_Ok {A B : Type} (c : result A) (k : A -> result B) (b : B) :
  bind c k = Ok b -> exists a, c = Ok a /\ k a = Ok b.
Proof.
  destruct c as [a|e]; simpl; intros H; [eauto | discriminate].
Qed.

Lemma bind_Raise {A B : Type} (c : result A) (k : A -> result B) (e : exn) :
  bind c k = Raise e -> c = Raise e \/ exists a, c = Ok a /\ k a = Raise e.
Proof.
  destruct c as [a|e']; simpl; intros H; [right; eauto | left; congruence].
Qed.

Ltac inv_bind H :=
  let a := fresh "a" in
  let Ha := fresh "Ha" in
  apply bind_Ok in H; destruct H as (a & Ha & H).

(** ** [for_each] *)

Section ForEach.
Context {A B : Type} (body : A -> result (list B)).

Lemma for_each_In (l : list A) (out : list B) (m : B) :
  for_each body l = Ok out -> In m out ->
  exists a bs, In a l /\ body a = Ok bs /\ In m bs.
Proof.
  revert out. induction l as [|a l IH]; simpl; intros out H Hin.
  - injection H as <-. destruct Hin.
  - inv_bind H. inv_bind H. injection H as <-.
    apply in_app_or in Hin. destruct Hin as [Hin|Hin].
    + exists a, a0. auto.
    + destruct (IH _ Ha0 Hin) as (a' & bs & H1 & H2 & H3).
      exists a', bs. auto.
Qed.

Lemma for_each_incl (l : list A) (out : list B) (a : A) :
  for_each body l = Ok out -> In a l ->
  exists bs, body a = Ok bs /\ incl bs out.
Proof.
  revert out. induction l as [|a' l IH]; simpl; intros out H Hin.
  - destruct Hin.
  - inv_bind H. inv_bind H. injection H as <-.
    destruct Hin as [->|Hin].
    + exists a0. split; [assumption | apply incl_appl, incl_refl].
    + destruct (IH _ Ha0 Hin) as (bs & H1 & H2).
      exists bs. split; [assumption | apply incl_appr, H2].
Qed.

Lemma for_each_Raise (l : list A) (e : exn) :
  for_each body l = Raise e -> exists a, In a l /\ body a = Raise e.
Proof.
  induction l as [|a l IH]; simpl; intros H; [discriminate|].
  apply bind_Raise in H. destruct H as [H|(bs & H1 & H)].
  - exists a. auto.
  - apply bind_Raise in H. destruct H as [H|(rest & _ & H)]; [|discriminate].
    destruct (IH H) as (a' & Ha' & He). exists a'. auto.
Qed.

Lemma for_each_total (l : list A) :
  (forall a, In a l -> exists bs, body a = Ok bs) ->
  exists out, for_each body l = Ok out.
Proof.
  induction l as [|a l IH]; simpl; intros H; [eauto|].
  destruct (H a (or_introl eq_refl)) as (bs & ->).
  destruct IH as (out & ->); [intros; apply H; auto|].
  simpl. eauto.
Qed.
End ForEach.

(** ** Floats: comparison, division and conversion *)

Module FloatFacts.
Import Float.

Lemma ltb_zero_not_eqb (t : float) :
  ltb zero t = true -> eqb t zero = false.
Proof.
  unfold ltb, eqb, SFltb, SFeqb, zero.
  destruct t as [s|s| |s m e]; simpl; try discriminate;
    destruct s; simpl; congruence.
Qed.

Lemma leb_zero_not_ltb (t : float) :
  leb t zero = true -> ltb zero t = false.
Proof.
  unfold ltb, leb, SFltb, SFleb, zero.
  destruct t as [s|s| |s m e]; simpl; try reflexivity;
    destruct s; simpl; congruence.
Qed.

Lemma truediv_Raise (a b : float) (e : exn) :
  truediv a b = Raise e -> e = ZeroDivisionError /\ eqb b zero = true.
Proof.
  unfold truediv. destruct (eqb b zero); [|discriminate].
  intros H; injection H as <-. auto.
Qed.

Lemma truediv_zero_finite (m : positive) (e : Z) :
  truediv zero (S754_finite false m e) = Ok zero.
Proof. reflexivity. Qed.

(** The guarded quotient [a / t if t > 0 else 0.0] never raises. *)
Lemma ratio_Ok (a t : float) :
  exists f,
    (if ltb zero t then truediv a t else Ok zero) = Ok f
    /\ (ltb zero t = false -> f = zero).
Proof.
  destruct (ltb zero t) eqn:E.
  - unfold truediv. rewrite (ltb_zero_not_eqb _ E).
    eexists; split; [reflexivity | discriminate].
  - exists zero. auto.
Qed.

(** *** Rounding a positive integer never gives zero *)

Lemma digits2_pos_lower (m : positive) :
  2 ^ (Zpos (digits2_pos m) - 1) <= Zpos m.
Proof.
  induction m as [m IH|m IH|]; simpl digits2_pos.
  - rewrite Pos2Z.inj_succ.
    replace (Z.succ (Zpos (digits2_pos m)) - 1)
      with (Z.succ (Zpos (digits2_pos m) - 1)) by lia.
    rewrite Z.pow_succ_r by lia. lia.
  - rewrite Pos2Z.inj_succ.
    replace (Z.succ (Zpos (digits2_pos m)) - 1)
      with (Z.succ (Zpos (digits2_pos m) - 1)) by lia.
    rewrite Z.pow_succ_r by lia. lia.
  - simpl. lia.
Qed.

Lemma shr_1_m (mrs : shr_record) :
  0 <= shr_m mrs -> shr_m (shr_1 mrs) = shr_m mrs / 2.
Proof.
  destruct mrs as [m r s]. simpl shr_m at 1 3. intros Hm.
  destruct m as [|q|q]; [reflexivity| |lia].
  destruct q as [q|q|]; simpl shr_1; simpl shr_m.
  - apply Z.div_unique with (r := 1); lia.
  - apply Z.div_unique with (r := 0); lia.
  - reflexivity.
Qed.

Lemma iter_shr_1_m (n : positive) (mrs : shr_record) :
  0 <= shr_m mrs ->
  shr_m (iter_pos shr_1 n mrs) = shr_m mrs / 2 ^ Zpos n.
Proof.
  revert mrs. induction n as [n IH|n IH|]; intros mrs Hm; simpl iter_pos.
  - assert (H1 : 0 <= shr_m (shr_1 mrs)).
    { rewrite shr_1_m by assumption. apply Z.div_pos; lia. }
    assert (H2 : 0 <= shr_m (iter_pos shr_1 n (shr_1 mrs))).
    { rewrite IH by assumption. apply Z.div_pos; lia. }
    rewrite IH, IH, shr_1_m by assumption.
    rewrite !Z.div_div by lia.
    f_equal. change 2 with (2 ^ 1) at 1.
    rewrite <- !Z.pow_add_r by lia. f_equal. lia.
  - assert (H2 : 0 <= shr_m (iter_pos shr_1 n mrs)).
    { rewrite IH by assumption. apply Z.div_pos; lia. }
    rewrite IH, IH by assumption.
    rewrite !Z.div_div by lia.
    f_equal. rewrite <- Z.pow_add_r by lia. f_equal. lia.
  - rewrite shr_1_m by assumption. reflexivity.
Qed.

Lemma shr_record_of_loc_m (m : Z) (l : location) :
  shr_m (shr_record_of_loc m l) = m.
Proof. destruct l as [|[ | | ]]; reflexivity. Qed.

(** Shifting a positive mantissa to its canonical exponent keeps it
    positive, as long as the exponent is not below [emin]. *)
Lemma shr_fexp_positive (m : positive) (e : Z) (l : location) :
  SpecFloat.emin prec emax <= e ->
  1 <= shr_m (fst (shr_fexp prec emax (Zpos m) e l))
  /\ SpecFloat.emin prec emax <= snd (shr_fexp prec emax (Zpos m) e l).
Proof.
  intros He. unfold shr_fexp, shr, fexp, SpecFloat.emin in *.
  unfold prec, emax in *. simpl Zdigits2.
  pose proof (digits2_pos_lower m) as Hd.
  set (d := Zpos (digits2_pos m)) in *.
  destruct (Z.max (d + e - 53) (3 - 1024 - 53) - e) as [|n|n] eqn:En;
    simpl fst; simpl snd.
  - rewrite shr_record_of_loc_m. lia.
  - rewrite iter_shr_1_m by (rewrite shr_record_of_loc_m; lia).
    rewrite shr_record_of_loc_m. split; [|lia].
    assert (Hn : Zpos n <= d - 1) by lia.
    apply Z.div_le_lower_bound; [lia|].
    assert (2 ^ Zpos n <= 2 ^ (d - 1)) by (apply Z.pow_le_mono_r; lia).
    lia.
  - rewrite shr_record_of_loc_m. lia.
Qed.

Lemma round_nearest_even_positive (m : Z) (l : location) :
  1 <= m -> 1 <= round_nearest_even m l.
Proof.
  intros Hm. unfold round_nearest_even.
  destruct l as [|[ | | ]]; try lia.
  destruct (Z.even m); lia.
Qed.

Lemma binary_round_aux_positive (sx : bool) (m : positive) (e : Z)
    (l : location) :
  SpecFloat.emin prec emax <= e ->
  (exists m' e', binary_round_aux prec emax sx (Zpos m) e l
                 = S754_finite sx m' e')
  \/ binary_round_aux prec emax sx (Zpos m) e l = S754_infinity sx.
Proof.
  intros He. unfold binary_round_aux.
  destruct (shr_fexp_positive m e l He) as [H1 H1e].
  destruct (shr_fexp prec emax (Zpos m) e l) as [mrs' e']. simpl in H1, H1e.
  pose proof (round_nearest_even_positive _ (loc_of_shr_record mrs') H1)
    as H2.
  destruct (round_nearest_even (shr_m mrs') (loc_of_shr_record mrs'))
    as [|q|q]; try lia.
  destruct (shr_fexp_positive q e' loc_Exact H1e) as [H3 _].
  destruct (shr_fexp prec emax (Zpos q) e' loc_Exact) as [mrs'' e''].
  simpl in H3.
  destruct (shr_m mrs'') as [|q'|q']; try lia.
  destruct (e'' <=? emax - prec); eauto.
Qed.

(** [float(n)] of a positive [int], when it does not overflow, is a
    positive finite float. *)
Lemma of_int_positive (n : Z) (f : float) :
  0 < n -> of_int n = Ok f -> exists m e, f = S754_finite false m e.
Proof.
  intros Hn. unfold of_int, binary_normalize, binary_round.
  destruct n as [|q|q]; try lia.
  destruct (shl_align q 0 (fexp prec emax (Zpos (digits2_pos q) + 0)))
    as [mz ez] eqn:Es.
  assert (Hez : SpecFloat.emin prec emax <= ez).
  { unfold shl_align, fexp, SpecFloat.emin, prec, emax in *.
    destruct (Z.max (Zpos (digits2_pos q) + 0 - 53) (3 - 1024 - 53) - 0)
      eqn:Ed; inversion Es; subst; lia. }
  destruct (binary_round_aux_positive false mz ez loc_Exact Hez)
    as [(m' & e' & ->)| ->]; intros H.
  - injection H as <-. eauto.
  - discriminate.
Qed.

Lemma of_int_Raise (n : Z) (e : exn) :
  of_int n = Raise e -> e = OverflowError.
Proof.
  unfold of_int.
  destruct (binary_normalize prec emax n 0 false); try discriminate.
  intros H; injection H as <-. reflexivity.
Qed.

(** The guarded quotient [x / n if n > 0 else 0.0] can only raise an
    [OverflowError], and is [0.0] when [x] is. *)
Lemma eff_cases (x : float) (n : Z) :
  (exists f, (if 0 <? n then truediv_int x n else Ok zero) = Ok f
             /\ (x = zero -> f = zero))
  \/ (if 0 <? n then truediv_int x n else Ok zero) = Raise OverflowError.
Proof.
  destruct (0 <? n) eqn:En.
  - apply Z.ltb_lt in En. unfold truediv_int.
    destruct (of_int n) as [b|e] eqn:Eb.
    + destruct (of_int_positive n b En Eb) as (m & e & ->).
      left. simpl. eexists. split; [reflexivity|].
      intros ->. reflexivity.
    + right. simpl. f_equal. eapply of_int_Raise; eassumption.
  - left. exists zero. auto.
Qed.

End FloatFacts.

(** ** Containers *)

Lemma fold_left_invariant {A B : Type} (f : B -> A -> B) (P : B -> Prop)
    (l : list A) (b : B) :
  P b -> (forall b a, In a l -> P b -> P (f b a)) -> P (fold_left f l b).
Proof.
  revert b. induction l as [|a l IH]; simpl; intros b Hb Hstep; [assumption|].
  apply IH; [apply Hstep; auto | intros; apply Hstep; auto].
Qed.

Lemma key_eqb_eq (a b : string * Z * Z) : key_eqb a b = true <-> a = b.
Proof.
  destruct a as [[v1 n1] i1], b as [[v2 n2] i2]. unfold key_eqb.
  rewrite !andb_true_iff, String.eqb_eq, !Z.eqb_eq.
  split; [intros [[-> ->] ->]; reflexivity | intros H; injection H; auto].
Qed.

Lemma size_eqb_eq (a b : Z * Z) : size_eqb a b = true <-> a = b.
Proof.
  destruct a as [n1 i1], b as [n2 i2]. unfold size_eqb. simpl.
  rewrite andb_true_iff, !Z.eqb_eq.
  split; [intros [-> ->]; reflexivity | intros H; injection H; auto].
Qed.

Module DictFacts.
Import Dict.

Section WithKey.
Context {K V : Type} (eqb : K -> K -> bool).
Hypothesis eqb_eq : forall a b, eqb a b = true <-> a = b.

Lemma eqb_refl (k : K) : eqb k k = true.
Proof. apply eqb_eq. reflexivity. Qed.

Lemma get_set (k k' : K) (v : V) (d : list (K * V)) :
  get eqb k' (set eqb k v d) = if eqb k k' then Some v else get eqb k' d.
Proof.
  induction d as [|[k0 v0] d IH]; simpl.
  - reflexivity.
  - destruct (eqb k0 k) eqn:E0; simpl.
    + apply eqb_eq in E0. subst k0.
      destruct (eqb k k'); reflexivity.
    + destruct (eqb k0 k') eqn:E1; [|exact IH].
      destruct (eqb k k') eqn:E2; [|reflexivity].
      apply eqb_eq in E1, E2. subst k0 k'.
      rewrite eqb_refl in E0. discriminate.
Qed.

Lemma In_set (k k' : K) (v v' : V) (d : list (K * V)) :
  In (k', v') (set eqb k v d) -> In (k', v') d \/ v' = v.
Proof.
  induction d as [|[k0 v0] d IH]; simpl.
  - intros [H|[]]. injection H as _ <-. auto.
  - destruct (eqb k0 k); simpl.
    + intros [H|H]; [injection H as _ <-|]; auto.
    + intros [H|H]; [auto|]. destruct (IH H); auto.
Qed.

Lemma In_update_default (k0 k : K) (init v : V) (f : V -> V)
    (d : list (K * V)) :
  In (k, v) (update_default eqb k0 init f d) ->
  In (k, v) d
  \/ k = k0 /\ (v = f init \/ exists v0, In (k, v0) d /\ v = f v0).
Proof.
  induction d as [|[k1 v1] d IH]; simpl.
  - intros [H|[]]. injection H as <- <-. auto.
  - destruct (eqb k1 k0) eqn:E; simpl.
    + apply eqb_eq in E. subst k1.
      intros [H|H]; [|auto]. injection H as <- <-.
      right. split; [reflexivity|]. right. exists v1. auto.
    + intros [H|H]; [auto|].
      destruct (IH H) as [H'|(-> & [->|(v0 & H1 & ->)])]; auto.
      right. split; [reflexivity|]. right. exists v0. auto.
Qed.
End WithKey.

End DictFacts.

Module PySetFacts.
Import PySet.

Lemma In_add (x y : Z) (s : list Z) : In y (add x s) -> y = x \/ In y s.
Proof.
  unfold add. destruct (existsb (Z.eqb x) s); [auto|].
  intros H. apply in_app_or in H. destruct H as [H|[H|[]]]; auto.
Qed.

Lemma NoDup_add (x : Z) (s : list Z) : NoDup s -> NoDup (add x s).
Proof.
  intros Hs. unfold add. destruct (existsb (Z.eqb x) s) eqn:E; [assumption|].
  assert (Hx : ~ In x s).
  { intros Hin. apply Bool.not_true_iff_false in E. apply E.
    apply existsb_exists. exists x. split; [assumption | apply Z.eqb_refl]. }
  clear E. induction Hs as [|a s Ha Hs IH]; simpl.
  - constructor; [intros [] | constructor].
  - constructor.
    + intros H. apply in_app_or in H. destruct H as [H|[H|[]]].
      * contradiction.
      * apply Hx. left. symmetry. assumption.
    + apply IH. intros H. apply Hx. right. assumption.
Qed.

Section Sorted.
Context {A : Type} (cmp : A -> A -> comparison).
Hypothesis cmp_eq : forall a b, cmp a b = Eq -> a = b.

Lemma In_insert (x y : A) (l : list A) :
  In y (insert cmp x l) <-> y = x \/ In y l.
Proof.
  induction l as [|a l IH]; simpl.
  - intuition.
  - destruct (cmp x a) eqn:E; simpl.
    + apply cmp_eq in E. subst a. intuition.
    + intuition.
    + rewrite IH. intuition.
Qed.

Lemma In_sorted_set (y : A) (l : list A) :
  In y (sorted_set cmp l) <-> In y l.
Proof.
  unfold sorted_set.
  assert (G : forall acc, In y (fold_left (fun acc x => insert cmp x acc)
                                  l acc) <-> In y acc \/ In y l).
  { induction l as [|a l IH]; simpl; intros acc.
    - intuition.
    - rewrite IH, In_insert. intuition. }
  rewrite G. simpl. intuition.
Qed.
End Sorted.

Lemma cmp_pair_eq (a b : Z * Z) : cmp_pair a b = Eq -> a = b.
Proof.
  destruct a as [a1 a2], b as [b1 b2]. unfold cmp_pair. simpl.
  destruct (a1 ?= b1) eqn:E1; try discriminate.
  intros E2. apply Z.compare_eq in E1, E2. congruence.
Qed.

End PySetFacts.

(** ** Minima *)

Lemma min_n_bats_spec (c : BenchRow) (cs : list BenchRow) :
  In (min_n_bats c cs) (c :: cs)
  /\ forall r, In r (c :: cs) -> n_bats (min_n_bats c cs) <= n_bats r.
Proof.
  unfold min_n_bats. revert c.
  induction cs as [|y cs IH]; intros c; simpl.
  - split; [auto|]. intros r [<-|[]]. lia.
  - destruct (IH (if n_bats y <? n_bats c then y else c)) as [H1 H2].
    split.
    + destruct H1 as [H1|H1]; [|auto].
      rewrite <- H1. destruct (n_bats y <? n_bats c); auto.
    + intros r Hr.
      assert (Hc : n_bats (if n_bats y <? n_bats c then y else c) <= n_bats c
                   /\ n_bats (if n_bats y <? n_bats c then y else c)
                      <= n_bats y).
      { destruct (n_bats y <? n_bats c) eqn:E;
          [apply Z.ltb_lt in E | apply Z.ltb_ge in E]; lia. }
      pose proof (H2 _ (or_introl eq_refl)) as H0.
      destruct Hr as [<-|[<-|Hr]]; [lia | lia |].
      apply H2. right. assumption.
Qed.

Lemma min_float_In (x : float) (xs : list float) :
  In (min_float x xs) (x :: xs).
Proof.
  unfold min_float. revert x. induction xs as [|y xs IH]; intros x; simpl.
  - auto.
  - destruct (IH (if Float.ltb y x then y else x)) as [H|H]; [|auto].
    rewrite <- H. destruct (Float.ltb y x); auto.
Qed.

(** ** Baselines *)

Lemma p_sequential (r : BenchRow) : version r = "sequential" -> p r = 1.
Proof. unfold p. intros ->. reflexivity. Qed.

Lemma find_baseline_cases (rows : list BenchRow) (n it : Z) :
  (exists t, find_baseline rows n it = Ok t)
  \/ (exists msg, find_baseline rows n it = Raise (SystemExit msg)).
Proof.
  unfold find_baseline. destruct (filter _ rows); eauto.
Qed.

Lemma find_baseline_Ok_inv (rows : list BenchRow) (n it : Z) (t : float) :
  find_baseline rows n it = Ok t ->
  exists r, In r rows /\ version r = "sequential" /\ n_bats r = n
            /\ iters r = it /\ time_s r = t.
Proof.
  unfold find_baseline.
  destruct (filter _ rows) as [|c cs] eqn:E; [discriminate|].
  intros H. injection H as <-.
  pose proof (min_float_In (time_s c) (map time_s cs)) as Hin.
  change (time_s c :: map time_s cs) with (map time_s (c :: cs)) in Hin.
  apply in_map_iff in Hin. destruct Hin as (r & Hr & Hin).
  rewrite <- E in Hin. apply filter_In in Hin. destruct Hin as [Hin Hc].
  rewrite !andb_true_iff, String.eqb_eq, !Z.eqb_eq in Hc.
  exists r. intuition.
Qed.

Lemma find_baseline_sequential (rows : list BenchRow) (r : BenchRow) :
  In r rows -> version r = "sequential" ->
  exists t, find_baseline rows (n_bats r) (iters r) = Ok t.
Proof.
  intros Hin Hv. unfold find_baseline.
  destruct (filter _ rows) as [|c cs] eqn:E; [|eauto].
  exfalso.
  assert (H : In r []); [|destruct H].
  rewrite <- E. apply filter_In. split; [assumption|].
  rewrite Hv, !Z.eqb_refl. reflexivity.
Qed.

Lemma find_self_baseline_None (rows : list BenchRow) (v : string) (n it : Z) :
  find_self_baseline rows v n it = None <->
  (forall r, In r rows -> version r = v -> n_bats r = n -> iters r = it ->
             p r <> 1).
Proof.
  unfold find_self_baseline. split.
  - destruct (filter _ rows) as [|c cs] eqn:E; [|discriminate].
    intros _ r Hin Hv Hn Hit Hp.
    assert (H : In r []); [|destruct H].
    rewrite <- E. apply filter_In. split; [assumption|].
    rewrite Hv, Hn, Hit, Hp, String.eqb_refl, !Z.eqb_refl. reflexivity.
  - intros H. destruct (filter _ rows) as [|c cs] eqn:E; [reflexivity|].
    exfalso.
    assert (Hc : In c (c :: cs)) by (left; reflexivity).
    rewrite <- E in Hc. apply filter_In in Hc. destruct Hc as [Hin Hc].
    rewrite !andb_true_iff, String.eqb_eq, !Z.eqb_eq in Hc.
    destruct Hc as [[[Hv Hn] Hit] Hp]. exact (H c Hin Hv Hn Hit Hp).
Qed.

(** The dict [baselines] holds, for a size, exactly the result of
    [find_baseline] there; sizes without a sequential record are absent,
    and the loop itself never raises. *)
Lemma baselines_loop_spec (rows : list BenchRow) (szs : list (Z * Z))
    (acc : list (Z * Z * float)) :
  (forall k t, Dict.get size_eqb k acc = Some t ->
               find_baseline rows (fst k) (snd k) = Ok t) ->
  exists bl,
    baselines_loop rows szs acc = Ok bl
    /\ (forall k t, Dict.get size_eqb k bl = Some t ->
                    find_baseline rows (fst k) (snd k) = Ok t)
    /\ (forall k t, find_baseline rows (fst k) (snd k) = Ok t ->
                    In k szs \/ Dict.get size_eqb k acc <> None ->
                    Dict.get size_eqb k bl = Some t).
Proof.
  revert acc. induction szs as [|[n it] szs IH]; intros acc Hacc; simpl.
  - exists acc. split; [reflexivity|]. split; [assumption|].
    intros k t Hk [[]|Hget].
    destruct (Dict.get size_eqb k acc) as [t'|] eqn:E; [|congruence].
    rewrite (Hacc _ _ E) in Hk. congruence.
  - destruct (find_baseline_cases rows n it) as [(t & Ht)|(msg & Ht)];
      rewrite Ht.
    + destruct (IH (Dict.set size_eqb (n, it) t acc)) as (bl & H1 & H2 & H3).
      { intros k t'. rewrite (DictFacts.get_set _ size_eqb_eq).
        destruct (size_eqb (n, it) k) eqn:E.
        - apply size_eqb_eq in E. subst k. simpl. congruence.
        - apply Hacc. }
      exists bl. split; [assumption|]. split; [assumption|].
      intros k t' Hk Hor. apply H3; [assumption|].
      rewrite (DictFacts.get_set _ size_eqb_eq).
      destruct (size_eqb (n, it) k) eqn:E; [right; discriminate|].
      destruct Hor as [[Heq|Hin]|Hget]; auto.
      subst k. rewrite (DictFacts.eqb_refl _ size_eqb_eq) in E. discriminate.
    + destruct (IH acc Hacc) as (bl & H1 & H2 & H3).
      exists bl. split; [assumption|]. split; [assumption|].
      intros k t' Hk Hor. apply H3; [assumption|].
      destruct Hor as [[Heq|Hin]|Hget]; auto.
      subst k. simpl in Hk. congruence.
Qed.

Lemma baselines_spec (rows : list BenchRow) :
  exists bl,
    baselines_loop rows (sizes rows) [] = Ok bl
    /\ (forall k t, Dict.get size_eqb k bl = Some t ->
                    find_baseline rows (fst k) (snd k) = Ok t)
    /\ (forall r, In r rows -> version r = "sequential" ->
                  Dict.get size_eqb (n_bats r, iters r) bl <> None).
Proof.
  destruct (baselines_loop_spec rows (sizes rows) []) as (bl & H1 & H2 & H3).
  { simpl. discriminate. }
  exists bl. split; [assumption|]. split; [assumption|].
  intros r Hin Hv.
  destruct (find_baseline_sequential rows r Hin Hv) as (t & Ht).
  rewrite (H3 (n_bats r, iters r) t Ht); [discriminate|].
  left. unfold sizes.
  apply (PySetFacts.In_sorted_set _ PySetFacts.cmp_pair_eq).
  apply in_map_iff. exists r. auto.
Qed.

(** ** The strong pass *)

Lemma In_existsb_key (k : string * Z * Z) (keys : list (string * Z * Z)) :
  existsb (key_eqb k) keys = true <-> In k keys.
Proof.
  rewrite existsb_exists. split.
  - intros (k' & Hin & E). apply key_eqb_eq in E. subst. assumption.
  - intros Hin. exists k. split; [assumption | apply key_eqb_eq; reflexivity].
Qed.

Lemma strong_row_In (rows : list BenchRow) (keys : list (string * Z * Z))
    (bl : list (Z * Z * float)) (r : BenchRow) (bs : list MetricRow)
    (m : MetricRow) :
  strong_row rows keys bl r = Ok bs -> In m bs ->
  (version r = "sequential" \/ In (group_key r) keys)
  /\ exists t, Dict.get size_eqb (n_bats r, iters r) bl = Some t
               /\ StrongRowOf rows r t m.
Proof.
  unfold strong_row.
  destruct (negb (String.eqb (version r) "sequential")
            && negb (existsb (key_eqb (group_key r)) keys)) eqn:Ec.
  { intros H; injection H as <-. intros []. }
  destruct (Dict.get size_eqb (n_bats r, iters r) bl) as [t|] eqn:Eg.
  2:{ intros H; injection H as <-. intros []. }
  intros H Hin.
  apply bind_Ok in H. destruct H as (s1 & Hs1 & H).
  apply bind_Ok in H. destruct H as (e1 & He1 & H).
  apply bind_Ok in H. destruct H as (s2 & Hs2 & H).
  apply bind_Ok in H. destruct H as (e2 & He2 & H).
  injection H as <-. destruct Hin as [<-|[]].
  split.
  - apply andb_false_iff in Ec. destruct Ec as [Ec|Ec];
      apply negb_false_iff in Ec.
    + left. apply String.eqb_eq. assumption.
    + right. apply In_existsb_key. assumption.
  - exists t. split; [reflexivity|].
    constructor; simpl; auto.
Qed.

(** A sequential record whose size is in [baselines] always gets its dict. *)
Lemma strong_row_sequential (rows : list BenchRow)
    (keys : list (string * Z * Z)) (bl : list (Z * Z * float))
    (r : BenchRow) (t : float) :
  version r = "sequential" ->
  Dict.get size_eqb (n_bats r, iters r) bl = Some t ->
  exists m, strong_row rows keys bl r = Ok [m] /\ StrongRowOf rows r t m.
Proof.
  intros Hv Hg. pose proof (p_sequential r Hv) as Hp.
  set (t_self := match find_self_baseline rows (version r) (n_bats r)
                         (iters r) with
                 | None => t
                 | Some t' => t'
                 end).
  destruct (FloatFacts.ratio_Ok t (time_s r)) as (s1 & Hs1 & _).
  destruct (FloatFacts.ratio_Ok t_self (time_s r)) as (s2 & Hs2 & _).
  unfold strong_row. rewrite Hg.
  replace (negb (String.eqb (version r) "sequential")) with false
    by (rewrite Hv; reflexivity).
  cbv zeta. fold t_self. rewrite Hs1, Hs2, Hp. simpl.
  eexists. split; [reflexivity|].
  constructor; simpl; rewrite ?Hp; auto.
Qed.

Lemma strong_row_Raise (rows : list BenchRow) (keys : list (string * Z * Z))
    (bl : list (Z * Z * float)) (r : BenchRow) (e : exn) :
  strong_row rows keys bl r = Raise e -> e = OverflowError.
Proof.
  unfold strong_row.
  destruct (negb _ && negb _); [discriminate|].
  destruct (Dict.get size_eqb (n_bats r, iters r) bl) as [t|]; [|discriminate].
  cbv zeta.
  set (t_self := match find_self_baseline rows (version r) (n_bats r)
                         (iters r) with
                 | None => t
                 | Some t' => t'
                 end).
  destruct (FloatFacts.ratio_Ok t (time_s r)) as (s1 & -> & _).
  destruct (FloatFacts.ratio_Ok t_self (time_s r)) as (s2 & -> & _).
  cbn [bind].
  destruct (FloatFacts.eff_cases s1 (p r)) as [(e1 & -> & _)| ->];
    cbn [bind]; [|congruence].
  destruct (FloatFacts.eff_cases s2 (p r)) as [(e2 & -> & _)| ->];
    cbn [bind]; congruence.
Qed.

(** Every entry of [by_key] is a duplicate-free list of [p] values of
    non-sequential records with that key. *)
Lemma by_key_spec (rows : list BenchRow) (k : string * Z * Z) (ps : list Z) :
  In (k, ps) (by_key rows) ->
  NoDup ps
  /\ forall x, In x ps ->
       exists r, In r rows /\ version r <> "sequential"
                 /\ group_key r = k /\ p r = x.
Proof.
  unfold by_key. revert k ps.
  apply fold_left_invariant with
    (P := fun d => forall k ps, In (k, ps) d ->
            NoDup ps
            /\ forall x, In x ps ->
                 exists r, In r rows /\ version r <> "sequential"
                           /\ group_key r = k /\ p r = x).
  - intros k ps [].
  - intros d r Hr IH k ps Hin.
    destruct (String.eqb (version r) "sequential") eqn:Ev; [auto|].
    apply String.eqb_neq in Ev.
    apply (DictFacts.In_update_default _ key_eqb_eq) in Hin.
    destruct Hin as [Hin|(-> & [->|(ps0 & Hin & ->)])]; [auto| |].
    + split; [apply PySetFacts.NoDup_add; constructor|].
      intros x Hx. apply PySetFacts.In_add in Hx.
      destruct Hx as [->|[]]. exists r. auto.
    + destruct (IH _ _ Hin) as [Hnd Hps].
      split; [apply PySetFacts.NoDup_add; assumption|].
      intros x Hx. apply PySetFacts.In_add in Hx.
      destruct Hx as [->|Hx]; [exists r; auto | auto].
Qed.

(** A key is in [strong_keys] only when two non-sequential records with
    that key differ in [p]. *)
Lemma strong_keys_spec (rows : list BenchRow) (k : string * Z * Z) :
  In k (strong_keys rows) ->
  exists r1 r2,
    In r1 rows /\ In r2 rows /\ group_key r1 = k /\ group_key r2 = k
    /\ p r1 <> p r2.
Proof.
  unfold strong_keys. intros Hin.
  apply in_map_iff in Hin. destruct Hin as ([k' ps] & Hk & Hin).
  simpl in Hk. subst k'.
  apply filter_In in Hin. destruct Hin as [Hin Hlen]. simpl in Hlen.
  destruct (by_key_spec rows k ps Hin) as [Hnd Hps].
  destruct ps as [|x [|y ps]]; simpl in Hlen; try discriminate.
  destruct (Hps x) as (r1 & H1 & _ & H1k & H1p); [simpl; auto|].
  destruct (Hps y) as (r2 & H2 & _ & H2k & H2p); [simpl; auto|].
  exists r1, r2. repeat split; try assumption.
  rewrite H1p, H2p. intros ->.
  inversion Hnd as [|? ? Hx _]. apply Hx. left. reflexivity.
Qed.

Lemma strong_metrics_In (rows : list BenchRow) (out : list MetricRow)
    (m : MetricRow) :
  _strong_metrics rows = Ok out -> In m out ->
  exists r t,
    In r rows
    /\ (version r = "sequential" \/ In (group_key r) (strong_keys rows))
    /\ find_baseline rows (n_bats r) (iters r) = Ok t
    /\ StrongRowOf rows r t m.
Proof.
  unfold _strong_metrics. intros H Hin.
  destruct (baselines_spec rows) as (bl & Hbl & Hget & _).
  rewrite Hbl in H. simpl in H.
  destruct (for_each_In _ _ _ _ H Hin) as (r & bs & Hr & Hbody & Hm).
  destruct (strong_row_In _ _ _ _ _ _ Hbody Hm) as [Hk (t & Ht & Hspec)].
  exists r, t. split; [assumption|]. split; [assumption|].
  split; [exact (Hget _ _ Ht) | assumption].
Qed.

Lemma strong_metrics_sequential (rows : list BenchRow) (out : list MetricRow)
    (r : BenchRow) :
  _strong_metrics rows = Ok out -> In r rows -> version r = "sequential" ->
  exists m t,
    In m out /\ find_baseline rows (n_bats r) (iters r) = Ok t
    /\ StrongRowOf rows r t m.
Proof.
  unfold _strong_metrics. intros H Hr Hv.
  destruct (baselines_spec rows) as (bl & Hbl & Hget & Hseq).
  rewrite Hbl in H. simpl in H.
  destruct (Dict.get size_eqb (n_bats r, iters r) bl) as [t|] eqn:Et;
    [|exfalso; exact (Hseq r Hr Hv Et)].
  destruct (strong_row_sequential rows (strong_keys rows) bl r t Hv Et)
    as (m & Hm & Hspec).
  destruct (for_each_incl _ _ _ _ H Hr) as (bs & Hbs & Hincl).
  rewrite Hm in Hbs. injection Hbs as <-.
  exists m, t. split; [apply Hincl; left; reflexivity|].
  split; [exact (Hget _ _ Et) | assumption].
Qed.

Lemma strong_metrics_Raise (rows : list BenchRow) (e : exn) :
  _strong_metrics rows = Raise e -> e = OverflowError.
Proof.
  unfold _strong_metrics. intros H.
  destruct (baselines_spec rows) as (bl & Hbl & _).
  rewrite Hbl in H. simpl in H.
  apply for_each_Raise in H. destruct H as (r & _ & H).
  exact (strong_row_Raise _ _ _ _ _ H).
Qed.

(** ** The weak pass *)

Lemma min_of_filter (f : BenchRow -> bool) (rows : list BenchRow)
    (c : BenchRow) (cs : list BenchRow) :
  filter f rows = c :: cs ->
  In (min_n_bats c cs) rows /\ f (min_n_bats c cs) = true
  /\ forall r, In r rows -> f r = true ->
               n_bats (min_n_bats c cs) <= n_bats r.
Proof.
  intros E. destruct (min_n_bats_spec c cs) as [Hin Hmin].
  rewrite <- E in Hin, Hmin. apply filter_In in Hin.
  destruct Hin as [Hin Hf]. split; [assumption|]. split; [assumption|].
  intros r Hr Hfr. apply Hmin. apply filter_In. auto.
Qed.

Lemma filter_nil (f : BenchRow -> bool) (rows : list BenchRow) :
  filter f rows = [] <-> forall r, In r rows -> f r = false.
Proof.
  split.
  - intros E r Hr. destruct (f r) eqn:Ef; [|reflexivity].
    assert (H : In r (filter f rows)) by (apply filter_In; auto).
    rewrite E in H. destruct H.
  - intros H. induction rows as [|a rows IH]; [reflexivity|]. simpl.
    rewrite (H a (or_introl eq_refl)). apply IH.
    intros r Hr. apply H. right. assumption.
Qed.

Lemma is_same_base_true (it : Z) (v : string) (r : BenchRow) :
  is_same_base it v r = true <-> iters r = it /\ version r = v /\ p r = 1.
Proof.
  unfold is_same_base.
  rewrite !andb_true_iff, String.eqb_eq, !Z.eqb_eq. intuition.
Qed.

Lemma is_seq_base_true (it : Z) (r : BenchRow) :
  is_seq_base it r = true <-> iters r = it /\ version r = "sequential".
Proof.
  unfold is_seq_base.
  rewrite !andb_true_iff, String.eqb_eq, !Z.eqb_eq.
  split; [intuition|]. intros [H1 H2]. pose proof (p_sequential r H2).
  intuition.
Qed.

Lemma weak_baseline_unfold (rows : list BenchRow) (it : Z) (v : string) :
  _weak_baseline rows it v =
  match filter (is_seq_base it) rows with
  | c :: cs => Some (min_n_bats c cs)
  | [] =>
      match filter (is_same_base it v) rows with
      | c :: cs => Some (min_n_bats c cs)
      | [] => None
      end
  end.
Proof. reflexivity. Qed.

(** A baseline found by [_weak_baseline] is a record of the input with the
    asked [iters] and [p = 1], sequential or of the asked version. *)
Lemma weak_baseline_Some (rows : list BenchRow) (it : Z) (v : string)
    (b : BenchRow) :
  _weak_baseline rows it v = Some b ->
  In b rows /\ iters b = it /\ p b = 1
  /\ (version b = "sequential" \/ version b = v).
Proof.
  rewrite weak_baseline_unfold.
  destruct (filter (is_seq_base it) rows) as [|c cs] eqn:E1.
  - destruct (filter (is_same_base it v) rows) as [|c cs] eqn:E2;
      [discriminate|].
    intros H. injection H as <-.
    destruct (min_of_filter _ _ _ _ E2) as (Hin & Hf & _).
    apply is_same_base_true in Hf. intuition.
  - intros H. injection H as <-.
    destruct (min_of_filter _ _ _ _ E1) as (Hin & Hf & _).
    apply is_seq_base_true in Hf. destruct Hf as [Hi Hv].
    pose proof (p_sequential _ Hv). intuition.
Qed.

Lemma weak_row_Ok (base_n : Z) (t_seq t_self : float) (r : BenchRow) :
  exists m, weak_row base_n t_seq t_self r = Ok m.
Proof.
  unfold weak_row.
  destruct (FloatFacts.ratio_Ok t_seq (time_s r)) as (s1 & -> & _).
  destruct (FloatFacts.ratio_Ok t_self (time_s r)) as (s2 & -> & _).
  simpl. eauto.
Qed.

Lemma weak_row_spec (base_n : Z) (t_seq t_self : float) (r : BenchRow)
    (m : MetricRow) :
  weak_row base_n t_seq t_self r = Ok m -> WeakRowOf base_n t_seq t_self r m.
Proof.
  unfold weak_row. intros H.
  apply bind_Ok in H. destruct H as (s1 & Hs1 & H).
  apply bind_Ok in H. destruct H as (s2 & Hs2 & H).
  injection H as <-. constructor; simpl; auto.
Qed.

Lemma weak_group_In (rows : list BenchRow) (it : Z) (v : string)
    (ms : list MetricRow) (m : MetricRow) :
  weak_group rows it v = Ok ms -> In m ms -> WeakRowIn rows m.
Proof.
  unfold weak_group.
  destruct (String.eqb v "sequential") eqn:Ev.
  { intros H; injection H as <-. intros []. }
  apply String.eqb_neq in Ev.
  destruct (_weak_baseline rows it v) as [baseline|] eqn:Eb.
  2:{ intros H; injection H as <-. intros []. }
  cbv zeta. intros H Hin.
  apply bind_Ok in H. destruct H as (cands & Hc & H). injection H as <-.
  apply in_app_or in Hin. destruct Hin as [Hin|[<-|[]]].
  - destruct (for_each_In _ _ _ _ Hc Hin) as (r & bs & Hr & Hbody & Hm).
    apply filter_In in Hr. destruct Hr as [Hr Hf].
    rewrite andb_true_iff, String.eqb_eq, Z.eqb_eq in Hf.
    destruct Hf as [Hit Hv].
    apply bind_Ok in Hbody. destruct Hbody as (m' & Hm' & Hbody).
    injection Hbody as <-. destruct Hm as [<-|[]].
    eapply WR_record; eauto using weak_row_spec.
  - eapply WR_baseline; eauto.
Qed.

Lemma weak_group_Ok (rows : list BenchRow) (it : Z) (v : string) :
  exists ms, weak_group rows it v = Ok ms.
Proof.
  unfold weak_group.
  destruct (String.eqb v "sequential"); [eauto|].
  destruct (_weak_baseline rows it v) as [baseline|]; [|eauto].
  cbv zeta.
  match goal with
  | |- context [for_each ?body ?l] =>
      destruct (for_each_total body l) as (cands & ->)
  end.
  - intros r _.
    match goal with
    | |- context [weak_row ?n ?a ?b r] =>
        destruct (weak_row_Ok n a b r) as (m & ->)
    end.
    simpl. eauto.
  - simpl. eauto.
Qed.

Lemma weak_out_Ok (rows : list BenchRow) :
  exists out, weak_out rows = Ok out.
Proof.
  unfold weak_out. apply for_each_total. intros it _.
  apply for_each_total. intros v _. apply weak_group_Ok.
Qed.

Lemma weak_out_In (rows : list BenchRow) (out : list MetricRow)
    (m : MetricRow) :
  weak_out rows = Ok out -> In m out -> WeakRowIn rows m.
Proof.
  unfold weak_out. intros H Hin.
  destruct (for_each_In _ _ _ _ H Hin) as (it & ms & _ & H1 & Hm).
  destruct (for_each_In _ _ _ _ H1 Hm) as (v & ms' & _ & H2 & Hm').
  exact (weak_group_In _ _ _ _ _ H2 Hm').
Qed.

Lemma dedup_In (out : list MetricRow) (m : MetricRow) :
  In m (dedup out) -> In m out.
Proof.
  unfold dedup, Dict.values. intros H.
  apply in_map_iff in H. destruct H as ([k m'] & Hm & H). simpl in Hm.
  subst m'. revert k H.
  apply fold_left_invariant with
    (P := fun uniq => forall k, In (k, m) uniq -> In m out).
  - intros k [].
  - intros uniq a Ha IH k H.
    apply DictFacts.In_set in H. destruct H as [H| ->]; eauto.
Qed.

Lemma weak_metrics_Ok (rows : list BenchRow) :
  exists out, _weak_metrics rows = Ok out.
Proof.
  unfold _weak_metrics. destruct (weak_out_Ok rows) as (out & ->).
  simpl. eauto.
Qed.

Lemma weak_metrics_In (rows : list BenchRow) (out : list MetricRow)
    (m : MetricRow) :
  _weak_metrics rows = Ok out -> In m out -> WeakRowIn rows m.
Proof.
  unfold _weak_metrics. intros H Hin.
  apply bind_Ok in H. destruct H as (out' & Hout & H). injection H as <-.
  apply dedup_In in Hin. exact (weak_out_In _ _ _ Hout Hin).
Qed.

Lemma WeakRowIn_mode (rows : list BenchRow) (m : MetricRow) :
  WeakRowIn rows m -> m_mode m = weak.
Proof.
  intros [it v b r t _ _ _ _ _ H|it v b t _ _ ->];
    [apply (wr_mode _ _ _ _ _ H) | reflexivity].
Qed.

(** ** [compute_metrics] *)

Lemma compute_metrics_In (rows : list BenchRow) (out : list MetricRow)
    (m : MetricRow) :
  compute_metrics rows = Ok out -> In m out ->
  (exists s, _strong_metrics rows = Ok s /\ In m s /\ m_mode m = strong)
  \/ (WeakRowIn rows m /\ m_mode m = weak).
Proof.
  unfold compute_metrics. intros H Hin.
  apply bind_Ok in H. destruct H as (s & Hs & H).
  apply bind_Ok in H. destruct H as (w & Hw & H). injection H as <-.
  apply in_app_or in Hin. destruct Hin as [Hin|Hin].
  - left. exists s. split; [assumption|]. split; [assumption|].
    destruct (strong_metrics_In _ _ _ Hs Hin) as (r & t & _ & _ & _ & Hspec).
    apply (sr_mode _ _ _ _ Hspec).
  - right. pose proof (weak_metrics_In _ _ _ Hw Hin) as Hm.
    split; [assumption | exact (WeakRowIn_mode _ _ Hm)].
Qed.

Lemma compute_metrics_strong (rows : list BenchRow) (out : list MetricRow)
    (m : MetricRow) :
  compute_metrics rows = Ok out -> In m out -> m_mode m = strong ->
  exists r t,
    In r rows
    /\ (version r = "sequential" \/ In (group_key r) (strong_keys rows))
    /\ find_baseline rows (n_bats r) (iters r) = Ok t
    /\ StrongRowOf rows r t m.
Proof.
  intros H Hin Hmode.
  destruct (compute_metrics_In _ _ _ H Hin) as [(s & Hs & Hm & _)|[_ Hw]].
  - exact (strong_metrics_In _ _ _ Hs Hm).
  - congruence.
Qed.

Lemma compute_metrics_weak (rows : list BenchRow) (out : list MetricRow)
    (m : MetricRow) :
  compute_metrics rows = Ok out -> In m out -> m_mode m = weak ->
  WeakRowIn rows m.
Proof.
  intros H Hin Hmode.
  destruct (compute_metrics_In _ _ _ H Hin) as [(s & _ & _ & Hs)|[Hw _]].
  - congruence.
  - assumption.
Qed.

Lemma compute_metrics_Raise (rows : list BenchRow) (e : exn) :
  compute_metrics rows = Raise e -> e = OverflowError.
Proof.
  unfold compute_metrics. intros H.
  apply bind_Raise in H. destruct H as [H|(s & _ & H)].
  - exact (strong_metrics_Raise _ _ H).
  - destruct (weak_metrics_Ok rows) as (w & Hw). rewrite Hw in H.
    discriminate.
Qed.

(** ** Totality for counts that a float holds exactly *)

Module FloatExact.
Import Float.

Lemma digits2_pos_iter_xO (m k : positive) :
  Zpos (digits2_pos (Pos.iter xO m k)) = Zpos (digits2_pos m) + Zpos k.
Proof.
  induction k as [|k IH] using Pos.peano_ind.
  - simpl. lia.
  - rewrite Pos.iter_succ. simpl digits2_pos. lia.
Qed.

Lemma digits2_pos_upper (m : positive) :
  Zpos m < 2 ^ 53 -> Zpos (digits2_pos m) <= 53.
Proof.
  intros H. pose proof (FloatFacts.digits2_pos_lower m) as L.
  destruct (Z_le_gt_dec (Zpos (digits2_pos m)) 53) as [|G]; [assumption|].
  exfalso.
  assert (2 ^ 53 <= 2 ^ (Zpos (digits2_pos m) - 1))
    by (apply Z.pow_le_mono_r; lia).
  lia.
Qed.

(** A mantissa of 53 bits at an exponent in range is left as it is. *)
Lemma binary_round_aux_canonical (sx : bool) (m : positive) (e : Z) :
  Zpos (digits2_pos m) = 53 -> -1074 <= e <= 971 ->
  binary_round_aux prec emax sx (Zpos m) e loc_Exact = S754_finite sx m e.
Proof.
  intros Hd He.
  assert (Hs : shr_fexp prec emax (Zpos m) e loc_Exact
               = (Build_shr_record (Zpos m) false false, e)).
  { unfold shr_fexp, fexp, SpecFloat.emin, prec, emax. simpl Zdigits2.
    rewrite Hd.
    replace (Z.max (53 + e - 53) (3 - 1024 - 53) - e) with 0 by lia.
    reflexivity. }
  unfold binary_round_aux. rewrite Hs. simpl. rewrite Hs. simpl.
  replace (e <=? 971) with true by (symmetry; apply Z.leb_le; lia).
  reflexivity.
Qed.

(** [float(n)] does not overflow for [0 < n < 2^53]. *)
Lemma of_int_small (n : Z) :
  0 < n < 2 ^ 53 -> exists f, of_int n = Ok f.
Proof.
  intros [Hn Hu]. destruct n as [|q|q]; try lia.
  pose proof (digits2_pos_upper q Hu) as Hd.
  assert (H1 : 1 <= Zpos (digits2_pos q)) by lia.
  unfold of_int, binary_normalize, binary_round.
  unfold shl_align, fexp, SpecFloat.emin, prec, emax.
  replace (Z.max (Zpos (digits2_pos q) + 0 - 53) (3 - 1024 - 53))
    with (Zpos (digits2_pos q) - 53) by lia.
  destruct (Zpos (digits2_pos q) - 53 - 0) as [|k|k] eqn:Ek; try lia.
  - pose proof (binary_round_aux_canonical false q 0) as R.
    unfold prec, emax in R. rewrite R by lia. eauto.
  - pose proof (binary_round_aux_canonical false (Pos.iter xO q k)
                  (Zpos (digits2_pos q) - 53)) as R.
    unfold prec, emax in R. rewrite R.
    + eauto.
    + rewrite digits2_pos_iter_xO. lia.
    + lia.
Qed.

Lemma eff_small (x : float) (n : Z) :
  n < 2 ^ 53 ->
  exists f, (if 0 <? n then truediv_int x n else Ok zero) = Ok f.
Proof.
  intros Hn. destruct (FloatFacts.eff_cases x n) as [(f & Hf & _)|H];
    [eauto|].
  exfalso. destruct (0 <? n) eqn:E; [|discriminate].
  apply Z.ltb_lt in E. destruct (of_int_small n) as (b & Hb); [lia|].
  unfold truediv_int in H. rewrite Hb in H. simpl in H.
  destruct (FloatFacts.of_int_positive n b E Hb) as (m & e & ->).
  discriminate.
Qed.

End FloatExact.

Lemma strong_row_small (rows : list BenchRow) (keys : list (string * Z * Z))
    (bl : list (Z * Z * float)) (r : BenchRow) :
  p r < 2 ^ 53 -> exists bs, strong_row rows keys bl r = Ok bs.
Proof.
  intros Hp. unfold strong_row.
  destruct (negb _ && negb _); [eauto|].
  destruct (Dict.get size_eqb (n_bats r, iters r) bl) as [t|]; [|eauto].
  cbv zeta.
  set (t_self := match find_self_baseline rows (version r) (n_bats r)
                         (iters r) with
                 | None => t
                 | Some t' => t'
                 end).
  destruct (FloatFacts.ratio_Ok t (time_s r)) as (s1 & -> & _).
  destruct (FloatFacts.ratio_Ok t_self (time_s r)) as (s2 & -> & _).
  cbn [bind].
  destruct (FloatExact.eff_small s1 (p r) Hp) as (e1 & ->).
  destruct (FloatExact.eff_small s2 (p r) Hp) as (e2 & ->).
  cbn [bind]. eauto.
Qed.

(** [compute_metrics] returns its list of dicts whenever every [p] is
    below [2^53]; in general it returns or raises [OverflowError]. *)
Lemma compute_metrics_total (rows : list BenchRow) :
  (forall r, In r rows -> p r < 2 ^ 53) ->
  exists out, compute_metrics rows = Ok out.
Proof.
  intros Hp. unfold compute_metrics, _strong_metrics.
  destruct (baselines_spec rows) as (bl & -> & _). cbn [bind].
  destruct (for_each_total (strong_row rows (strong_keys rows) bl) rows)
    as (s & ->).
  { intros r Hr. apply strong_row_small. auto. }
  destruct (weak_metrics_Ok rows) as (w & ->).
  cbn [bind]. eauto.
Qed.

(** ** The parser *)

Module ReFacts.
Import Re.

Lemma first_some_Some {A B : Type} (f : A -> option B) (l : list A)
    (b : B) :
  first_some f l = Some b -> exists a, In a l /\ f a = Some b.
Proof.
  induction l as [|a l IH]; simpl; [discriminate|].
  destruct (f a) as [b'|] eqn:E.
  - intros H. injection H as <-. exists a. auto.
  - intros H. destruct (IH H) as (a' & Ha & Hf). exists a'. auto.
Qed.

Lemma runs_class (cls : ascii -> bool) (s a b : list ascii) :
  In (a, b) (runs cls s) -> forallb cls a = true.
Proof.
  revert a b. induction s as [|c s IH]; simpl; intros a b H.
  - destruct H as [H|[]]. injection H as <- <-. reflexivity.
  - destruct (cls c) eqn:Ec.
    + apply in_app_or in H. destruct H as [H|[H|[]]].
      * apply in_map_iff in H. destruct H as ([a' b'] & H & Hin).
        simpl in H. injection H as <- <-. simpl.
        rewrite Ec, (IH _ _ Hin). reflexivity.
      * injection H as <- <-. reflexivity.
    + destruct H as [H|[]]. injection H as <- <-. reflexivity.
Qed.

(** A named group of a match holds a token of the class of a [Plus]
    item of that name. *)
Lemma rmatch_captures (items : list item) (s : list ascii)
    (caps : captures) (n : string) (tok : list ascii) :
  rmatch items s = Some caps -> In (n, tok) caps ->
  exists cls, In (Plus cls (Some n)) items /\ forallb cls tok = true.
Proof.
  revert s caps. induction items as [|i items IH]; simpl; intros s caps H Hin.
  - injection H as <-. destruct Hin.
  - destruct i as [l|cls name|cls|].
    + destruct (strip_prefix (list_ascii_of_string l) s) as [s'|];
        [|discriminate].
      destruct (IH _ _ H Hin) as (cls' & H1 & H2). eauto.
    + apply first_some_Some in H. destruct H as ([a b] & Hab & H).
      simpl in H. destruct (nonempty a); [|discriminate].
      destruct (rmatch items b) as [caps'|] eqn:E; [|discriminate].
      simpl in H. injection H as <-.
      destruct name as [n'|]; simpl in Hin.
      * destruct Hin as [Hin|Hin].
        -- injection Hin as -> ->. exists cls.
           split; [auto | exact (runs_class _ _ _ _ Hab)].
        -- destruct (IH _ _ E Hin) as (cls' & H1 & H2). eauto.
      * destruct (IH _ _ E Hin) as (cls' & H1 & H2). eauto.
    + apply first_some_Some in H. destruct H as ([a b] & Hab & H).
      simpl in H. destruct (IH _ _ H Hin) as (cls' & H1 & H2). eauto.
    + assert (E : rmatch items s = Some caps).
      { destruct s as [|c [|c' s]]; try discriminate; [assumption|].
        destruct (Ascii.eqb c "010"); [assumption | discriminate]. }
      destruct (IH _ _ E Hin) as (cls' & H1 & H2). eauto.
Qed.

Lemma group_cases (caps : captures) (n : string) :
  group caps n = [] \/ In (n, group caps n) caps.
Proof.
  induction caps as [|[n' tok] caps IH]; simpl; [auto|].
  destruct (String.eqb n' n) eqn:E.
  - apply String.eqb_eq in E. subst. auto.
  - destruct IH; auto.
Qed.

End ReFacts.

Module StrFacts.
Import Str.

Lemma digit_value_nonneg (c : ascii) : is_digit c = true -> 0 <= digit_value c.
Proof.
  unfold is_digit, digit_value. cbv zeta. intros H.
  apply andb_true_iff in H. destruct H as [H _].
  apply N.leb_le in H. lia.
Qed.

Lemma digits_value_nonneg (ds : list ascii) :
  forallb is_digit ds = true -> 0 <= digits_value ds.
Proof.
  unfold digits_value. intros H.
  assert (G : forall acc, 0 <= acc ->
              0 <= fold_left (fun acc c => 10 * acc + digit_value c) ds acc).
  { induction ds as [|c ds IH]; cbn [fold_left]; intros acc Hacc;
      [assumption|].
    cbn [forallb] in H. apply andb_true_iff in H. destruct H as [Hc Hds].
    apply IH; [assumption|].
    pose proof (digit_value_nonneg c Hc). lia. }
  apply G. lia.
Qed.

(** [int] of a token of digits is not negative. *)
Lemma int_digits_nonneg (tok : list ascii) (z : Z) :
  forallb is_digit tok = true -> int tok = Ok z -> 0 <= z.
Proof.
  intros Hd. destruct tok as [|c ds].
  - discriminate.
  - assert (E : int (c :: ds)
                = if all_digits (c :: ds)
                  then Ok (1 * digits_value (c :: ds))
                  else Raise ValueError).
    { simpl in Hd. apply andb_true_iff in Hd. destruct Hd as [Hc _].
      destruct c as [[] [] [] [] [] [] [] []];
        try discriminate Hc; reflexivity. }
    rewrite E. destruct (all_digits (c :: ds)); [|discriminate].
    intros H. assert (Hz : z = 1 * digits_value (c :: ds)) by congruence.
    pose proof (digits_value_nonneg _ Hd). lia.
Qed.

End StrFacts.

Lemma BENCH_RE_digits (cls : ascii -> bool) (n : string) :
  In (Re.Plus cls (Some n)) BENCH_RE ->
  n = "n_bats" \/ n = "iters" \/ n = "procs" \/ n = "threads" ->
  cls = Str.is_digit.
Proof.
  unfold BENCH_RE. cbv zeta. simpl In. intros H Hn.
  repeat (destruct H as [H|H]; [try discriminate H|]); try contradiction.
  all: injection H as H1 H2; subst n;
    first [ symmetry; exact H1
          | exfalso; destruct Hn as [Hn|[Hn|[Hn|Hn]]]; discriminate Hn ].
Qed.

(** An integer field read by [parse_line] is not negative. *)
Lemma group_int_nonneg (s : list ascii) (m : Re.captures) (n : string)
    (z : Z) :
  Re.rmatch BENCH_RE s = Some m ->
  n = "n_bats" \/ n = "iters" \/ n = "procs" \/ n = "threads" ->
  Str.int (Re.group m n) = Ok z -> 0 <= z.
Proof.
  intros Hm Hn Hz.
  destruct (ReFacts.group_cases m n) as [E|Hin].
  - rewrite E in Hz. discriminate.
  - destruct (ReFacts.rmatch_captures _ _ _ _ _ Hm Hin) as (cls & H1 & H2).
    rewrite (BENCH_RE_digits cls n H1 Hn) in H2.
    exact (StrFacts.int_digits_nonneg _ _ H2 Hz).
Qed.

Lemma parse_line_nonneg (line : string) (r : BenchRow) :
  parse_line line = Ok (Some r) ->
  0 <= n_bats r /\ 0 <= iters r /\ 0 <= procs r /\ 0 <= threads r.
Proof.
  unfold parse_line.
  destruct (Re.rmatch BENCH_RE (Str.strip (list_ascii_of_string line)))
    as [m|] eqn:Em; [|discriminate].
  intros H.
  apply bind_Ok in H. destruct H as (n & Hn & H).
  apply bind_Ok in H. destruct H as (it & Hit & H).
  apply bind_Ok in H. destruct H as (pr & Hpr & H).
  apply bind_Ok in H. destruct H as (th & Hth & H).
  apply bind_Ok in H. destruct H as (t & Ht & H).
  injection H as <-. simpl.
  split; [|split; [|split]].
  - apply (group_int_nonneg _ m "n_bats" n Em); auto.
  - apply (group_int_nonneg _ m "iters" it Em); auto.
  - apply (group_int_nonneg _ m "procs" pr Em); auto.
  - apply (group_int_nonneg _ m "threads" th Em); auto 6.
Qed.

Lemma parse_lines_In (lines : list string) (rows : list BenchRow)
    (r : BenchRow) :
  parse_lines lines = Ok rows -> In r rows ->
  exists line, In line lines /\ parse_line line = Ok (Some r).
Proof.
  revert rows. induction lines as [|line lines IH]; simpl; intros rows H Hin.
  - injection H as <-. destruct Hin.
  - apply bind_Ok in H. destruct H as (o & Ho & H).
    apply bind_Ok in H. destruct H as (rest & Hrest & H).
    injection H as <-.
    destruct o as [r'|].
    + destruct Hin as [<-|Hin]; [exists line; auto|].
      destruct (IH _ Hrest Hin) as (l & Hl & Hp). exists l. auto.
    + destruct (IH _ Hrest Hin) as (l & Hl & Hp). exists l. auto.
Qed.

Lemma parse_lines_Raise (lines : list string) (e : exn) :
  parse_lines lines = Raise e -> e = ValueError.
Proof.
  induction lines as [|line lines IH]; simpl; [discriminate|].
  intros H. apply bind_Raise in H. destruct H as [H|(o & _ & H)].
  - unfold parse_line in H.
    destruct (Re.rmatch BENCH_RE _) as [m|]; [|discriminate].
    assert (Hint : forall tok e', Str.int tok = Raise e' -> e' = ValueError).
    { intros tok e'. unfold Str.int.
      destruct tok as [|c ds]; [simpl; congruence|].
      destruct c as [[] [] [] [] [] [] [] []];
        match goal with
        | |- context [Str.all_digits ?x] => destruct (Str.all_digits x)
        end; congruence. }
    assert (Hfl : forall tok e', Str.float_of_str tok = Raise e' ->
                                 e' = ValueError).
    { intros tok e'. unfold Str.float_of_str.
      destruct (Str.span Str.is_digit tok) as [ip rest].
      destruct rest as [|c fp]; [destruct ip; congruence|].
      match goal with |- context [if ?b then _ else _] => destruct b end;
        congruence. }
    repeat (apply bind_Raise in H;
            destruct H as [H|(? & _ & H)]; [eauto|]).
    discriminate.
  - apply bind_Raise in H. destruct H as [H|(? & _ & H)]; [auto|discriminate].
Qed.

Lemma parse_line_None (line : string) :
  parse_line line = Ok None <-> matches line = false.
Proof.
  unfold parse_line, matches.
  destruct (Re.rmatch BENCH_RE (Str.strip (list_ascii_of_string line)))
    as [m|]; split; try discriminate; try reflexivity.
  intros H.
  repeat (apply bind_Ok in H; destruct H as (? & _ & H)).
  discriminate.
Qed.

Lemma parse_lines_nil (lines : list string) :
  parse_lines lines = Ok [] <->
  (forall line, In line lines -> matches line = false).
Proof.
  induction lines as [|line lines IH]; simpl.
  - split; [intros _ l [] | reflexivity].
  - split.
    + intros H.
      apply bind_Ok in H. destruct H as (o & Ho & H).
      apply bind_Ok in H. destruct H as (rest & Hrest & H).
      injection H as H. destruct o as [r|]; [discriminate|]. subst rest.
      intros l [<-|Hl].
      * apply parse_line_None. assumption.
      * apply IH; assumption.
    + intros H.
      assert (H1 : parse_line line = Ok None)
        by (apply parse_line_None, H; auto).
      assert (H2 : parse_lines lines = Ok []) by (apply IH; auto).
      rewrite H1, H2. reflexivity.
Qed.

Lemma main_Ok (lines : list string) (out : list MetricRow) :
  main lines = Ok out ->
  exists rows, parse_lines lines = Ok rows /\ compute_metrics rows = Ok out.
Proof.
  unfold main. intros H.
  apply bind_Ok in H. destruct H as (rows & Hrows & H).
  exists rows. split; [assumption|].
  destruct rows; [discriminate | assumption].
Qed.

(** * The claims *)

(** C1. In every strong-mode dict of [compute_metrics] whose [p] is at
    least 1, [efficiency_seq] is [speedup_seq / p], [efficiency_self] is
    [speedup_self / p], and the pair [speedup]/[efficiency] is the
    self-baseline pair. *)
Theorem strong_efficiency_is_speedup_over_p
    (rows : list BenchRow) (out : list MetricRow) (m : MetricRow) :
  compute_metrics rows = Ok out -> In m out ->
  m_mode m = strong -> 1 <= m_p m ->
  Float.truediv_int (speedup_seq m) (m_p m) = Ok (efficiency_seq m)
  /\ Float.truediv_int (speedup_self m) (m_p m) = Ok (efficiency_self m)
  /\ speedup m = speedup_self m
  /\ efficiency m = efficiency_self m.
Proof.
  intros H Hin Hmode Hp.
  destruct (compute_metrics_strong _ _ _ H Hin Hmode)
    as (r & t & _ & _ & _ & S).
  pose proof (sr_efficiency_seq _ _ _ _ S) as E1.
  pose proof (sr_efficiency_self _ _ _ _ S) as E2.
  rewrite <- (sr_p _ _ _ _ S) in E1, E2.
  assert (Hlt : (0 <? m_p m) = true) by (apply Z.ltb_lt; lia).
  rewrite Hlt in E1, E2.
  split; [exact E1|]. split; [exact E2|].
  split; [exact (sr_speedup _ _ _ _ S) | exact (sr_efficiency _ _ _ _ S)].
Qed.

Lemma strong_efficiency_witness :
  let m := nth 1 strong_out no_row in
  compute_metrics strong_rows = Ok strong_out
  /\ m_version m = "openmp" /\ m_p m = 2
  /\ Float.truediv_int (speedup_seq m) (m_p m) = Ok (efficiency_seq m)
  /\ Float.truediv_int (speedup_self m) (m_p m) = Ok (efficiency_self m)
  /\ speedup m = speedup_self m
  /\ efficiency m = efficiency_self m.
Proof.
  intros m.
  split; [vm_compute; reflexivity|].
  split; [reflexivity|]. split; [reflexivity|].
  apply (strong_efficiency_is_speedup_over_p strong_rows strong_out m).
  - vm_compute; reflexivity.
  - right; left; reflexivity.
  - reflexivity.
  - vm_compute; discriminate.
Defined.

(** C2. In every weak-mode dict of [compute_metrics], each speedup field
    equals its efficiency field: nothing is divided by [p]. *)
Theorem weak_efficiency_is_speedup
    (rows : list BenchRow) (out : list MetricRow) (m : MetricRow) :
  compute_metrics rows = Ok out -> In m out -> m_mode m = weak ->
  speedup m = efficiency m
  /\ speedup_seq m = efficiency_seq m
  /\ speedup_self m = efficiency_self m.
Proof.
  intros H Hin Hmode.
  destruct (compute_metrics_weak _ _ _ H Hin Hmode)
    as [it v b r t _ _ _ _ _ W|it v b t _ _ ->].
  - rewrite (wr_speedup _ _ _ _ _ W), (wr_efficiency _ _ _ _ _ W),
      (wr_efficiency_seq _ _ _ _ _ W), (wr_efficiency_self _ _ _ _ _ W).
    auto.
  - simpl. auto.
Qed.

Lemma weak_efficiency_witness :
  let m := nth 2 weak_out_sample no_row in
  compute_metrics weak_rows = Ok weak_out_sample
  /\ m_mode m = weak /\ m_p m = 2
  /\ speedup m = efficiency m
  /\ speedup_seq m = efficiency_seq m
  /\ speedup_self m = efficiency_self m.
Proof.
  intros m.
  split; [vm_compute; reflexivity|].
  split; [reflexivity|]. split; [reflexivity|].
  apply (weak_efficiency_is_speedup weak_rows weak_out_sample m).
  - vm_compute; reflexivity.
  - right; right; left; reflexivity.
  - reflexivity.
Defined.

(** C3, as the spec states it, fails: a log without any sequential run
    is processed to the end.  The exit of [find_baseline] is caught in
    [_strong_metrics]. *)
Lemma missing_sequential_completes :
  ~ (exits_with_diagnostic mpi_only_log <->
     (forall line, In line mpi_only_log -> matches line = false)
     \/ (forall r, In r (rows_of mpi_only_log) ->
                   version r <> "sequential")).
Proof.
  intros [_ H].
  assert (E : exits_with_diagnostic mpi_only_log).
  { apply H. right. intros r Hr.
    change (rows_of mpi_only_log) with mpi_only_rows in Hr.
    destruct Hr as [<-|[<-|[]]]; discriminate. }
  destruct E as (msg & E). vm_compute in E. discriminate.
Qed.

(** C3, amended. [main] leaves with a diagnostic exactly when no line of
    the input matches [BENCH_RE], and the message is then the one of
    [main]; [compute_metrics] itself never leaves through [SystemExit];
    a size without a sequential record only loses its strong-mode dicts:
    every strong-mode dict has a sequential record of its own size. *)
Theorem exit_iff_no_bench_line (lines : list string) :
  (exits_with_diagnostic lines <->
   forall line, In line lines -> matches line = false)
  /\ (forall msg, main lines = Raise (SystemExit msg) ->
                  msg = "No BENCH lines found in input.")
  /\ (forall rows msg, compute_metrics rows <> Raise (SystemExit msg))
  /\ (forall out m, main lines = Ok out -> In m out -> m_mode m = strong ->
        exists r, In r (rows_of lines) /\ version r = "sequential"
                  /\ n_bats r = m_n_bats m /\ iters r = m_iters m).
Proof.
  assert (Hexit : forall msg, main lines = Raise (SystemExit msg) ->
                    parse_lines lines = Ok []
                    /\ msg = "No BENCH lines found in input.").
  { intros msg H. unfold main in H.
    destruct (parse_lines lines) as [rows|e] eqn:Ep.
    - destruct rows as [|r rows]; simpl in H.
      + injection H as <-. auto.
      + apply compute_metrics_Raise in H. discriminate.
    - simpl in H. apply parse_lines_Raise in Ep. congruence. }
  split; [|split; [|split]].
  - rewrite <- parse_lines_nil. split.
    + intros (msg & H). apply (Hexit msg H).
    + intros H. unfold exits_with_diagnostic, main. rewrite H. simpl. eauto.
  - intros msg H. apply (Hexit msg H).
  - intros rows msg H. apply compute_metrics_Raise in H. discriminate.
  - intros out m H Hin Hmode.
    destruct (main_Ok _ _ H) as (rows & Hrows & Hc).
    unfold rows_of. rewrite Hrows.
    destruct (compute_metrics_strong _ _ _ Hc Hin Hmode)
      as (r & t & _ & _ & Hb & S).
    destruct (find_baseline_Ok_inv _ _ _ _ Hb) as (r' & H1 & H2 & H3 & H4 & _).
    exists r'. rewrite (sr_n_bats _ _ _ _ S), (sr_iters _ _ _ _ S). auto.
Qed.

Lemma exit_iff_no_bench_line_witness :
  exits_with_diagnostic ["no benchmark here"; "BENCH version=mpi"]
  /\ ~ exits_with_diagnostic mpi_only_log.
Proof.
  split.
  - apply (proj1 (exit_iff_no_bench_line _)).
    intros line [<-|[<-|[]]]; vm_compute; reflexivity.
  - intros E.
    pose proof (proj1 (proj1 (exit_iff_no_bench_line mpi_only_log)) E) as H.
    specialize (H _ (or_introl eq_refl)). vm_compute in H. discriminate.
Defined.

(** C4. A line whose [time_s] token has two dots is matched by [BENCH_RE]
    and then makes [float] raise: [parse_lines] fails with [ValueError]
    instead of skipping the line. *)
Theorem two_dots_raises_ValueError :
  forallb matches two_dots_log = true
  /\ parse_lines two_dots_log = Raise ValueError
  /\ main two_dots_log = Raise ValueError.
Proof. vm_compute. auto. Qed.

(** C5, as the spec states it, fails: the parser accepts [threads=0], and
    the record then has [p = 0]. *)
Lemma zero_threads_parallelism :
  ~ (forall lines rows r,
       parse_lines lines = Ok rows -> In r rows -> 1 <= p r).
Proof.
  intros H.
  assert (H0 : 1 <= p zero_threads_row).
  { apply (H zero_threads_log [zero_threads_row]).
    - vm_compute; reflexivity.
    - left; reflexivity. }
  change (p zero_threads_row) with 0 in H0. lia.
Qed.

(** C5, amended. [p] is [threads] for "openmp", [procs] for "mpi" and 1
    for any other version; for a record read by the parser [p] is never
    negative, and it is below 1 exactly for an "openmp" record with zero
    threads and for an "mpi" record with zero procs. *)
Theorem parallelism_spec :
  (forall r,
     (version r = "openmp" -> p r = threads r)
     /\ (version r = "mpi" -> p r = procs r)
     /\ (version r <> "openmp" -> version r <> "mpi" -> p r = 1))
  /\ (forall lines rows r,
        parse_lines lines = Ok rows -> In r rows ->
        0 <= p r
        /\ (1 <= p r <->
            ~ (version r = "openmp" /\ threads r = 0
               \/ version r = "mpi" /\ procs r = 0))).
Proof.
  split.
  - intros r. unfold p. split; [|split].
    + intros ->. reflexivity.
    + intros ->. reflexivity.
    + intros H1 H2. apply String.eqb_neq in H1, H2. rewrite H1, H2.
      reflexivity.
  - intros lines rows r Hp Hin.
    destruct (parse_lines_In _ _ _ Hp Hin) as (line & _ & Hl).
    destruct (parse_line_nonneg _ _ Hl) as (_ & _ & Hpr & Hth).
    unfold p.
    destruct (String.eqb (version r) "openmp") eqn:E1.
    + apply String.eqb_eq in E1. split; [assumption|]. split.
      * intros H1 [[_ H2]|[H2 _]]; [lia | congruence].
      * intros H. destruct (Z.eq_dec (threads r) 0) as [E|E]; [|lia].
        exfalso. apply H. auto.
    + apply String.eqb_neq in E1.
      destruct (String.eqb (version r) "mpi") eqn:E2.
      * apply String.eqb_eq in E2. split; [assumption|]. split.
        -- intros H1 [[H2 _]|[_ H2]]; [congruence | lia].
        -- intros H. destruct (Z.eq_dec (procs r) 0) as [E|E]; [|lia].
           exfalso. apply H. auto.
      * apply String.eqb_neq in E2. split; [lia|]. split; [|lia].
        intros _ [[H2 _]|[H2 _]]; congruence.
Qed.

Lemma parallelism_spec_witness :
  p (nth 2 strong_rows zero_threads_row) = 4
  /\ 0 <= p zero_threads_row
  /\ ~ 1 <= p zero_threads_row.
Proof.
  split; [|split].
  - exact (proj1 (proj1 parallelism_spec (nth 2 strong_rows zero_threads_row))
                 eq_refl).
  - apply (proj2 parallelism_spec zero_threads_log [zero_threads_row]).
    + vm_compute; reflexivity.
    + left; reflexivity.
  - intros H.
    apply (proj1 (proj2 (proj2 parallelism_spec zero_threads_log
                           [zero_threads_row] zero_threads_row
                           eq_refl (or_introl eq_refl))) H).
    left. split; reflexivity.
Defined.

(** C6. A strong-mode dict of a version other than "sequential" exists
    only when two records with its version, n_bats and iters differ in
    [p]; every sequential record gets its strong-mode dict, whatever the
    other records of its size are. *)
Theorem strong_classification (rows : list BenchRow) (out : list MetricRow) :
  compute_metrics rows = Ok out ->
  (forall m, In m out -> m_mode m = strong -> m_version m <> "sequential" ->
     exists r1 r2,
       In r1 rows /\ In r2 rows
       /\ group_key r1 = (m_version m, m_n_bats m, m_iters m)
       /\ group_key r2 = (m_version m, m_n_bats m, m_iters m)
       /\ p r1 <> p r2)
  /\ (forall r, In r rows -> version r = "sequential" ->
        exists m, In m out /\ m_mode m = strong
                  /\ m_version m = "sequential"
                  /\ m_n_bats m = n_bats r /\ m_iters m = iters r
                  /\ m_procs m = procs r /\ m_threads m = threads r
                  /\ m_time_s m = time_s r).
Proof.
  intros H. split.
  - intros m Hin Hmode Hv.
    destruct (compute_metrics_strong _ _ _ H Hin Hmode)
      as (r & t & _ & Hk & _ & S).
    rewrite (sr_version _ _ _ _ S) in Hv.
    destruct Hk as [Hk|Hk]; [contradiction|].
    destruct (strong_keys_spec _ _ Hk) as (r1 & r2 & H1 & H2 & K1 & K2 & Hp).
    exists r1, r2.
    rewrite (sr_version _ _ _ _ S), (sr_n_bats _ _ _ _ S),
      (sr_iters _ _ _ _ S).
    auto.
  - intros r Hr Hv.
    unfold compute_metrics in H.
    apply bind_Ok in H. destruct H as (s & Hs & H).
    apply bind_Ok in H. destruct H as (w & _ & H). injection H as <-.
    destruct (strong_metrics_sequential _ _ _ Hs Hr Hv) as (m & t & Hm & _ & S).
    exists m. split; [apply in_or_app; auto|].
    rewrite (sr_mode _ _ _ _ S), (sr_version _ _ _ _ S),
      (sr_n_bats _ _ _ _ S), (sr_iters _ _ _ _ S), (sr_procs _ _ _ _ S),
      (sr_threads _ _ _ _ S), (sr_time_s _ _ _ _ S).
    auto 10.
Qed.

Lemma strong_classification_witness :
  (exists r1 r2,
     In r1 strong_rows /\ In r2 strong_rows
     /\ group_key r1 = ("openmp", 2000, 2000)
     /\ group_key r2 = ("openmp", 2000, 2000)
     /\ p r1 <> p r2)
  /\ (exists m, In m strong_out /\ m_mode m = strong
                /\ m_version m = "sequential").
Proof.
  assert (H : compute_metrics strong_rows = Ok strong_out)
    by (vm_compute; reflexivity).
  destruct (strong_classification strong_rows strong_out H) as [H1 H2].
  split.
  - apply (H1 (nth 1 strong_out no_row)).
    + right; left; reflexivity.
    + reflexivity.
    + vm_compute; discriminate.
  - destruct (H2 (nth 0 strong_rows zero_threads_row)) as (m & Hm).
    + left; reflexivity.
    + reflexivity.
    + exists m. intuition.
Defined.

(** C7. The baseline of a weak group: a sequential record of that iters
    with the least n_bats when there is one; otherwise a record of the
    group's own version at p = 1 with the least n_bats; otherwise none,
    and then no weak-mode dict has that iters and that version.  Every
    weak-mode dict carries the size and the time of the baseline of its
    group. *)
Theorem weak_baseline_selection (rows : list BenchRow) (it : Z) (v : string) :
  (forall s, In s rows -> iters s = it -> version s = "sequential" ->
     exists b,
       _weak_baseline rows it v = Some b
       /\ In b rows /\ iters b = it /\ version b = "sequential" /\ p b = 1
       /\ forall r, In r rows -> iters r = it -> version r = "sequential" ->
                    n_bats b <= n_bats r)
  /\ ((forall r, In r rows -> iters r = it -> version r <> "sequential") ->
      forall s, In s rows -> iters s = it -> version s = v -> p s = 1 ->
      exists b,
        _weak_baseline rows it v = Some b
        /\ In b rows /\ iters b = it /\ version b = v /\ p b = 1
        /\ forall r, In r rows -> iters r = it -> version r = v -> p r = 1 ->
                     n_bats b <= n_bats r)
  /\ ((forall r, In r rows -> iters r = it -> version r <> "sequential") ->
      (forall r, In r rows -> iters r = it -> version r = v -> p r <> 1) ->
      _weak_baseline rows it v = None
      /\ forall out m, compute_metrics rows = Ok out -> In m out ->
                       m_mode m = weak ->
                       ~ (m_iters m = it /\ m_version m = v))
  /\ (forall out m, compute_metrics rows = Ok out -> In m out ->
        m_mode m = weak ->
        exists it' v' b,
          v' <> "sequential" /\ _weak_baseline rows it' v' = Some b
          /\ m_iters m = it'
          /\ baseline_n_bats m = n_bats b /\ T_base_s m = time_s b
          /\ T_seq1_s m = time_s b).
Proof.
  split; [|split; [|split]].
  - intros s Hs Hit Hv. rewrite weak_baseline_unfold.
    destruct (filter (is_seq_base it) rows) as [|c cs] eqn:E.
    + exfalso. rewrite filter_nil in E. specialize (E s Hs).
      rewrite (proj2 (is_seq_base_true it s)) in E by auto. discriminate.
    + destruct (min_of_filter _ _ _ _ E) as (Hin & Hf & Hmin).
      apply is_seq_base_true in Hf. destruct Hf as [Hi Hvb].
      exists (min_n_bats c cs). repeat split; auto using p_sequential.
      intros r Hr Hri Hrv. apply Hmin; [assumption|].
      apply is_seq_base_true. auto.
  - intros Hno s Hs Hit Hv Hp. rewrite weak_baseline_unfold.
    destruct (filter (is_seq_base it) rows) as [|c cs] eqn:E.
    + destruct (filter (is_same_base it v) rows) as [|c cs] eqn:E2.
      * exfalso. rewrite filter_nil in E2. specialize (E2 s Hs).
        rewrite (proj2 (is_same_base_true it v s)) in E2 by auto.
        discriminate.
      * destruct (min_of_filter _ _ _ _ E2) as (Hin & Hf & Hmin).
        apply is_same_base_true in Hf. destruct Hf as (Hi & Hvb & Hpb).
        exists (min_n_bats c cs). repeat split; auto.
        intros r Hr Hri Hrv Hrp. apply Hmin; [assumption|].
        apply is_same_base_true. auto.
    + exfalso. destruct (min_of_filter _ _ _ _ E) as (Hin & Hf & _).
      apply is_seq_base_true in Hf. destruct Hf as [Hi Hvb].
      exact (Hno _ Hin Hi Hvb).
  - intros Hno Hnone.
    assert (Hb : _weak_baseline rows it v = None).
    { rewrite weak_baseline_unfold.
      destruct (filter (is_seq_base it) rows) as [|c cs] eqn:E.
      - destruct (filter (is_same_base it v) rows) as [|c cs] eqn:E2;
          [reflexivity|].
        exfalso. destruct (min_of_filter _ _ _ _ E2) as (Hin & Hf & _).
        apply is_same_base_true in Hf. destruct Hf as (Hi & Hvb & Hpb).
        exact (Hnone _ Hin Hi Hvb Hpb).
      - exfalso. destruct (min_of_filter _ _ _ _ E) as (Hin & Hf & _).
        apply is_seq_base_true in Hf. destruct Hf as [Hi Hvb].
        exact (Hno _ Hin Hi Hvb). }
    split; [assumption|].
    intros out m H Hin Hmode [Hmi Hmv].
    destruct (compute_metrics_weak _ _ _ H Hin Hmode)
      as [it' v' b r t _ Hb' _ Hri Hrv W|it' v' b t _ Hb' ->].
    + rewrite (wr_iters _ _ _ _ _ W) in Hmi.
      rewrite (wr_version _ _ _ _ _ W) in Hmv.
      subst it' v'. rewrite Hmi, Hmv in Hb'. congruence.
    + simpl in Hmi, Hmv.
      destruct (weak_baseline_Some _ _ _ _ Hb') as (Hbin & Hbi & Hbp & Hbv).
      destruct (String.eqb (version b) "sequential") eqn:Es.
      * apply String.eqb_eq in Es. exact (Hno _ Hbin Hmi Es).
      * exact (Hnone _ Hbin Hmi Hmv Hbp).
  - intros out m H Hin Hmode.
    destruct (compute_metrics_weak _ _ _ H Hin Hmode)
      as [it' v' b r t Hv' Hb' _ Hri _ W|it' v' b t Hv' Hb' ->].
    + exists it', v', b.
      rewrite (wr_iters _ _ _ _ _ W), (wr_baseline_n_bats _ _ _ _ _ W),
        (wr_T_base_s _ _ _ _ _ W), (wr_T_seq1_s _ _ _ _ _ W).
      auto 10.
    + destruct (weak_baseline_Some _ _ _ _ Hb') as (_ & Hbi & _).
      exists it', v', b. simpl. auto 10.
Qed.

Lemma weak_baseline_selection_witness :
  (exists b, _weak_baseline weak_rows 500 "mpi" = Some b
             /\ version b = "sequential" /\ n_bats b = 1000)
  /\ (exists b, _weak_baseline mpi_only_rows 500 "mpi" = Some b
                /\ version b = "mpi" /\ n_bats b = 1000)
  /\ _weak_baseline mpi_only_rows 500 "openmp" = None.
Proof.
  split; [|split].
  - destruct (proj1 (weak_baseline_selection weak_rows 500 "mpi")
                (nth 0 weak_rows zero_threads_row))
      as (b & Hb & _ & _ & Hv & _).
    + left; reflexivity.
    + reflexivity.
    + reflexivity.
    + exists b. split; [assumption|]. split; [assumption|].
      vm_compute in Hb. injection Hb as <-. reflexivity.
  - destruct (proj1 (proj2 (weak_baseline_selection mpi_only_rows 500 "mpi")))
      with (s := nth 0 mpi_only_rows zero_threads_row)
      as (b & Hb & _ & _ & Hv & _).
    + intros r [<-|[<-|[]]] _; discriminate.
    + left; reflexivity.
    + reflexivity.
    + reflexivity.
    + reflexivity.
    + exists b. split; [assumption|]. split; [assumption|].
      vm_compute in Hb. injection Hb as <-. reflexivity.
  - apply (proj1 (proj2 (proj2 (weak_baseline_selection
                                  mpi_only_rows 500 "openmp")))).
    + intros r [<-|[<-|[]]] _; discriminate.
    + intros r [<-|[<-|[]]] _; discriminate.
Defined.

(** C8. When no record of a strong-mode dict's version, n_bats and iters
    has p = 1, [find_self_baseline] answers [None], [T_self1_s] is the
    sequential baseline time of that size, and the self-baseline speedup
    and efficiency are the sequential-baseline ones. *)
Theorem self_baseline_fallback
    (rows : list BenchRow) (out : list MetricRow) (m : MetricRow) :
  compute_metrics rows = Ok out -> In m out -> m_mode m = strong ->
  (forall r, In r rows -> version r = m_version m ->
             n_bats r = m_n_bats m -> iters r = m_iters m -> p r <> 1) ->
  find_self_baseline rows (m_version m) (m_n_bats m) (m_iters m) = None
  /\ find_baseline rows (m_n_bats m) (m_iters m) = Ok (T_seq1_s m)
  /\ T_self1_s m = T_seq1_s m
  /\ speedup_self m = speedup_seq m
  /\ efficiency_self m = efficiency_seq m.
Proof.
  intros H Hin Hmode Hno.
  destruct (compute_metrics_strong _ _ _ H Hin Hmode)
    as (r & t & _ & _ & Hb & S).
  pose proof (sr_T_self1_s _ _ _ _ S) as Eself.
  pose proof (sr_speedup_self _ _ _ _ S) as E1.
  pose proof (sr_efficiency_self _ _ _ _ S) as E2.
  pose proof (sr_speedup_seq _ _ _ _ S) as E3.
  pose proof (sr_efficiency_seq _ _ _ _ S) as E4.
  rewrite (sr_version _ _ _ _ S), (sr_n_bats _ _ _ _ S),
    (sr_iters _ _ _ _ S) in Hno |- *.
  apply find_self_baseline_None in Hno.
  rewrite Hno in Eself. rewrite (sr_T_seq1_s _ _ _ _ S).
  split; [assumption|]. split; [assumption|]. split; [assumption|].
  rewrite Eself, E3 in E1. injection E1 as E1.
  split; [congruence|].
  rewrite <- E1, E4 in E2. congruence.
Qed.

Lemma self_baseline_fallback_witness :
  let m := nth 2 strong_out no_row in
  m_version m = "openmp" /\ m_p m = 4
  /\ find_self_baseline strong_rows (m_version m) (m_n_bats m) (m_iters m)
     = None
  /\ find_baseline strong_rows (m_n_bats m) (m_iters m) = Ok (T_seq1_s m)
  /\ T_self1_s m = T_seq1_s m
  /\ speedup_self m = speedup_seq m
  /\ efficiency_self m = efficiency_seq m.
Proof.
  intros m. split; [reflexivity|]. split; [reflexivity|].
  apply (self_baseline_fallback strong_rows strong_out m).
  - vm_compute; reflexivity.
  - right; right; left; reflexivity.
  - reflexivity.
  - intros r [<-|[<-|[<-|[]]]] Hv _ _; vm_compute; discriminate.
Defined.

(** C9, as the spec states it, fails: the baseline dict of a weak group
    holds 1.0 in every ratio whatever the time of the baseline. *)
Lemma zero_time_baseline_row :
  ~ (forall rows out m,
       compute_metrics rows = Ok out -> In m out ->
       Float.leb (m_time_s m) Float.zero = true ->
       all_ratios m Float.zero).
Proof.
  intros H.
  assert (H0 : all_ratios (nth 2 zero_time_out no_row) Float.zero).
  { apply (H zero_time_rows zero_time_out).
    - vm_compute; reflexivity.
    - right; right; left; reflexivity.
    - reflexivity. }
  destruct H0 as [H0 _]. vm_compute in H0. discriminate.
Qed.

(** C9, amended. [compute_metrics] never raises [ZeroDivisionError].  A
    strong-mode dict of a record with [time_s <= 0] holds 0.0 in all six
    ratio fields; a weak-mode dict with [time_s <= 0] either holds 0.0
    in all six, or is the baseline dict of a group, with [p = 1] and 1.0
    in all six. *)
Theorem division_guard (rows : list BenchRow) :
  compute_metrics rows <> Raise ZeroDivisionError
  /\ forall out m,
       compute_metrics rows = Ok out -> In m out ->
       Float.leb (m_time_s m) Float.zero = true ->
       (m_mode m = strong -> all_ratios m Float.zero)
       /\ (m_mode m = weak ->
           all_ratios m Float.zero
           \/ (m_p m = 1 /\ all_ratios m Float.one
               /\ exists it v b,
                    v <> "sequential"
                    /\ _weak_baseline rows it v = Some b
                    /\ m_version m = version b /\ m_n_bats m = n_bats b
                    /\ m_iters m = iters b /\ m_time_s m = time_s b)).
Proof.
  split.
  { intros H. apply compute_metrics_Raise in H. discriminate. }
  intros out m H Hin Hle. split; intros Hmode.
  - destruct (compute_metrics_strong _ _ _ H Hin Hmode)
      as (r & t & _ & _ & _ & S).
    rewrite (sr_time_s _ _ _ _ S) in Hle.
    apply FloatFacts.leb_zero_not_ltb in Hle.
    pose proof (sr_speedup_seq _ _ _ _ S) as E1.
    pose proof (sr_speedup_self _ _ _ _ S) as E2.
    pose proof (sr_efficiency_seq _ _ _ _ S) as E3.
    pose proof (sr_efficiency_self _ _ _ _ S) as E4.
    rewrite Hle in E1, E2. injection E1 as E1. injection E2 as E2.
    destruct (FloatFacts.eff_cases (speedup_seq m) (p r))
      as [(f1 & F1 & Z1)|F1]; [|congruence].
    destruct (FloatFacts.eff_cases (speedup_self m) (p r))
      as [(f2 & F2 & Z2)|F2]; [|congruence].
    assert (Hf1 : efficiency_seq m = Float.zero)
      by (rewrite <- Z1 by auto; congruence).
    assert (Hf2 : efficiency_self m = Float.zero)
      by (rewrite <- Z2 by auto; congruence).
    unfold all_ratios.
    rewrite (sr_speedup _ _ _ _ S), (sr_efficiency _ _ _ _ S).
    auto 10.
  - destruct (compute_metrics_weak _ _ _ H Hin Hmode)
      as [it v b r t _ _ _ _ _ W|it v b t Hv Hb ->].
    + left. rewrite (wr_time_s _ _ _ _ _ W) in Hle.
      apply FloatFacts.leb_zero_not_ltb in Hle.
      pose proof (wr_speedup_seq _ _ _ _ _ W) as E1.
      pose proof (wr_speedup_self _ _ _ _ _ W) as E2.
      rewrite Hle in E1, E2. injection E1 as E1. injection E2 as E2.
      unfold all_ratios.
      rewrite (wr_speedup _ _ _ _ _ W), (wr_efficiency _ _ _ _ _ W),
        (wr_efficiency_seq _ _ _ _ _ W), (wr_efficiency_self _ _ _ _ _ W).
      auto 10.
    + right. split; [reflexivity|]. split.
      * unfold all_ratios. simpl. auto 10.
      * exists it, v, b. simpl. auto 10.
Qed.

Lemma division_guard_witness :
  all_ratios (nth 1 zero_strong_out no_row) Float.zero
  /\ all_ratios (nth 3 zero_strong_out no_row) Float.zero
  /\ all_ratios (nth 2 zero_time_out no_row) Float.one.
Proof.
  assert (H1 : compute_metrics zero_strong_rows = Ok zero_strong_out)
    by (vm_compute; reflexivity).
  assert (H2 : compute_metrics zero_time_rows = Ok zero_time_out)
    by (vm_compute; reflexivity).
  split; [|split].
  - apply (proj2 (division_guard zero_strong_rows) zero_strong_out
             (nth 1 zero_strong_out no_row) H1).
    + right; left; reflexivity.
    + reflexivity.
    + reflexivity.
  - destruct (proj2 (proj2 (division_guard zero_strong_rows) zero_strong_out
                       (nth 3 zero_strong_out no_row) H1
                       (or_intror (or_intror (or_intror (or_introl eq_refl))))
                       eq_refl) eq_refl) as [Hz|(_ & Hone & _)].
    + exact Hz.
    + destruct Hone as [Hone _]. vm_compute in Hone. discriminate.
  - destruct (proj2 (proj2 (division_guard zero_time_rows) zero_time_out
                       (nth 2 zero_time_out no_row) H2
                       (or_intror (or_intror (or_introl eq_refl)))
                       eq_refl) eq_refl)
      as [Hz|(_ & Hone & _)].
    + destruct Hz as [Hz _]. vm_compute in Hz. discriminate.
    + exact Hone.
Defined.

(** C10. A strong-mode dict records its own n_bats as the baseline size,
    and the same time in [T_base_s] and [T_seq1_s]; so a dict whose
    baseline size differs from its own size is a weak-mode one. *)
Theorem strong_baseline_size
    (rows : list BenchRow) (out : list MetricRow) (m : MetricRow) :
  compute_metrics rows = Ok out -> In m out ->
  (m_mode m = strong ->
   baseline_n_bats m = m_n_bats m /\ T_base_s m = T_seq1_s m)
  /\ (baseline_n_bats m <> m_n_bats m -> m_mode m = weak).
Proof.
  intros H Hin.
  assert (G : m_mode m = strong ->
              baseline_n_bats m = m_n_bats m /\ T_base_s m = T_seq1_s m).
  { intros Hmode.
    destruct (compute_metrics_strong _ _ _ H Hin Hmode)
      as (r & t & _ & _ & _ & S).
    rewrite (sr_baseline_n_bats _ _ _ _ S), (sr_n_bats _ _ _ _ S),
      (sr_T_base_s _ _ _ _ S), (sr_T_seq1_s _ _ _ _ S).
    auto. }
  split; [exact G|].
  intros Hne. destruct (m_mode m) eqn:E; [|reflexivity].
  exfalso. apply Hne. apply G. reflexivity.
Qed.

Lemma strong_baseline_size_witness :
  (let m := nth 0 weak_out_sample no_row in
   m_mode m = strong
   /\ baseline_n_bats m = m_n_bats m /\ T_base_s m = T_seq1_s m)
  /\ (let m := nth 2 weak_out_sample no_row in
      m_n_bats m = 2000 /\ baseline_n_bats m = 1000 /\ m_mode m = weak).
Proof.
  assert (H : compute_metrics weak_rows = Ok weak_out_sample)
    by (vm_compute; reflexivity).
  split.
  - split; [reflexivity|].
    apply (proj1 (strong_baseline_size weak_rows weak_out_sample
                    (nth 0 weak_out_sample no_row) H (or_introl eq_refl))).
    reflexivity.
  - split; [reflexivity|]. split; [reflexivity|].
    apply (proj2 (strong_baseline_size weak_rows weak_out_sample
                    (nth 2 weak_out_sample no_row) H
                    (or_intror (or_intror (or_introl eq_refl))))).
    vm_compute. discriminate.
Defined.

(** * Further properties *)

(** ** The order on floats, and [min] *)

Module FloatOrder.
Import Float.

Lemma finite_compare_Lt (e1 e2 : Z) (m1 m2 : positive) :
  match e1 ?= e2 with
  | Eq => Pos.compare_cont Eq m1 m2
  | Lt => Lt
  | Gt => Gt
  end = Lt
  <-> e1 < e2 \/ (e1 = e2 /\ (m1 < m2)%positive).
Proof.
  change (Pos.compare_cont Eq m1 m2) with (m1 ?= m2)%positive.
  destruct (Z.compare_spec e1 e2) as [E|E|E].
  - rewrite Pos.compare_lt_iff. intuition lia.
  - intuition.
  - split; [discriminate | lia].
Qed.

Lemma finite_compare_Gt (e1 e2 : Z) (m1 m2 : positive) :
  match e1 ?= e2 with
  | Eq => CompOpp (Pos.compare_cont Eq m1 m2)
  | Lt => Gt
  | Gt => Lt
  end = Lt
  <-> e2 < e1 \/ (e1 = e2 /\ (m2 < m1)%positive).
Proof.
  change (Pos.compare_cont Eq m1 m2) with (m1 ?= m2)%positive.
  destruct (Z.compare_spec e1 e2) as [E|E|E].
  - rewrite <- Pos.compare_antisym, Pos.compare_lt_iff. intuition lia.
  - split; [discriminate | lia].
  - intuition.
Qed.

Lemma ltb_irrefl (a : float) : ltb a a = false.
Proof.
  unfold ltb, SFltb. destruct a as [s|s| |s m e]; simpl; try reflexivity.
  - destruct s; reflexivity.
  - destruct s; rewrite Z.compare_refl;
      change (Pos.compare_cont Eq m m) with (m ?= m)%positive;
      rewrite Pos.compare_refl; reflexivity.
Qed.

Lemma ltb_finite (s1 s2 : bool) (m1 m2 : positive) (e1 e2 : Z) :
  ltb (S754_finite s1 m1 e1) (S754_finite s2 m2 e2) = true <->
  match s1, s2 with
  | true, false => True
  | false, true => False
  | false, false => e1 < e2 \/ (e1 = e2 /\ (m1 < m2)%positive)
  | true, true => e2 < e1 \/ (e1 = e2 /\ (m2 < m1)%positive)
  end.
Proof.
  unfold ltb, SFltb. simpl. destruct s1, s2.
  - rewrite <- finite_compare_Gt.
    destruct (match e1 ?= e2 with
              | Eq => CompOpp (Pos.compare_cont Eq m1 m2)
              | Lt => Gt
              | Gt => Lt
              end); intuition discriminate.
  - intuition.
  - intuition discriminate.
  - rewrite <- finite_compare_Lt.
    destruct (match e1 ?= e2 with
              | Eq => Pos.compare_cont Eq m1 m2
              | Lt => Lt
              | Gt => Gt
              end); intuition discriminate.
Qed.

Lemma ltb_trans (a b c : float) :
  ltb a b = true -> ltb b c = true -> ltb a c = true.
Proof.
  destruct a as [sa|sa| |sa ma ea], b as [sb|sb| |sb mb eb],
    c as [sc|sc| |sc mc ec].
  all: try solve [rewrite !ltb_finite; destruct sa, sb, sc; intuition lia].
  all: unfold ltb, SFltb; simpl; intros H1 H2;
    repeat match goal with s : bool |- _ => destruct s end;
    simpl in *; first [discriminate | reflexivity].
Qed.

End FloatOrder.

(** [min(xs)] is an element of [xs] that no element is below. *)
Lemma min_float_least (x : float) (xs : list float) (y : float) :
  In y (x :: xs) -> Float.ltb y (min_float x xs) = false.
Proof.
  unfold min_float.
  assert (G : forall seen acc,
             (forall z, In z seen -> Float.ltb z acc = false) ->
             forall z, In z (seen ++ xs) ->
               Float.ltb z
                 (fold_left (fun acc y => if Float.ltb y acc then y else acc)
                            xs acc) = false).
  { induction xs as [|a xs IH]; intros seen acc Hseen z Hz; simpl.
    - rewrite app_nil_r in Hz. auto.
    - apply (IH (seen ++ [a])).
      + intros w Hw. apply in_app_or in Hw.
        destruct (Float.ltb a acc) eqn:E.
        * destruct Hw as [Hw|[<-|[]]]; [|apply FloatOrder.ltb_irrefl].
          destruct (Float.ltb w a) eqn:Ew; [|reflexivity].
          rewrite <- (Hseen w Hw). symmetry.
          exact (FloatOrder.ltb_trans _ _ _ Ew E).
        * destruct Hw as [Hw|[<-|[]]]; auto.
      + rewrite <- app_assoc. exact Hz. }
  intros Hy. apply (G [x] x).
  - intros z [<-|[]]. apply FloatOrder.ltb_irrefl.
  - exact Hy.
Qed.

(** X1. [find_baseline] leaves through [SystemExit], with a message that
    names the size, exactly when no sequential record has that n_bats and
    iters. *)
Theorem find_baseline_missing (rows : list BenchRow) (n it : Z) :
  (forall r, In r rows ->
     ~ (version r = "sequential" /\ n_bats r = n /\ iters r = it))
  <-> find_baseline rows n it
      = Raise (SystemExit ("Missing sequential baseline for n_bats="
                           ++ show n ++ " iters=" ++ show it)%string).
Proof.
  unfold find_baseline. split.
  - intros H.
    match goal with
    | |- context [filter ?f rows] =>
        replace (filter f rows) with (@nil BenchRow); [reflexivity|]
    end.
    symmetry. apply filter_nil. intros r Hr.
    destruct (String.eqb (version r) "sequential" && (n_bats r =? n)
              && (iters r =? it)) eqn:E; [|reflexivity].
    exfalso. apply (H r Hr).
    rewrite !andb_true_iff, String.eqb_eq, !Z.eqb_eq in E. intuition.
  - destruct (filter _ rows) as [|c cs] eqn:E; [|discriminate].
    intros _ r Hr (Hv & Hn & Hi).
    rewrite filter_nil in E. specialize (E r Hr).
    rewrite Hv, Hn, Hi, !Z.eqb_refl in E. discriminate.
Qed.

Lemma find_baseline_missing_witness :
  find_baseline weak_rows 2000 500
  = Raise (SystemExit "Missing sequential baseline for n_bats=2000 iters=500").
Proof.
  apply (proj1 (find_baseline_missing weak_rows 2000 500)).
  intros r [<-|[<-|[<-|[]]]] (Hv & Hn & Hi); discriminate.
Defined.


(** X3. [find_self_baseline] answers [None] exactly when the version has
    no record with p = 1 at that size; a time it returns is the time of
    such a record, and no such record has a smaller time. *)
Theorem find_self_baseline_least (rows : list BenchRow) (v : string)
    (n it : Z) :
  (find_self_baseline rows v n it = None <->
   forall r, In r rows ->
     ~ (version r = v /\ n_bats r = n /\ iters r = it /\ p r = 1))
  /\ (forall t, find_self_baseline rows v n it = Some t ->
        (exists r, In r rows /\ version r = v /\ n_bats r = n
                   /\ iters r = it /\ p r = 1 /\ time_s r = t)
        /\ (forall r, In r rows -> version r = v -> n_bats r = n ->
                      iters r = it -> p r = 1 ->
                      Float.ltb (time_s r) t = false)).
Proof.
  split.
  - rewrite find_self_baseline_None. split.
    + intros H r Hr (Hv & Hn & Hi & Hp). exact (H r Hr Hv Hn Hi Hp).
    + intros H r Hr Hv Hn Hi Hp. apply (H r Hr). auto.
  - intros t H. unfold find_self_baseline in H.
    destruct (filter _ rows) as [|c cs] eqn:E; [discriminate|].
    injection H as <-. split.
    + pose proof (min_float_In (time_s c) (map time_s cs)) as Hin.
      change (time_s c :: map time_s cs) with (map time_s (c :: cs)) in Hin.
      apply in_map_iff in Hin. destruct Hin as (r & Hr & Hin).
      rewrite <- E in Hin. apply filter_In in Hin. destruct Hin as [Hin Hc].
      rewrite !andb_true_iff, String.eqb_eq, !Z.eqb_eq in Hc.
      exists r. intuition.
    + intros r Hr Hv Hn Hi Hp. apply min_float_least.
      change (time_s c :: map time_s cs) with (map time_s (c :: cs)).
      apply in_map. rewrite <- E. apply filter_In. split; [assumption|].
      rewrite Hv, Hn, Hi, Hp, String.eqb_refl, !Z.eqb_refl. reflexivity.
Qed.


Lemma find_self_baseline_least_witness :
  find_self_baseline strong_rows "openmp" 2000 2000 = None
  /\ exists r, In r weak_rows /\ version r = "mpi" /\ n_bats r = 1000
               /\ iters r = 500 /\ p r = 1
               /\ find_self_baseline weak_rows "mpi" 1000 500
                  = Some (time_s r).
Proof.
  split.
  - apply (proj1 (find_self_baseline_least strong_rows "openmp" 2000 2000)).
    intros r [<-|[<-|[<-|[]]]] (Hv & _ & _ & Hp); discriminate.
  - destruct (proj2 (find_self_baseline_least weak_rows "mpi" 1000 500)
                (time_s (nth 1 weak_rows zero_threads_row)))
      as [(r & H1 & H2 & H3 & H4 & H5 & H6) _].
    + vm_compute; reflexivity.
    + exists r. rewrite H6. repeat split; assumption.
Defined.

(** ** The strong pass: which keys and which records are kept *)

Lemma In_two_length {A : Type} (x y : A) (l : list A) :
  In x l -> In y l -> x <> y -> (2 <= List.length l)%nat.
Proof.
  intros Hx Hy Hne. destruct l as [|a [|b l]]; simpl in *.
  - destruct Hx.
  - destruct Hx as [<-|[]], Hy as [<-|[]]. congruence.
  - lia.
Qed.

Lemma PySet_In_add_intro (x y : Z) (s : list Z) :
  y = x \/ In y s -> In y (PySet.add x s).
Proof.
  unfold PySet.add. intros H.
  destruct (existsb (Z.eqb x) s) eqn:E.
  - destruct H as [->|H]; [|assumption].
    apply existsb_exists in E. destruct E as (z & Hz & Ez).
    apply Z.eqb_eq in Ez. subst. assumption.
  - apply in_or_app. destruct H as [->|H]; [right; left; reflexivity | auto].
Qed.

Section DictGet.
Context {K V : Type} (eqb : K -> K -> bool).
Hypothesis eqb_eq : forall a b, eqb a b = true <-> a = b.

Lemma get_update_default (k0 k : K) (init : V) (f : V -> V)
    (d : list (K * V)) :
  Dict.get eqb k (Dict.update_default eqb k0 init f d) =
  if eqb k0 k
  then Some (f (match Dict.get eqb k0 d with Some v => v | None => init end))
  else Dict.get eqb k d.
Proof.
  induction d as [|[k1 v1] d IH]; simpl.
  - destruct (eqb k0 k); reflexivity.
  - destruct (eqb k1 k0) eqn:E; simpl.
    + apply eqb_eq in E. subst k1. destruct (eqb k0 k); reflexivity.
    + destruct (eqb k1 k) eqn:E1.
      * apply eqb_eq in E1. subst k1.
        destruct (eqb k0 k) eqn:E2; [|reflexivity].
        apply eqb_eq in E2. subst k0.
        rewrite (DictFacts.eqb_refl _ eqb_eq) in E. discriminate.
      * exact IH.
Qed.

Lemma get_In (k : K) (v : V) (d : list (K * V)) :
  Dict.get eqb k d = Some v -> In (k, v) d.
Proof.
  induction d as [|[k1 v1] d IH]; simpl; [discriminate|].
  destruct (eqb k1 k) eqn:E.
  - apply eqb_eq in E. subst k1. intros H. injection H as <-. auto.
  - auto.
Qed.
End DictGet.

(** Every [p] of a non-sequential record is stored under its key. *)
Lemma by_key_complete (rows : list BenchRow) (r : BenchRow) :
  In r rows -> version r <> "sequential" ->
  exists ps, Dict.get key_eqb (group_key r) (by_key rows) = Some ps
             /\ In (p r) ps.
Proof.
  unfold by_key.
  set (step := fun d r0 =>
         if String.eqb (version r0) "sequential" then d
         else Dict.update_default key_eqb (group_key r0) []
                (PySet.add (p r0)) d).
  assert (Mono : forall l d k ps x,
            Dict.get key_eqb k d = Some ps -> In x ps ->
            exists ps', Dict.get key_eqb k (fold_left step l d) = Some ps'
                        /\ In x ps').
  { induction l as [|a l IH]; simpl; intros d k ps x Hg Hx; [eauto|].
    unfold step at 2.
    destruct (String.eqb (version a) "sequential"); [eauto|].
    eapply IH with
      (ps := if key_eqb (group_key a) k then PySet.add (p a) ps else ps).
    - rewrite (get_update_default _ key_eqb_eq).
      destruct (key_eqb (group_key a) k) eqn:E; [|assumption].
      apply key_eqb_eq in E. rewrite E, Hg. reflexivity.
    - destruct (key_eqb (group_key a) k); [|assumption].
      apply PySet_In_add_intro. auto. }
  intros Hin Hv. revert Hin. generalize (@nil (string * Z * Z * list Z)).
  induction rows as [|a rows IH]; simpl; intros d Hin; [destruct Hin|].
  destruct Hin as [->|Hin]; [|apply IH; assumption].
  apply String.eqb_neq in Hv.
  eapply Mono with
    (ps := PySet.add (p r)
             (match Dict.get key_eqb (group_key r) d with
              | Some v => v
              | None => []
              end)).
  - unfold step. rewrite Hv, (get_update_default _ key_eqb_eq).
    rewrite (DictFacts.eqb_refl _ key_eqb_eq). reflexivity.
  - apply PySet_In_add_intro. auto.
Qed.

(** X4. A key is in [strong_keys] exactly when two records with that
    version, n_bats and iters differ in [p]. *)
Theorem strong_keys_iff (rows : list BenchRow) (k : string * Z * Z) :
  In k (strong_keys rows) <->
  exists r1 r2,
    In r1 rows /\ In r2 rows /\ group_key r1 = k /\ group_key r2 = k
    /\ p r1 <> p r2.
Proof.
  split; [apply strong_keys_spec|].
  intros (r1 & r2 & H1 & H2 & K1 & K2 & Hp).
  assert (Hv : version r1 <> "sequential" /\ version r2 <> "sequential").
  { assert (E : version r1 = version r2).
    { unfold group_key in K1, K2. congruence. }
    split; intros Hs; apply Hp;
      rewrite (p_sequential r1), (p_sequential r2); congruence. }
  destruct Hv as [Hv1 Hv2].
  destruct (by_key_complete rows r1 H1 Hv1) as (ps1 & G1 & P1).
  destruct (by_key_complete rows r2 H2 Hv2) as (ps2 & G2 & P2).
  rewrite K1 in G1. rewrite K2, G1 in G2. injection G2 as <-.
  unfold strong_keys. apply in_map_iff. exists (k, ps1).
  split; [reflexivity|]. apply filter_In. split.
  - apply (get_In _ key_eqb_eq). assumption.
  - cbn [snd]. apply Nat.leb_le. exact (In_two_length _ _ _ P1 P2 Hp).
Qed.

Lemma strong_keys_iff_witness :
  In ("openmp", 2000, 2000) (strong_keys strong_rows)
  /\ ~ In ("mpi", 1000, 500) (strong_keys weak_rows).
Proof.
  split.
  - apply (proj2 (strong_keys_iff strong_rows ("openmp", 2000, 2000))).
    exists (nth 1 strong_rows zero_threads_row),
           (nth 2 strong_rows zero_threads_row).
    split; [right; left; reflexivity|].
    split; [right; right; left; reflexivity|].
    split; [reflexivity|]. split; [reflexivity|].
    vm_compute; discriminate.
  - intros H.
    apply (proj1 (strong_keys_iff weak_rows ("mpi", 1000, 500))) in H.
    destruct H as (r1 & r2 & H1 & H2 & K1 & K2 & Hp).
    destruct H1 as [<-|[<-|[<-|[]]]]; try discriminate K1.
    destruct H2 as [<-|[<-|[<-|[]]]]; try discriminate K2.
    apply Hp. reflexivity.
Defined.

Lemma BenchRow_eta (r : BenchRow) :
  mkBenchRow (version r) (n_bats r) (iters r) (procs r) (threads r)
             (time_s r) = r.
Proof. destruct r; reflexivity. Qed.

Lemma for_each_map_filter {A B : Type} (body : A -> result (list B))
    (g : B -> A) (sel : A -> bool) (l : list A) (out : list B) :
  for_each body l = Ok out ->
  (forall a bs, In a l -> body a = Ok bs ->
                map g bs = if sel a then [a] else []) ->
  map g out = filter sel l.
Proof.
  revert out. induction l as [|a l IH]; simpl; intros out H Hb.
  - injection H as <-. reflexivity.
  - apply bind_Ok in H. destruct H as (bs & Hbs & H).
    apply bind_Ok in H. destruct H as (rest & Hrest & H).
    injection H as <-. rewrite map_app.
    rewrite (Hb a bs (or_introl eq_refl) Hbs), (IH rest Hrest).
    + destruct (sel a); reflexivity.
    + intros a' bs' Ha'. apply Hb. right. assumption.
Qed.

Lemma for_each_Raise_intro {A B : Type} (body : A -> result (list B))
    (l : list A) (a : A) (e : exn) :
  In a l -> body a = Raise e -> exists e', for_each body l = Raise e'.
Proof.
  induction l as [|a' l IH]; simpl; intros Hin Ha; [destruct Hin|].
  destruct (body a') as [bs|e1] eqn:E; simpl; [|eauto].
  destruct Hin as [->|Hin]; [congruence|].
  destruct (IH Hin Ha) as (e' & ->). simpl. eauto.
Qed.

(** A size is a key of [baselines] exactly when a sequential record has
    it. *)
Lemma baselines_has_sequential (rows : list BenchRow)
    (bl : list (Z * Z * float)) (n it : Z) :
  baselines_loop rows (sizes rows) [] = Ok bl ->
  (Dict.get size_eqb (n, it) bl <> None <-> has_sequential rows n it = true).
Proof.
  intros Hbl. destruct (baselines_spec rows) as (bl' & Hbl' & Hget & Hseq).
  rewrite Hbl in Hbl'. injection Hbl' as <-.
  unfold has_sequential. rewrite existsb_exists. split.
  - intros H. destruct (Dict.get size_eqb (n, it) bl) as [t|] eqn:E;
      [|congruence].
    apply Hget in E. simpl in E.
    destruct (find_baseline_Ok_inv _ _ _ _ E) as (r & Hr & Hv & Hn & Hi & _).
    exists r. split; [assumption|].
    rewrite Hv, Hn, Hi, !Z.eqb_refl. reflexivity.
  - intros (r & Hr & Hc).
    rewrite !andb_true_iff, String.eqb_eq, !Z.eqb_eq in Hc.
    destruct Hc as [[Hv Hn] Hi]. subst n it. exact (Hseq r Hr Hv).
Qed.

Lemma strong_row_selected (rows : list BenchRow) (bl : list (Z * Z * float))
    (r : BenchRow) :
  baselines_loop rows (sizes rows) [] = Ok bl ->
  strong_selected rows r =
  negb (negb (String.eqb (version r) "sequential")
        && negb (existsb (key_eqb (group_key r)) (strong_keys rows)))
  && match Dict.get size_eqb (n_bats r, iters r) bl with
     | Some _ => true
     | None => false
     end.
Proof.
  intros Hbl. unfold strong_selected.
  rewrite negb_andb, !negb_involutive. f_equal.
  pose proof (baselines_has_sequential rows bl (n_bats r) (iters r) Hbl) as H.
  destruct (Dict.get size_eqb (n_bats r, iters r) bl) as [t|].
  - apply H. discriminate.
  - destruct (has_sequential rows (n_bats r) (iters r)); [|reflexivity].
    exfalso. apply (proj2 H); reflexivity.
Qed.

(** The records of the dicts of the strong pass. *)
Lemma strong_metrics_records (rows : list BenchRow) (out : list MetricRow) :
  _strong_metrics rows = Ok out ->
  map record_of out = filter (strong_selected rows) rows.
Proof.
  unfold _strong_metrics. intros H.
  apply bind_Ok in H. destruct H as (bl & Hbl & H).
  apply (for_each_map_filter _ _ _ _ _ H).
  intros r bs _ Hbs. rewrite (strong_row_selected rows bl r Hbl).
  unfold strong_row in Hbs.
  destruct (negb (String.eqb (version r) "sequential")
            && negb (existsb (key_eqb (group_key r)) (strong_keys rows))).
  { injection Hbs as <-. reflexivity. }
  destruct (Dict.get size_eqb (n_bats r, iters r) bl) as [t|].
  2:{ injection Hbs as <-. reflexivity. }
  apply bind_Ok in Hbs. destruct Hbs as (s1 & _ & Hbs).
  apply bind_Ok in Hbs. destruct Hbs as (e1 & _ & Hbs).
  apply bind_Ok in Hbs. destruct Hbs as (s2 & _ & Hbs).
  apply bind_Ok in Hbs. destruct Hbs as (e2 & _ & Hbs).
  injection Hbs as <-. simpl. unfold record_of. simpl.
  rewrite BenchRow_eta. reflexivity.
Qed.

(** X5. The strong pass keeps the order of the input: read back as
    records, its dicts are the input records that are sequential or have
    a key in [strong_keys], and whose size has a sequential record, one
    dict per such record. *)
Theorem strong_metrics_order (rows : list BenchRow) (out : list MetricRow) :
  _strong_metrics rows = Ok out ->
  map record_of out = filter (strong_selected rows) rows.
Proof.
  exact (strong_metrics_records rows out).
Qed.

Lemma strong_metrics_order_witness :
  map record_of (firstn 1 weak_out_sample) = [nth 0 weak_rows zero_threads_row]
  /\ map record_of (firstn 3 strong_out) = strong_rows.
Proof.
  split.
  - apply (strong_metrics_order weak_rows (firstn 1 weak_out_sample)).
    vm_compute; reflexivity.
  - apply (strong_metrics_order strong_rows (firstn 3 strong_out)).
    vm_compute; reflexivity.
Defined.

(** X6. A strong-mode dict is built from a record of the input;
    [T_seq1_s] is what [find_baseline] returns for its size, [T_self1_s]
    is what [find_self_baseline] returns for its version and size, or
    [T_seq1_s] when that is [None]; each speedup is the baseline time
    divided by the time of the record, or 0.0 when that time is not
    above zero. *)
Theorem strong_row_values
    (rows : list BenchRow) (out : list MetricRow) (m : MetricRow) :
  compute_metrics rows = Ok out -> In m out -> m_mode m = strong ->
  In (record_of m) rows
  /\ m_p m = p (record_of m)
  /\ find_baseline rows (m_n_bats m) (m_iters m) = Ok (T_seq1_s m)
  /\ T_self1_s m =
     match find_self_baseline rows (m_version m) (m_n_bats m) (m_iters m) with
     | Some t => t
     | None => T_seq1_s m
     end
  /\ (if Float.ltb Float.zero (m_time_s m)
      then Float.truediv (T_seq1_s m) (m_time_s m) else Ok Float.zero)
     = Ok (speedup_seq m)
  /\ (if Float.ltb Float.zero (m_time_s m)
      then Float.truediv (T_self1_s m) (m_time_s m) else Ok Float.zero)
     = Ok (speedup_self m).
Proof.
  intros H Hin Hmode.
  destruct (compute_metrics_strong _ _ _ H Hin Hmode)
    as (r & t & Hr & _ & Hb & S).
  assert (E : record_of m = r).
  { unfold record_of.
    rewrite (sr_version _ _ _ _ S), (sr_n_bats _ _ _ _ S),
      (sr_iters _ _ _ _ S), (sr_procs _ _ _ _ S), (sr_threads _ _ _ _ S),
      (sr_time_s _ _ _ _ S).
    apply BenchRow_eta. }
  rewrite E.
  pose proof (sr_speedup_seq _ _ _ _ S) as E1.
  pose proof (sr_speedup_self _ _ _ _ S) as E2.
  pose proof (sr_T_self1_s _ _ _ _ S) as E3.
  rewrite (sr_version _ _ _ _ S), (sr_n_bats _ _ _ _ S),
    (sr_iters _ _ _ _ S), (sr_time_s _ _ _ _ S), (sr_T_seq1_s _ _ _ _ S).
  split; [assumption|]. split; [exact (sr_p _ _ _ _ S)|].
  split; [assumption|].
  split; [rewrite E3; destruct (find_self_baseline _ _ _ _); reflexivity|].
  split; assumption.
Qed.

Lemma strong_row_values_witness :
  let m := nth 1 strong_out no_row in
  In (record_of m) strong_rows
  /\ find_baseline strong_rows 2000 2000 = Ok (T_seq1_s m)
  /\ Float.truediv (T_seq1_s m) (m_time_s m) = Ok (speedup_seq m).
Proof.
  intros m.
  destruct (strong_row_values strong_rows strong_out m)
    as (H1 & _ & H3 & _ & H5 & _).
  - vm_compute; reflexivity.
  - right; left; reflexivity.
  - reflexivity.
  - split; [exact H1|]. split; [exact H3 | exact H5].
Defined.

(** X7. [compute_metrics] raises nothing but [OverflowError], and raises
    it exactly when a record kept by the strong pass has a positive [p]
    that [float] cannot hold. *)
Theorem compute_metrics_overflow (rows : list BenchRow) :
  (forall e, compute_metrics rows = Raise e -> e = OverflowError)
  /\ (compute_metrics rows = Raise OverflowError <->
      exists r, In r rows /\ strong_selected rows r = true /\ 0 < p r
                /\ Float.of_int (p r) = Raise OverflowError).
Proof.
  split; [apply compute_metrics_Raise|].
  destruct (baselines_spec rows) as (bl & Hbl & _).
  assert (Hrow : forall r,
            (exists e, strong_row rows (strong_keys rows) bl r = Raise e)
            <-> strong_selected rows r = true /\ 0 < p r
                /\ Float.of_int (p r) = Raise OverflowError).
  { intros r. rewrite (strong_row_selected rows bl r Hbl). unfold strong_row.
    destruct (negb (String.eqb (version r) "sequential")
              && negb (existsb (key_eqb (group_key r)) (strong_keys rows))).
    { simpl. split; [intros (e & He); discriminate|].
      intros (Hd & _). discriminate. }
    destruct (Dict.get size_eqb (n_bats r, iters r) bl) as [t|].
    2:{ simpl. split; [intros (e & He); discriminate|].
        intros (Hd & _). discriminate. }
    cbv zeta.
    set (t_self := match find_self_baseline rows (version r) (n_bats r)
                           (iters r) with
                   | None => t
                   | Some t' => t'
                   end).
    destruct (FloatFacts.ratio_Ok t (time_s r)) as (s1 & -> & _).
    destruct (FloatFacts.ratio_Ok t_self (time_s r)) as (s2 & -> & _).
    cbn [bind negb andb].
    destruct (0 <? p r) eqn:Ep.
    - apply Z.ltb_lt in Ep. unfold Float.truediv_int.
      destruct (Float.of_int (p r)) as [b|e] eqn:Eb.
      + destruct (FloatFacts.of_int_positive _ _ Ep Eb) as (mb & eb & ->).
        simpl. split; [intros (e & He); discriminate|].
        intros (_ & _ & Hd). discriminate.
      + simpl. apply FloatFacts.of_int_Raise in Eb. subst e.
        split; [auto | eauto].
    - simpl. apply Z.ltb_ge in Ep.
      split; [intros (e & He); discriminate|].
      intros (_ & Hp & _). lia. }
  unfold compute_metrics, _strong_metrics. rewrite Hbl. cbn [bind].
  split.
  - intros H. apply bind_Raise in H. destruct H as [H|(s & _ & H)].
    + apply for_each_Raise in H. destruct H as (r & Hr & H).
      exists r. split; [assumption|]. apply Hrow. eauto.
    + destruct (weak_metrics_Ok rows) as (w & Hw). rewrite Hw in H.
      discriminate.
  - intros (r & Hr & H). apply Hrow in H. destruct H as (e & He).
    destruct (for_each_Raise_intro _ _ _ _ Hr He) as (e' & He').
    rewrite He'. simpl. f_equal.
    apply for_each_Raise in He'. destruct He' as (r' & _ & He').
    exact (strong_row_Raise _ _ _ _ _ He').
Qed.

Lemma compute_metrics_overflow_witness :
  compute_metrics huge_threads_rows = Raise OverflowError
  /\ ~ compute_metrics strong_rows = Raise OverflowError.
Proof.
  split.
  - apply (proj2 (proj2 (compute_metrics_overflow huge_threads_rows))).
    exists (nth 2 huge_threads_rows zero_threads_row).
    split; [right; right; left; reflexivity|].
    split; [vm_compute; reflexivity|].
    split; [vm_compute; reflexivity | vm_compute; reflexivity].
  - intros H.
    apply (proj1 (proj2 (compute_metrics_overflow strong_rows))) in H.
    destruct H as (r & Hr & _ & _ & Ho).
    destruct Hr as [<-|[<-|[<-|[]]]]; vm_compute in Ho; discriminate.
Defined.

(** ** The last loop of the weak pass *)

Lemma mode_eqb_eq (a b : Mode) : mode_eqb a b = true <-> a = b.
Proof. destruct a, b; simpl; split; congruence. Qed.

Lemma row_key_eqb_eq (a b : Mode * string * Z * Z * Z * Z) :
  row_key_eqb a b = true <-> a = b.
Proof.
  destruct a as [[[[[mo1 v1] n1] i1] p1] t1],
           b as [[[[[mo2 v2] n2] i2] p2] t2].
  unfold row_key_eqb.
  rewrite !andb_true_iff, mode_eqb_eq, String.eqb_eq, !Z.eqb_eq.
  split.
  - intros [[[[[-> ->] ->] ->] ->] ->]. reflexivity.
  - intros H. injection H. auto 10.
Qed.

Section DictKeys.
Context {K V : Type} (eqb : K -> K -> bool).
Hypothesis eqb_eq : forall a b, eqb a b = true <-> a = b.

Lemma In_keys_set (k k' : K) (v : V) (d : list (K * V)) :
  In k' (map fst (Dict.set eqb k v d)) <-> k' = k \/ In k' (map fst d).
Proof.
  induction d as [|[k0 v0] d IH]; simpl.
  - intuition.
  - destruct (eqb k0 k) eqn:E; simpl.
    + apply eqb_eq in E. subst k0. intuition.
    + rewrite IH. intuition.
Qed.

Lemma NoDup_keys_set (k : K) (v : V) (d : list (K * V)) :
  NoDup (map fst d) -> NoDup (map fst (Dict.set eqb k v d)).
Proof.
  induction d as [|[k0 v0] d IH]; simpl; intros H.
  - constructor; [intros [] | constructor].
  - inversion H as [|? ? Hk Hd]; subst.
    destruct (eqb k0 k) eqn:E; simpl.
    + constructor; assumption.
    + constructor; [|auto].
      rewrite In_keys_set. intros [->|Hin]; [|contradiction].
      rewrite (DictFacts.eqb_refl _ eqb_eq) in E. discriminate.
Qed.

Lemma set_fresh (k : K) (v : V) (d : list (K * V)) :
  ~ In k (map fst d) -> Dict.set eqb k v d = d ++ [(k, v)].
Proof.
  induction d as [|[k0 v0] d IH]; simpl; intros H; [reflexivity|].
  destruct (eqb k0 k) eqn:E.
  - apply eqb_eq in E. subst k0. exfalso. apply H. auto.
  - rewrite IH; [reflexivity|]. intros Hin. apply H. auto.
Qed.

Lemma In_get_NoDup (k : K) (v : V) (d : list (K * V)) :
  NoDup (map fst d) -> In (k, v) d -> Dict.get eqb k d = Some v.
Proof.
  induction d as [|[k0 v0] d IH]; simpl; intros Hnd Hin; [destruct Hin|].
  inversion Hnd as [|? ? Hk Hd]; subst.
  destruct Hin as [Hin|Hin].
  - injection Hin as -> ->. rewrite (DictFacts.eqb_refl _ eqb_eq).
    reflexivity.
  - destruct (eqb k0 k) eqn:E; [|auto].
    apply eqb_eq in E. subst k0. exfalso. apply Hk.
    apply in_map_iff. exists (k, v). auto.
Qed.
End DictKeys.

(** The dict [uniq] after the loop over [out], started from [d]. *)
Lemma uniq_get (out : list MetricRow) (d : list (_ * MetricRow))
    (k : Mode * string * Z * Z * Z * Z) :
  Dict.get row_key_eqb k
    (fold_left (fun uniq m => Dict.set row_key_eqb (row_key m) m uniq) out d)
  = match last_with k out with
    | Some m => Some m
    | None => Dict.get row_key_eqb k d
    end.
Proof.
  revert d. induction out as [|m out IH]; intros d;
    cbn [fold_left last_with]; [reflexivity|].
  rewrite IH. destruct (last_with k out); [reflexivity|].
  rewrite (DictFacts.get_set _ row_key_eqb_eq).
  destruct (row_key_eqb (row_key m) k); reflexivity.
Qed.

Lemma uniq_invariant (out : list MetricRow) :
  let uniq := fold_left (fun uniq m => Dict.set row_key_eqb (row_key m) m uniq)
                        out [] in
  NoDup (map fst uniq) /\ forall k m, In (k, m) uniq -> k = row_key m.
Proof.
  apply fold_left_invariant with
    (P := fun uniq => NoDup (map fst uniq)
                      /\ forall k m, In (k, m) uniq -> k = row_key m).
  - split; [constructor | intros k m []].
  - intros uniq a _ [Hnd Hk]. split.
    + apply (NoDup_keys_set _ row_key_eqb_eq). assumption.
    + intros k m Hin.
      assert (G : forall d, (forall k m, In (k, m) d -> k = row_key m) ->
                  In (k, m) (Dict.set row_key_eqb (row_key a) a d) ->
                  k = row_key m).
      { clear. induction d as [|[k0 m0] d IH]; simpl; intros Hd Hin.
        - destruct Hin as [Hin|[]]. congruence.
        - destruct (row_key_eqb k0 (row_key a)) eqn:E; simpl in Hin.
          + apply row_key_eqb_eq in E.
            destruct Hin as [Hin|Hin]; [congruence | auto].
          + destruct Hin as [Hin|Hin]; [auto|].
            apply IH; auto. }
      exact (G uniq Hk Hin).
Qed.

Lemma dedup_In_last (out : list MetricRow) (m : MetricRow) :
  In m (dedup out) <-> last_with (row_key m) out = Some m.
Proof.
  unfold dedup, Dict.values.
  destruct (uniq_invariant out) as [Hnd Hk]. cbv zeta in Hnd, Hk.
  pose proof (uniq_get out [] (row_key m)) as Hg. simpl in Hg.
  split.
  - intros H. apply in_map_iff in H. destruct H as ([k m'] & E & Hin).
    simpl in E. subst m'. pose proof (Hk _ _ Hin) as ->.
    rewrite (In_get_NoDup _ row_key_eqb_eq _ _ _ Hnd Hin) in Hg.
    destruct (last_with (row_key m) out); congruence.
  - intros H. rewrite H in Hg.
    apply (get_In _ row_key_eqb_eq) in Hg.
    apply in_map_iff. exists (row_key m, m). auto.
Qed.

Lemma last_with_Some (k : Mode * string * Z * Z * Z * Z)
    (out : list MetricRow) (m : MetricRow) :
  last_with k out = Some m <->
  exists l1 l2, out = l1 ++ m :: l2 /\ row_key m = k
                /\ forall m', In m' l2 -> row_key m' <> k.
Proof.
  revert m. induction out as [|a out IH]; intros m; cbn [last_with].
  - split; [discriminate|]. intros (l1 & l2 & E & _).
    destruct l1; discriminate.
  - destruct (last_with k out) as [m0|] eqn:L.
    + split.
      * intros H. injection H as <-.
        destruct (proj1 (IH m0) eq_refl) as (l1 & l2 & -> & Hk & Hl).
        exists (a :: l1), l2. auto.
      * intros (l1 & l2 & E & Hk & Hl). destruct l1 as [|b l1].
        -- simpl in E. injection E as -> ->.
           destruct (proj1 (IH m0) eq_refl) as (l1' & l2' & -> & Hk0 & _).
           exfalso. apply (Hl m0); [apply in_or_app; simpl; auto | assumption].
        -- simpl in E. injection E as -> ->.
           apply IH. exists l1, l2. auto.
    + assert (Hnone : forall m', In m' out -> row_key m' <> k).
      { intros m' Hin Hk. apply in_split in Hin.
        destruct Hin as (l1 & l2 & ->).
        assert (G : forall l, last_with k (l ++ m' :: l2) <> None).
        { clear - Hk. induction l as [|x l IHl]; cbn [app last_with].
          - destruct (last_with k l2); [discriminate|].
            rewrite (proj2 (row_key_eqb_eq _ _) Hk). discriminate.
          - destruct (last_with k (l ++ m' :: l2)); [discriminate|].
            congruence. }
        exact (G l1 L). }
      destruct (row_key_eqb (row_key a) k) eqn:E.
      * apply row_key_eqb_eq in E. split.
        -- intros H. injection H as <-. exists [], out. auto.
        -- intros (l1 & l2 & E' & Hk & Hl). destruct l1 as [|b l1].
           ++ simpl in E'. injection E' as -> _. reflexivity.
           ++ simpl in E'. injection E' as -> ->. exfalso.
              apply (Hnone m); [apply in_or_app; simpl; auto | assumption].
      * split; [discriminate|].
        intros (l1 & l2 & E' & Hk & Hl). destruct l1 as [|b l1].
        -- simpl in E'. injection E' as -> _.
           rewrite (proj2 (row_key_eqb_eq _ _) Hk) in E. discriminate.
        -- simpl in E'. injection E' as -> ->. exfalso.
           apply (Hnone m); [apply in_or_app; simpl; auto | assumption].
Qed.

(** The keys of the result of the last loop are distinct. *)
Lemma dedup_NoDup (out : list MetricRow) : NoDup (map row_key (dedup out)).
Proof.
  unfold dedup, Dict.values.
  destruct (uniq_invariant out) as [Hnd Hk]. cbv zeta in Hnd, Hk.
  rewrite map_map.
  match goal with
  | |- NoDup (map _ ?u) =>
      replace (map (fun x => row_key (snd x)) u) with (map fst u);
      [assumption|]
  end.
  apply map_ext_in. intros [k m] Hin. simpl. exact (Hk _ _ Hin).
Qed.



(** X9. The last loop of [_weak_metrics] changes nothing in a list whose
    keys are already distinct; so running it on its own result gives the
    same list. *)
Theorem dedup_idempotent (out : list MetricRow) :
  (NoDup (map row_key out) -> dedup out = out)
  /\ dedup (dedup out) = dedup out.
Proof.
  assert (G : forall l, NoDup (map row_key l) -> dedup l = l).
  { intros l Hnd. unfold dedup, Dict.values.
    assert (F : forall d,
               (forall m, In m l -> ~ In (row_key m) (map fst d)) ->
               fold_left (fun uniq m => Dict.set row_key_eqb (row_key m) m uniq)
                         l d
               = d ++ map (fun m => (row_key m, m)) l).
    { induction l as [|a l IH]; intros d Hd; simpl.
      - rewrite app_nil_r. reflexivity.
      - inversion Hnd as [|? ? Ha Hl]; subst.
        rewrite (set_fresh _ row_key_eqb_eq) by (apply Hd; left; reflexivity).
        rewrite IH; [rewrite <- app_assoc; reflexivity | assumption |].
        intros m Hm Hin. rewrite map_app in Hin.
        apply in_app_or in Hin. destruct Hin as [Hin|[Hin|[]]].
        + apply (Hd m); [right; assumption | assumption].
        + cbn [map fst] in Hin. apply Ha. rewrite Hin.
          apply in_map. assumption. }
    rewrite F by (intros m _ []). simpl.
    rewrite map_map. simpl. apply map_id. }
  split; [apply G|].
  apply G. apply dedup_NoDup.
Qed.

Lemma dedup_idempotent_witness :
  dedup weak_out_sample = weak_out_sample.
Proof.
  apply (proj1 (dedup_idempotent weak_out_sample)).
  repeat constructor; simpl; intuition discriminate.
Defined.

(** ** The weak pass: what each group appends, and what survives *)

(** The list a weak group appends: nothing, or the dicts of its records
    followed by the dict of its baseline. *)
Lemma weak_group_shape (rows : list BenchRow) (it : Z) (v : string)
    (g : list MetricRow) :
  weak_group rows it v = Ok g ->
  g = []
  \/ exists b cands,
       v <> "sequential" /\ _weak_baseline rows it v = Some b
       /\ g = cands ++ [baseline_row b (n_bats b) (time_s b)
                          (weak_self_time rows it v b)]
       /\ (forall m, In m cands ->
             exists r, In r rows /\ iters r = it /\ version r = v
                       /\ WeakRowOf (n_bats b) (time_s b)
                            (weak_self_time rows it v b) r m)
       /\ (forall r, In r rows -> iters r = it -> version r = v ->
             exists m, In m cands
                       /\ WeakRowOf (n_bats b) (time_s b)
                            (weak_self_time rows it v b) r m).
Proof.
  unfold weak_group.
  destruct (String.eqb v "sequential") eqn:Ev.
  { intros H; injection H as <-. auto. }
  apply String.eqb_neq in Ev.
  destruct (_weak_baseline rows it v) as [b|] eqn:Eb.
  2:{ intros H; injection H as <-. auto. }
  cbv zeta.
  assert (Et : match
                 match filter (fun r => (iters r =? it)
                                        && String.eqb (version r) v
                                        && (p r =? 1)) rows with
                 | [] => Some b
                 | c :: cs => Some (min_n_bats c cs)
                 end
               with
               | Some b0 => time_s b0
               | None => time_s b
               end = weak_self_time rows it v b).
  { unfold weak_self_time.
    change (fun r => (iters r =? it) && String.eqb (version r) v
                     && (p r =? 1)) with (is_same_base it v).
    destruct (filter (is_same_base it v) rows); reflexivity. }
  rewrite Et. intros H. right.
  apply bind_Ok in H. destruct H as (cands & Hc & H). injection H as <-.
  exists b, cands. split; [assumption|]. split; [reflexivity|].
  split; [reflexivity|]. split.
  - intros m Hin.
    destruct (for_each_In _ _ _ _ Hc Hin) as (r & bs & Hr & Hbody & Hm).
    apply filter_In in Hr. destruct Hr as [Hr Hf].
    rewrite andb_true_iff, String.eqb_eq, Z.eqb_eq in Hf.
    destruct Hf as [Hit Hv].
    apply bind_Ok in Hbody. destruct Hbody as (m' & Hm' & Hbody).
    injection Hbody as <-. destruct Hm as [<-|[]].
    exists r. auto using weak_row_spec.
  - intros r Hr Hit Hv.
    assert (Hf : In r (filter (fun r => (iters r =? it)
                                        && String.eqb (version r) v) rows)).
    { apply filter_In. split; [assumption|].
      rewrite Hit, Hv, Z.eqb_refl, String.eqb_refl. reflexivity. }
    destruct (for_each_incl _ _ _ _ Hc Hf) as (bs & Hbody & Hincl).
    apply bind_Ok in Hbody. destruct Hbody as (m & Hm & Hbody).
    injection Hbody as <-.
    exists m. split; [apply Hincl; left; reflexivity|].
    exact (weak_row_spec _ _ _ _ _ Hm).
Qed.

Lemma last_with_app (k : Mode * string * Z * Z * Z * Z)
    (l1 l2 : list MetricRow) :
  last_with k (l1 ++ l2) =
  match last_with k l2 with
  | Some m => Some m
  | None => last_with k l1
  end.
Proof.
  induction l1 as [|a l1 IH]; cbn [app last_with].
  - destruct (last_with k l2); reflexivity.
  - rewrite IH. destruct (last_with k l2); reflexivity.
Qed.

Lemma last_with_exists (l : list MetricRow) (m0 : MetricRow) :
  In m0 l ->
  exists m, last_with (row_key m0) l = Some m /\ In m l
            /\ row_key m = row_key m0.
Proof.
  intros Hin.
  destruct (last_with (row_key m0) l) as [m|] eqn:L.
  - exists m. split; [reflexivity|].
    apply last_with_Some in L. destruct L as (l1 & l2 & -> & Hk & _).
    split; [apply in_or_app; simpl; auto | assumption].
  - exfalso. apply in_split in Hin. destruct Hin as (l1 & l2 & ->).
    rewrite last_with_app in L. cbn [last_with] in L.
    destruct (last_with (row_key m0) l2); [discriminate|].
    rewrite (proj2 (row_key_eqb_eq _ _) eq_refl) in L. discriminate.
Qed.

Lemma for_each_last_with {A : Type} (body : A -> result (list MetricRow))
    (l : list A) (out : list MetricRow)
    (k : Mode * string * Z * Z * Z * Z) (m : MetricRow) :
  for_each body l = Ok out -> last_with k out = Some m ->
  exists a bs, In a l /\ body a = Ok bs /\ last_with k bs = Some m.
Proof.
  revert out. induction l as [|a l IH]; simpl; intros out H L.
  - injection H as <-. discriminate.
  - apply bind_Ok in H. destruct H as (bs & Hbs & H).
    apply bind_Ok in H. destruct H as (rest & Hrest & H).
    injection H as <-. rewrite last_with_app in L.
    destruct (last_with k rest) as [m'|] eqn:Lr.
    + injection L as ->.
      destruct (IH _ Hrest Lr) as (a' & bs' & H1 & H2 & H3).
      exists a', bs'. auto.
    + exists a, bs. auto.
Qed.

(** The baseline of a group depends on the version only when no
    sequential record has that iters. *)
Lemma weak_baseline_sequential_any (rows : list BenchRow) (it : Z)
    (v v' : string) (b : BenchRow) :
  _weak_baseline rows it v = Some b -> version b = "sequential" ->
  _weak_baseline rows it v' = Some b.
Proof.
  rewrite !weak_baseline_unfold.
  destruct (filter (is_seq_base it) rows) as [|c cs] eqn:E; [|auto].
  destruct (filter (is_same_base it v) rows) as [|c cs] eqn:E2;
    [discriminate|].
  intros H Hv. injection H as <-.
  destruct (min_of_filter _ _ _ _ E2) as (Hin & Hf & _).
  apply is_same_base_true in Hf. destruct Hf as (Hi & _ & _).
  rewrite filter_nil in E. specialize (E _ Hin).
  rewrite (proj2 (is_seq_base_true it _)) in E by auto. discriminate.
Qed.

Lemma In_iters_set (rows : list BenchRow) (r : BenchRow) :
  In r rows -> In (iters r) (iters_set rows).
Proof.
  intros H. apply (PySetFacts.In_sorted_set _ Z.compare_eq).
  apply in_map. assumption.
Qed.

Lemma In_versions (rows : list BenchRow) (r : BenchRow) :
  In r rows -> In (version r) (versions rows).
Proof.
  intros H. apply (PySetFacts.In_sorted_set _ String.compare_eq_iff).
  apply in_map. assumption.
Qed.

(** The list of a group is part of the list before the last loop. *)
Lemma weak_out_incl (rows : list BenchRow) (pre : list MetricRow)
    (it : Z) (v : string) :
  weak_out rows = Ok pre -> In it (iters_set rows) -> In v (versions rows) ->
  exists g, weak_group rows it v = Ok g /\ incl g pre.
Proof.
  unfold weak_out. intros H Hit Hv.
  destruct (for_each_incl _ _ _ _ H Hit) as (gs & Hgs & I1).
  destruct (for_each_incl _ _ _ _ Hgs Hv) as (g & Hg & I2).
  exists g. split; [assumption|]. intros x Hx. auto.
Qed.

(** X10. No record of a weak group that has a baseline is lost: the weak
    pass returns a dict with the key of every non-sequential record whose
    iters and version have a baseline. *)
Theorem weak_metrics_complete (rows : list BenchRow) (out : list MetricRow)
    (r b : BenchRow) :
  _weak_metrics rows = Ok out ->
  In r rows -> version r <> "sequential" ->
  _weak_baseline rows (iters r) (version r) = Some b ->
  exists m, In m out
            /\ row_key m = (weak, version r, n_bats r, iters r, procs r,
                            threads r).
Proof.
  unfold _weak_metrics. intros H Hr Hv Hb.
  apply bind_Ok in H. destruct H as (pre & Hpre & H). injection H as <-.
  destruct (weak_out_incl rows pre (iters r) (version r) Hpre
              (In_iters_set _ _ Hr) (In_versions _ _ Hr)) as (g & Hg & Hincl).
  destruct (weak_group_shape _ _ _ _ Hg)
    as [->|(b' & cands & _ & Hb' & -> & _ & Hall)].
  - unfold weak_group in Hg. apply String.eqb_neq in Hv.
    rewrite Hv, Hb in Hg. cbv zeta in Hg.
    apply bind_Ok in Hg. destruct Hg as (c & _ & Hg).
    injection Hg as Hg. destruct c; discriminate.
  - destruct (Hall r Hr eq_refl eq_refl) as (m0 & Hm0 & W).
    assert (Hin : In m0 pre) by (apply Hincl, in_or_app; auto).
    destruct (last_with_exists _ _ Hin) as (m & L & _ & Hk).
    exists m. split.
    + apply dedup_In_last. rewrite Hk. assumption.
    + rewrite Hk. unfold row_key.
      rewrite (wr_mode _ _ _ _ _ W), (wr_version _ _ _ _ _ W),
        (wr_n_bats _ _ _ _ _ W), (wr_iters _ _ _ _ _ W),
        (wr_procs _ _ _ _ _ W), (wr_threads _ _ _ _ _ W).
      reflexivity.
Qed.

Lemma weak_metrics_complete_witness :
  exists m, In m (skipn 1 weak_out_sample)
            /\ row_key m = (weak, "mpi", 2000, 500, 2, 1).
Proof.
  apply (weak_metrics_complete weak_rows (skipn 1 weak_out_sample)
           (nth 2 weak_rows zero_threads_row)
           (nth 0 weak_rows zero_threads_row)).
  - vm_compute; reflexivity.
  - right; right; left; reflexivity.
  - discriminate.
  - vm_compute; reflexivity.
Defined.

(** X11. Every weak group that has a baseline leaves its anchor in the
    result: a weak-mode dict with the raw fields of the baseline record,
    p = 1 and 1.0 in all six ratio fields. *)
Theorem weak_metrics_anchor (rows : list BenchRow) (out : list MetricRow)
    (it : Z) (v : string) (b : BenchRow) :
  _weak_metrics rows = Ok out ->
  v <> "sequential" -> In v (map version rows) ->
  _weak_baseline rows it v = Some b ->
  exists m, In m out
            /\ m_mode m = weak /\ record_of m = b /\ m_p m = 1
            /\ baseline_n_bats m = n_bats b /\ T_seq1_s m = time_s b
            /\ all_ratios m Float.one.
Proof.
  unfold _weak_metrics. intros H Hv Hvin Hb.
  apply bind_Ok in H. destruct H as (pre & Hpre & H). injection H as <-.
  destruct (weak_baseline_Some _ _ _ _ Hb) as (Hbin & Hbit & Hbp & Hbv).
  apply in_map_iff in Hvin. destruct Hvin as (r0 & Hr0v & Hr0).
  assert (Hit : In it (iters_set rows))
    by (rewrite <- Hbit; apply In_iters_set; assumption).
  assert (Hvs : In v (versions rows))
    by (rewrite <- Hr0v; apply In_versions; assumption).
  destruct (weak_out_incl rows pre it v Hpre Hit Hvs) as (g & Hg & Hincl).
  destruct (weak_group_shape _ _ _ _ Hg)
    as [->|(b' & cands & _ & Hb' & -> & _ & _)].
  { unfold weak_group in Hg. apply String.eqb_neq in Hv.
    rewrite Hv, Hb in Hg. cbv zeta in Hg.
    apply bind_Ok in Hg. destruct Hg as (c & _ & Hg).
    injection Hg as Hg. destruct c; discriminate. }
  rewrite Hb in Hb'. injection Hb' as <-.
  set (beta := baseline_row b (n_bats b) (time_s b)
                 (weak_self_time rows it v b)) in *.
  assert (Hbeta : In beta pre) by (apply Hincl, in_or_app; simpl; auto).
  destruct (last_with_exists _ _ Hbeta) as (m & L & _ & Hk).
  assert (Hout : In m (dedup pre)).
  { apply dedup_In_last. rewrite Hk. assumption. }
  exists m. split; [assumption|].
  (* the group that wrote the last dict with this key *)
  unfold weak_out in Hpre.
  destruct (for_each_last_with _ _ _ _ _ Hpre L) as (it' & gs & _ & Hgs & L1).
  destruct (for_each_last_with _ _ _ _ _ Hgs L1) as (v' & g' & _ & Hg' & L2).
  destruct (weak_group_shape _ _ _ _ Hg')
    as [->|(b' & cands' & Hv' & Hb' & -> & Hcands & _)]; [discriminate|].
  destruct (weak_baseline_Some _ _ _ _ Hb') as (_ & Hb'it & _ & Hb'v).
  assert (Same : it' = it /\ (version b = "sequential" \/ v' = v) ->
                 b' = b).
  { intros [-> [Hs| ->]]; [|congruence].
    rewrite (weak_baseline_sequential_any _ _ _ v' _ Hb Hs) in Hb'.
    congruence. }
  assert (Done : b' = b ->
                 forall t, m = baseline_row b' (n_bats b') (time_s b') t ->
                 m_mode m = weak /\ record_of m = b /\ m_p m = 1
                 /\ baseline_n_bats m = n_bats b /\ T_seq1_s m = time_s b
                 /\ all_ratios m Float.one).
  { intros -> t ->. unfold record_of, all_ratios. simpl.
    rewrite BenchRow_eta. repeat split; reflexivity. }
  rewrite last_with_app in L2. cbn [last_with] in L2.
  match type of L2 with
  | context [row_key_eqb ?a ?k] => destruct (row_key_eqb a k) eqn:Ek
  end.
  - (* the last dict is the baseline dict of that group *)
    injection L2 as <-. apply row_key_eqb_eq in Ek.
    unfold row_key, beta in Ek. simpl in Ek.
    injection Ek as Ev En Ei Ep Et.
    apply (Done (Same (conj (eq_trans (eq_sym Hb'it) (eq_trans Ei Hbit))
                         (match Hbv with
                          | or_introl Hs => or_introl Hs
                          | or_intror Hbv' =>
                              match Hb'v with
                              | or_introl Hs' =>
                                  or_introl (eq_trans (eq_sym Ev) Hs')
                              | or_intror Hb'v' =>
                                  or_intror
                                    (eq_trans (eq_sym Hb'v')
                                       (eq_trans Ev Hbv'))
                              end
                          end))) _ eq_refl).
  - (* a dict of a record with this key: the same group, whose baseline
       dict comes later *)
    exfalso.
    assert (Lc : last_with (row_key beta) cands' = Some m).
    { destruct (last_with (row_key beta) cands'); [assumption|discriminate]. }
    apply last_with_Some in Lc.
    destruct Lc as (l1 & l2 & -> & Hmk & _).
    destruct (Hcands m) as (r & Hr & Hri & Hrv & W);
      [apply in_or_app; simpl; auto|].
    unfold row_key, beta in Hmk. simpl in Hmk.
    rewrite (wr_mode _ _ _ _ _ W), (wr_version _ _ _ _ _ W),
      (wr_n_bats _ _ _ _ _ W), (wr_iters _ _ _ _ _ W),
      (wr_procs _ _ _ _ _ W), (wr_threads _ _ _ _ _ W) in Hmk.
    injection Hmk as Ev En Ei Ep Et.
    assert (Hns : version b <> "sequential") by congruence.
    destruct Hbv as [Hs|Hbv]; [contradiction|].
    assert (E : b' = b).
    { apply Same. split; [congruence | right; congruence]. }
    subst b'.
    assert (Ev' : v' = v) by congruence.
    assert (Ei' : it' = it) by congruence.
    subst v' it'.
    rewrite (proj2 (row_key_eqb_eq _ _) eq_refl) in Ek. discriminate.
Qed.

Lemma weak_metrics_anchor_witness :
  exists m, In m (skipn 1 weak_out_sample)
            /\ m_mode m = weak
            /\ record_of m = nth 0 weak_rows zero_threads_row
            /\ m_p m = 1
            /\ baseline_n_bats m = 1000
            /\ T_seq1_s m = time_s (nth 0 weak_rows zero_threads_row)
            /\ all_ratios m Float.one.
Proof.
  apply (weak_metrics_anchor weak_rows (skipn 1 weak_out_sample) 500 "mpi"
           (nth 0 weak_rows zero_threads_row)).
  - vm_compute; reflexivity.
  - discriminate.
  - right; left; reflexivity.
  - vm_compute; reflexivity.
Defined.

Lemma weak_self_time_cases (rows : list BenchRow) (it : Z) (v : string)
    (b : BenchRow) :
  (exists s, In s rows /\ iters s = it /\ version s = v /\ p s = 1
             /\ (forall r, In r rows -> iters r = it -> version r = v ->
                           p r = 1 -> n_bats s <= n_bats r)
             /\ weak_self_time rows it v b = time_s s)
  \/ ((forall r, In r rows -> iters r = it -> version r = v -> p r <> 1)
      /\ weak_self_time rows it v b = time_s b).
Proof.
  unfold weak_self_time.
  destruct (filter (is_same_base it v) rows) as [|c cs] eqn:E.
  - right. split; [|reflexivity].
    intros r Hr Hi Hv Hp. rewrite filter_nil in E. specialize (E r Hr).
    rewrite (proj2 (is_same_base_true it v r)) in E by auto. discriminate.
  - left. destruct (min_of_filter _ _ _ _ E) as (Hin & Hf & Hmin).
    apply is_same_base_true in Hf. destruct Hf as (Hi & Hv & Hp).
    exists (min_n_bats c cs). repeat split; auto.
    intros r Hr Hri Hrv Hrp. apply Hmin; [assumption|].
    apply is_same_base_true. auto.
Qed.

Lemma weak_metrics_origin (rows : list BenchRow) (out : list MetricRow)
    (m : MetricRow) :
  _weak_metrics rows = Ok out -> In m out ->
  exists it v b,
    v <> "sequential" /\ _weak_baseline rows it v = Some b
    /\ (m = baseline_row b (n_bats b) (time_s b) (weak_self_time rows it v b)
        \/ exists r, In r rows /\ iters r = it /\ version r = v
                     /\ WeakRowOf (n_bats b) (time_s b)
                          (weak_self_time rows it v b) r m).
Proof.
  unfold _weak_metrics, weak_out. intros H Hin.
  apply bind_Ok in H. destruct H as (pre & Hpre & H). injection H as <-.
  apply dedup_In in Hin.
  destruct (for_each_In _ _ _ _ Hpre Hin) as (it & gs & _ & H1 & Hm).
  destruct (for_each_In _ _ _ _ H1 Hm) as (v & g & _ & H2 & Hm').
  destruct (weak_group_shape _ _ _ _ H2)
    as [->|(b & cands & Hv & Hb & -> & Hcands & _)]; [destruct Hm'|].
  exists it, v, b. split; [assumption|]. split; [assumption|].
  apply in_app_or in Hm'. destruct Hm' as [Hc|[<-|[]]]; auto.
Qed.

(** X12. In a weak-mode dict, [T_seq1_s] is the time of the baseline of a
    group with the dict's iters, and [T_self1_s] is the time of the
    record of that group's version with p = 1 and the least n_bats when
    the version has such a record at that iters, and the time of the
    baseline otherwise. *)
Theorem weak_self_baseline
    (rows : list BenchRow) (out : list MetricRow) (m : MetricRow) :
  compute_metrics rows = Ok out -> In m out -> m_mode m = weak ->
  exists v b,
    v <> "sequential" /\ _weak_baseline rows (m_iters m) v = Some b
    /\ T_seq1_s m = time_s b
    /\ ((exists s, In s rows /\ iters s = m_iters m /\ version s = v
                   /\ p s = 1
                   /\ (forall r, In r rows -> iters r = m_iters m ->
                                 version r = v -> p r = 1 ->
                                 n_bats s <= n_bats r)
                   /\ T_self1_s m = time_s s)
        \/ ((forall r, In r rows -> iters r = m_iters m -> version r = v ->
                       p r <> 1)
            /\ T_self1_s m = time_s b)).
Proof.
  unfold compute_metrics. intros H Hin Hmode.
  apply bind_Ok in H. destruct H as (s & Hs & H).
  apply bind_Ok in H. destruct H as (w & Hw & H). injection H as <-.
  apply in_app_or in Hin. destruct Hin as [Hin|Hin].
  { destruct (strong_metrics_In _ _ _ Hs Hin) as (r & t & _ & _ & _ & S).
    rewrite (sr_mode _ _ _ _ S) in Hmode. discriminate. }
  destruct (weak_metrics_origin _ _ _ Hw Hin)
    as (it & v & b & Hv & Hb & Hm).
  destruct (weak_baseline_Some _ _ _ _ Hb) as (_ & Hbi & _).
  assert (E : m_iters m = it /\ T_seq1_s m = time_s b
              /\ T_self1_s m = weak_self_time rows it v b).
  { destruct Hm as [->|(r & _ & Hri & _ & W)].
    - simpl. auto.
    - rewrite (wr_iters _ _ _ _ _ W), (wr_T_seq1_s _ _ _ _ _ W),
        (wr_T_self1_s _ _ _ _ _ W). auto. }
  destruct E as (-> & E1 & E2).
  exists v, b. split; [assumption|]. split; [assumption|].
  split; [assumption|]. rewrite E2.
  apply weak_self_time_cases.
Qed.

Lemma weak_self_baseline_witness :
  let m := nth 2 weak_out_sample no_row in
  exists v b,
    v <> "sequential" /\ _weak_baseline weak_rows 500 v = Some b
    /\ T_seq1_s m = time_s b
    /\ ((exists s, In s weak_rows /\ iters s = 500 /\ version s = v
                   /\ p s = 1
                   /\ (forall r, In r weak_rows -> iters r = 500 ->
                                 version r = v -> p r = 1 ->
                                 n_bats s <= n_bats r)
                   /\ T_self1_s m = time_s s)
        \/ ((forall r, In r weak_rows -> iters r = 500 -> version r = v ->
                       p r <> 1)
            /\ T_self1_s m = time_s b)).
Proof.
  intros m.
  apply (weak_self_baseline weak_rows weak_out_sample m).
  - vm_compute; reflexivity.
  - right; right; left; reflexivity.
  - reflexivity.
Defined.



(** ** The parser: lines that do not match, and logs put together *)

Lemma parse_line_matches (line : string) (o : option BenchRow) :
  parse_line line = Ok o -> matches line = true -> exists r, o = Some r.
Proof.
  intros H Hm. destruct o as [r|]; [eauto|].
  apply parse_line_None in H. congruence.
Qed.

(** X14. Lines that [BENCH_RE] does not match never change the result:
    [parse_lines], and so [main], give the same on a log and on its
    matching lines alone; and the parser returns one record per matching
    line. *)
Theorem noise_lines_ignored (lines : list string) :
  parse_lines (filter matches lines) = parse_lines lines
  /\ main (filter matches lines) = main lines
  /\ forall rows, parse_lines lines = Ok rows ->
       List.length rows = List.length (filter matches lines).
Proof.
  assert (E : parse_lines (filter matches lines) = parse_lines lines).
  { induction lines as [|line lines IH]; [reflexivity|].
    cbn [filter]. destruct (matches line) eqn:Em.
    - cbn [parse_lines]. rewrite IH. reflexivity.
    - cbn [parse_lines]. rewrite (proj2 (parse_line_None line) Em).
      rewrite IH. cbn [bind]. destruct (parse_lines lines); reflexivity. }
  split; [exact E|]. split; [unfold main; rewrite E; reflexivity|].
  induction lines as [|line lines IH]; intros rows H.
  - injection H as <-. reflexivity.
  - cbn [parse_lines] in H.
    apply bind_Ok in H. destruct H as (o & Ho & H).
    apply bind_Ok in H. destruct H as (rest & Hrest & H).
    injection H as <-. cbn [filter].
    assert (E' : parse_lines (filter matches lines) = parse_lines lines).
    { clear - lines. induction lines as [|l ls IHl]; [reflexivity|].
      cbn [filter]. destruct (matches l) eqn:Em.
      - cbn [parse_lines]. rewrite IHl. reflexivity.
      - cbn [parse_lines]. rewrite (proj2 (parse_line_None l) Em).
        rewrite IHl. cbn [bind]. destruct (parse_lines ls); reflexivity. }
    specialize (IH E' rest Hrest).
    destruct (matches line) eqn:Em.
    + destruct (parse_line_matches _ _ Ho Em) as (r & ->).
      simpl. rewrite IH. reflexivity.
    + apply parse_line_None in Em. rewrite Em in Ho. injection Ho as <-.
      exact IH.
Qed.

Lemma noise_lines_ignored_witness :
  filter matches strong_log = firstn 1 strong_log ++ skipn 2 strong_log
  /\ List.length strong_rows = 3%nat.
Proof.
  split; [vm_compute; reflexivity|].
  rewrite (proj2 (proj2 (noise_lines_ignored strong_log)) strong_rows).
  - vm_compute; reflexivity.
  - vm_compute; reflexivity.
Defined.

(** X15. Parsing is line by line: the records of two logs put one after
    the other are the records of the first followed by the records of
    the second, and the first exception met is the one raised. *)
Theorem parse_lines_app (a b : list string) :
  parse_lines (a ++ b) =
  (ra <- parse_lines a ;; rb <- parse_lines b ;; Ok (ra ++ rb)).
Proof.
  induction a as [|line a IH]; cbn [app parse_lines].
  - cbn [bind]. destruct (parse_lines b); reflexivity.
  - destruct (parse_line line) as [o|e]; cbn [bind]; [|reflexivity].
    rewrite IH. destruct (parse_lines a) as [ra|e]; cbn [bind]; [|reflexivity].
    destruct (parse_lines b) as [rb|e]; cbn [bind]; [|reflexivity].
    destruct o; reflexivity.
Qed.

(** ** The parser: which matching lines fail *)

Module ReMore.
Import Re.

Lemma rmatch_tokens (items : list item) (s : list ascii) (caps : captures) :
  rmatch items s = Some caps ->
  (forall n tok, In (n, tok) caps -> tok <> [])
  /\ (forall cls n, In (Plus cls (Some n)) items ->
        exists tok, In (n, tok) caps).
Proof.
  revert s caps. induction items as [|i items IH]; simpl; intros s caps H.
  - injection H as <-. split; [intros n tok [] | intros cls n []].
  - destruct i as [l|cls name|cls|].
    + destruct (strip_prefix (list_ascii_of_string l) s) as [s'|];
        [|discriminate].
      destruct (IH _ _ H) as [H1 H2]. split; [assumption|].
      intros cls n [Hin|Hin]; [discriminate | eauto].
    + apply ReFacts.first_some_Some in H. destruct H as ([a b] & Hab & H).
      simpl in H. destruct a as [|c a]; [discriminate|]. simpl in H.
      destruct (rmatch items b) as [caps'|] eqn:E; [|discriminate].
      simpl in H. injection H as <-.
      destruct (IH _ _ E) as [H1 H2]. split.
      * intros n tok Hin. destruct name as [n'|]; simpl in Hin; [|eauto].
        destruct Hin as [Hin|Hin]; [|eauto].
        injection Hin as _ <-. discriminate.
      * intros cls' n [Hin|Hin].
        -- injection Hin as _ ->. simpl. eauto.
        -- destruct (H2 _ _ Hin) as (tok & Htok). exists tok.
           destruct name; simpl; auto.
    + apply ReFacts.first_some_Some in H. destruct H as ([a b] & Hab & H).
      simpl in H. destruct (IH _ _ H) as [H1 H2]. split; [assumption|].
      intros cls' n [Hin|Hin]; [discriminate | eauto].
    + assert (E : rmatch items s = Some caps).
      { destruct s as [|c [|c' s]]; try discriminate; [assumption|].
        destruct (Ascii.eqb c "010"); [assumption | discriminate]. }
      destruct (IH _ _ E) as [H1 H2]. split; [assumption|].
      intros cls' n [Hin|Hin]; [discriminate | eauto].
Qed.

Lemma group_In (caps : captures) (n : string) (tok : list ascii) :
  In (n, tok) caps -> In (n, group caps n) caps.
Proof.
  induction caps as [|[n' tok'] caps IH]; simpl; [auto|].
  intros [H|H].
  - injection H as -> ->. rewrite String.eqb_refl. auto.
  - destruct (String.eqb n' n) eqn:E.
    + apply String.eqb_eq in E. subst. auto.
    + auto.
Qed.

End ReMore.

Lemma BENCH_RE_names (n : string) :
  n = "version" \/ n = "n_bats" \/ n = "iters" \/ n = "procs"
  \/ n = "threads" \/ n = "time_s" ->
  exists cls, In (Re.Plus cls (Some n)) BENCH_RE.
Proof.
  unfold BENCH_RE. cbv zeta.
  intros [->|[->|[->|[->|[->| ->]]]]]; eexists; simpl; auto 25.
Qed.


(** The token of a named group of a match of [BENCH_RE]: it is there, it
    is not empty, and it is in the class of the group. *)
Lemma BENCH_RE_group (s : list ascii) (m : Re.captures) (n : string) :
  Re.rmatch BENCH_RE s = Some m ->
  n = "version" \/ n = "n_bats" \/ n = "iters" \/ n = "procs"
  \/ n = "threads" \/ n = "time_s" ->
  Re.group m n <> []
  /\ exists cls, In (Re.Plus cls (Some n)) BENCH_RE
                 /\ forallb cls (Re.group m n) = true.
Proof.
  intros Hm Hn.
  destruct (ReMore.rmatch_tokens _ _ _ Hm) as [Hne Hhas].
  destruct (BENCH_RE_names n Hn) as (cls0 & Hcls0).
  destruct (Hhas _ _ Hcls0) as (tok & Htok).
  apply ReMore.group_In in Htok.
  split; [exact (Hne _ _ Htok)|].
  exact (ReFacts.rmatch_captures _ _ _ _ _ Hm Htok).
Qed.



(** *** [float] on a token of digits and dots *)

Module FloatToken.
Import Str.







End FloatToken.




(** ** The parser: the range of the fields of a record *)

Module FloatSign.
Import Float.

Lemma shr_fexp_nonneg (m e : Z) (l : location) :
  0 <= m -> 0 <= shr_m (fst (shr_fexp prec emax m e l)).
Proof.
  intros Hm. unfold shr_fexp, shr.
  destruct (fexp prec emax (Zdigits2 m + e) - e) as [|n|n]; simpl fst.
  - rewrite FloatFacts.shr_record_of_loc_m. assumption.
  - rewrite FloatFacts.iter_shr_1_m
      by (rewrite FloatFacts.shr_record_of_loc_m; assumption).
    rewrite FloatFacts.shr_record_of_loc_m. apply Z.div_pos; lia.
  - rewrite FloatFacts.shr_record_of_loc_m. assumption.
Qed.

Lemma binary_round_aux_sign (sx : bool) (m e : Z) (l : location) :
  0 <= m ->
  match binary_round_aux prec emax sx m e l with
  | S754_zero s | S754_infinity s | S754_finite s _ _ => s = sx
  | S754_nan => False
  end.
Proof.
  intros Hm. unfold binary_round_aux.
  pose proof (shr_fexp_nonneg m e l Hm) as H1.
  destruct (shr_fexp prec emax m e l) as [mrs' e']. simpl in H1.
  assert (H2 : 0 <= round_nearest_even (shr_m mrs')
                      (loc_of_shr_record mrs')).
  { unfold round_nearest_even.
    destruct (loc_of_shr_record mrs') as [|[ | | ]]; try lia.
    destruct (Z.even (shr_m mrs')); lia. }
  pose proof (shr_fexp_nonneg _ e' loc_Exact H2) as H3.
  destruct (shr_fexp prec emax
              (round_nearest_even (shr_m mrs') (loc_of_shr_record mrs'))
              e' loc_Exact) as [mrs'' e''].
  simpl in H3. destruct (shr_m mrs'') as [|q|q]; try lia.
  - reflexivity.
  - destruct (e'' <=? emax - prec); reflexivity.
Qed.

Lemma of_decimal_nonneg (n : Z) (k : nat) : nonneg_float (of_decimal n k).
Proof.
  unfold of_decimal. destruct n as [|m|m]; try reflexivity.
  unfold SFdiv, SFdiv_core_binary.
  set (m2 := Z.to_pos (10 ^ Z.of_nat k)).
  set (e' := Z.min _ _). set (s := 0 - 0 - e').
  set (m' := match s with
             | 0 => Zpos m
             | Zpos _ => Z.shiftl (Zpos m) s
             | Zneg _ => 0
             end).
  assert (Hm' : 0 <= m').
  { unfold m'. destruct s; try lia. apply Z.shiftl_nonneg. lia. }
  assert (Hq : 0 <= fst (Z.div_eucl m' (Zpos m2))).
  { change (fst (Z.div_eucl m' (Zpos m2))) with (m' / Zpos m2).
    apply Z.div_pos; lia. }
  destruct (Z.div_eucl m' (Zpos m2)) as [q r]. simpl in Hq.
  exact (binary_round_aux_sign (xorb false false) q e' _ Hq).
Qed.

Lemma nonneg_leb (f : float) : nonneg_float f -> leb zero f = true.
Proof.
  destruct f as [s|s| |s m e]; simpl; intros H; try subst s;
    try reflexivity; contradiction.
Qed.

End FloatSign.

Lemma float_of_str_nonneg (tok : list ascii) (f : float) :
  Str.float_of_str tok = Ok f -> nonneg_float f.
Proof.
  unfold Str.float_of_str. destruct (Str.span Str.is_digit tok) as [ip rest].
  destruct rest as [|c fp].
  - destruct ip; [discriminate|]. intros H. injection H as <-.
    apply FloatSign.of_decimal_nonneg.
  - match goal with |- context [if ?b then _ else _] => destruct b end;
      [|discriminate].
    intros H. injection H as <-. apply FloatSign.of_decimal_nonneg.
Qed.

(** X17. Every record the parser returns has a non-empty version, integer
    fields that are not negative, and a time that is neither negative
    nor NaN. *)
Theorem parsed_record_range (lines : list string) (rows : list BenchRow)
    (r : BenchRow) :
  parse_lines lines = Ok rows -> In r rows ->
  version r <> ""
  /\ 0 <= n_bats r /\ 0 <= iters r /\ 0 <= procs r /\ 0 <= threads r
  /\ Float.leb Float.zero (time_s r) = true.
Proof.
  intros H Hin.
  destruct (parse_lines_In _ _ _ H Hin) as (line & _ & Hl).
  destruct (parse_line_nonneg _ _ Hl) as (H1 & H2 & H3 & H4).
  unfold parse_line in Hl.
  destruct (Re.rmatch BENCH_RE (Str.strip (list_ascii_of_string line)))
    as [m|] eqn:Em; [|discriminate].
  apply bind_Ok in Hl. destruct Hl as (n & _ & Hl).
  apply bind_Ok in Hl. destruct Hl as (it & _ & Hl).
  apply bind_Ok in Hl. destruct Hl as (pr & _ & Hl).
  apply bind_Ok in Hl. destruct Hl as (th & _ & Hl).
  apply bind_Ok in Hl. destruct Hl as (t & Ht & Hl).
  injection Hl as <-. cbn [version time_s].
  split.
  - destruct (BENCH_RE_group _ m "version" Em) as (Hne & _); [tauto|].
    destruct (Re.group m "version"); [congruence | discriminate].
  - repeat (split; [assumption|]).
    apply FloatSign.nonneg_leb. exact (float_of_str_nonneg _ _ Ht).
Qed.

Lemma parsed_record_range_witness :
  let r := nth 1 strong_rows zero_threads_row in
  version r <> ""
  /\ 0 <= n_bats r /\ 0 <= iters r /\ 0 <= procs r /\ 0 <= threads r
  /\ Float.leb Float.zero (time_s r) = true.
Proof.
  intros r.
  apply (parsed_record_range strong_log strong_rows r).
  - vm_compute; reflexivity.
  - right; left; reflexivity.
Defined.

(** ** The parser: the lines it accepts *)

Module Accept.
Import Str Re.















End Accept.




(** ** When the whole run returns *)

(** X19. [compute_metrics] returns its list of dicts whenever every
    record has a [p] below [2^53]. *)
Theorem compute_metrics_returns (rows : list BenchRow) :
  (forall r, In r rows -> p r < 2 ^ 53) ->
  exists out, compute_metrics rows = Ok out.
Proof. apply compute_metrics_total. Qed.

Lemma compute_metrics_returns_witness :
  exists out, compute_metrics weak_rows = Ok out.
Proof.
  apply (compute_metrics_returns weak_rows).
  intros r [<-|[<-|[<-|[]]]]; vm_compute; reflexivity.
Defined.




(** ** The plots *)

Lemma p_set_spec (ms : list MetricRow) :
  let s := fold_left (fun s m => PySet.add (m_p m) s) ms [] in
  NoDup s /\ forall x, In x s <-> In x (map m_p ms).
Proof.
  assert (G : forall acc,
             NoDup acc ->
             NoDup (fold_left (fun s m => PySet.add (m_p m) s) ms acc)
             /\ forall x,
                  In x (fold_left (fun s m => PySet.add (m_p m) s) ms acc)
                  <-> In x acc \/ In x (map m_p ms)).
  { induction ms as [|m ms IH]; intros acc Hacc; cbn [fold_left map].
    - split; [assumption|]. intros x. simpl. tauto.
    - destruct (IH (PySet.add (m_p m) acc)) as [H1 H2];
        [apply PySetFacts.NoDup_add; assumption|].
      split; [assumption|]. intros x. rewrite H2. split.
      + intros [H|H]; [|simpl; tauto].
        apply PySetFacts.In_add in H. simpl. destruct H as [->|H]; auto.
      + intros [H|[<-|H]]; auto; left; apply PySet_In_add_intro; auto. }
  cbv zeta. destruct (G [] (NoDup_nil Z)) as [H1 H2].
  split; [assumption|]. intros x. rewrite H2. simpl. tauto.
Qed.

Lemma distinct_p_incl (l1 l2 : list MetricRow) :
  incl l1 l2 -> (distinct_p l1 <= distinct_p l2)%nat.
Proof.
  intros H. unfold distinct_p.
  destruct (p_set_spec l1) as [N1 I1], (p_set_spec l2) as [N2 I2].
  cbv zeta in *. apply NoDup_incl_length; [assumption|].
  intros x Hx. apply I2. apply I1 in Hx.
  apply in_map_iff in Hx. destruct Hx as (m & <- & Hm).
  apply in_map. auto.
Qed.

Lemma distinct_p_two (l : list MetricRow) :
  (2 <= distinct_p l)%nat <->
  exists m1 m2, In m1 l /\ In m2 l /\ m_p m1 <> m_p m2.
Proof.
  unfold distinct_p. destruct (p_set_spec l) as [N I]. cbv zeta in *.
  split.
  - intros H.
    destruct (fold_left (fun s m => PySet.add (m_p m) s) l [])
      as [|x [|y s]]; simpl in H; try lia.
    assert (Hx : In x (map m_p l)) by (apply I; simpl; auto).
    apply in_map_iff in Hx. destruct Hx as (m1 & E1 & H1).
    assert (Hy : In y (map m_p l)) by (apply I; simpl; auto).
    apply in_map_iff in Hy. destruct Hy as (m2 & E2 & H2).
    exists m1, m2. split; [assumption|]. split; [assumption|].
    rewrite E1, E2. intros ->.
    inversion N as [|? ? Hn _]. apply Hn. left. reflexivity.
  - intros (m1 & m2 & H1 & H2 & Hne).
    apply (In_two_length (m_p m1) (m_p m2)); [| |assumption];
      apply I, in_map; assumption.
Qed.

Section DictUpdate.
Context {K V : Type} (eqb : K -> K -> bool).
Hypothesis eqb_eq : forall a b, eqb a b = true <-> a = b.

Lemma In_keys_update_default (k k' : K) (init : V) (f : V -> V)
    (d : list (K * V)) :
  In k' (map fst (Dict.update_default eqb k init f d))
  <-> k' = k \/ In k' (map fst d).
Proof.
  induction d as [|[k0 v0] d IH]; simpl.
  - intuition.
  - destruct (eqb k0 k) eqn:E; simpl.
    + apply eqb_eq in E. subst k0. intuition.
    + rewrite IH. intuition.
Qed.

Lemma NoDup_keys_update_default (k : K) (init : V) (f : V -> V)
    (d : list (K * V)) :
  NoDup (map fst d) -> NoDup (map fst (Dict.update_default eqb k init f d)).
Proof.
  induction d as [|[k0 v0] d IH]; simpl; intros H.
  - constructor; [intros [] | constructor].
  - inversion H as [|? ? Hk Hd]; subst.
    destruct (eqb k0 k) eqn:E; simpl.
    + constructor; assumption.
    + constructor; [|auto].
      rewrite In_keys_update_default. intros [->|Hin]; [|contradiction].
      rewrite (DictFacts.eqb_refl _ eqb_eq) in E. discriminate.
Qed.
End DictUpdate.

Section Groups.
Variable pick : MetricRow -> option (Z * Z).

Let step (d : list (Z * Z * list MetricRow)) (m : MetricRow) :=
  match pick m with
  | Some k => group_append k m d
  | None => d
  end.

Let picked (k : Z * Z) (m : MetricRow) : bool :=
  match pick m with
  | Some k' => size_eqb k' k
  | None => false
  end.

Lemma groups_get (ms : list MetricRow) (d : list (Z * Z * list MetricRow))
    (k : Z * Z) :
  Dict.get size_eqb k (fold_left step ms d) =
  match Dict.get size_eqb k d with
  | Some l0 => Some (l0 ++ filter (picked k) ms)
  | None =>
      match filter (picked k) ms with
      | [] => None
      | l => Some l
      end
  end.
Proof.
  revert d. induction ms as [|m ms IH]; intros d; cbn [fold_left filter].
  - destruct (Dict.get size_eqb k d); [rewrite app_nil_r|]; reflexivity.
  - rewrite IH. unfold step, picked.
    destruct (pick m) as [k'|].
    + unfold group_append.
      rewrite (get_update_default _ size_eqb_eq).
      destruct (size_eqb k' k) eqn:E.
      * apply size_eqb_eq in E. subst k'.
        destruct (Dict.get size_eqb k d) as [l0|];
          [rewrite <- app_assoc|]; reflexivity.
      * reflexivity.
    + reflexivity.
Qed.

Lemma groups_NoDup (ms : list MetricRow) :
  NoDup (map fst (fold_left step ms [])).
Proof.
  apply fold_left_invariant with (P := fun d => NoDup (map fst d)).
  - constructor.
  - intros d m _ H. unfold step. destruct (pick m); [|assumption].
    apply (NoDup_keys_update_default _ size_eqb_eq). assumption.
Qed.

(** A group holds, in their order, the dicts that were filed under its
    key. *)
Lemma groups_In (ms : list MetricRow) (k : Z * Z) (l : list MetricRow) :
  In (k, l) (fold_left step ms []) -> l = filter (picked k) ms.
Proof.
  intros H.
  apply (In_get_NoDup _ size_eqb_eq _ _ _ (groups_NoDup ms)) in H.
  rewrite groups_get in H. simpl in H.
  destruct (filter (picked k) ms); congruence.
Qed.
End Groups.


Lemma plot_groups_split (metrics : list MetricRow) :
  plot_groups metrics =
  (fold_left (fun d m => match pick_strong m with
                         | Some k => group_append k m d
                         | None => d
                         end) metrics [],
   fold_left (fun d m => match pick_weak m with
                         | Some k => group_append k m d
                         | None => d
                         end) metrics []).
Proof.
  unfold plot_groups. generalize (@nil (Z * Z * list MetricRow)) at 1 3.
  generalize (@nil (Z * Z * list MetricRow)).
  induction metrics as [|m ms IH]; intros w s; cbn [fold_left].
  - reflexivity.
  - unfold pick_strong at 2, pick_weak at 2.
    destruct (m_mode m); cbn [fst snd]; apply IH.
Qed.

Lemma strong_group_spec (metrics : list MetricRow) (k : Z * Z)
    (ms : list MetricRow) :
  In (k, ms) (fst (plot_groups metrics)) ->
  forall m, In m ms <->
            In m metrics /\ m_mode m = strong /\ (m_n_bats m, m_iters m) = k.
Proof.
  rewrite plot_groups_split. cbn [fst]. intros H m.
  rewrite (groups_In pick_strong _ _ _ H), filter_In.
  unfold pick_strong. destruct (m_mode m).
  - rewrite size_eqb_eq. intuition.
  - intuition discriminate.
Qed.

Lemma weak_group_spec (metrics : list MetricRow) (k : Z * Z)
    (ms : list MetricRow) :
  In (k, ms) (snd (plot_groups metrics)) ->
  forall m, In m ms <->
            In m metrics /\ m_mode m = weak
            /\ (baseline_n_bats m, m_iters m) = k.
Proof.
  rewrite plot_groups_split. cbn [snd]. intros H m.
  rewrite (groups_In pick_weak _ _ _ H), filter_In.
  unfold pick_weak. destruct (m_mode m).
  - intuition discriminate.
  - rewrite size_eqb_eq. intuition.
Qed.

Lemma In_sorted_items (x : Z * Z * list MetricRow)
    (l : list (Z * Z * list MetricRow)) :
  In x (sorted_items l) <-> In x l.
Proof.
  unfold sorted_items.
  assert (I : forall a acc, In x (insert_item a acc) <-> x = a \/ In x acc).
  { intros a acc. induction acc as [|y acc IH]; simpl; [intuition|].
    destruct (PySet.cmp_pair (fst a) (fst y)); simpl; rewrite ?IH; intuition. }
  assert (G : forall acc,
             In x (fold_left (fun acc x => insert_item x acc) l acc)
             <-> In x acc \/ In x l).
  { induction l as [|a l IH]; intros acc; simpl; [intuition|].
    rewrite IH, I. intuition. }
  rewrite G. simpl. intuition.
Qed.

Lemma flat_map_nil {A B : Type} (f : A -> list B) (l : list A) :
  (forall x, In x l -> f x = []) -> flat_map f l = [].
Proof.
  induction l as [|a l IH]; simpl; intros H; [reflexivity|].
  rewrite (H a (or_introl eq_refl)), IH; [reflexivity|].
  intros x Hx. apply H. right. assumption.
Qed.

Lemma parallel_of_group (ms : list MetricRow) (m : MetricRow) :
  In m (filter (fun m => String.eqb (m_version m) "openmp") ms
        ++ filter (fun m => String.eqb (m_version m) "mpi") ms)
  <-> In m ms /\ is_parallel m = true.
Proof.
  rewrite in_app_iff, !filter_In. unfold is_parallel.
  rewrite orb_true_iff. tauto.
Qed.

(** X21. Single points are not drawn: [try_plot] saves no file at all
    when the "openmp" and "mpi" dicts of the metrics hold fewer than two
    distinct values of p. *)
Theorem plots_single_point (have_matplotlib : bool)
    (metrics : list MetricRow) :
  (distinct_p (filter is_parallel metrics) < 2)%nat ->
  try_plot have_matplotlib metrics = [].
Proof.
  intros H. unfold try_plot. destruct have_matplotlib; [|reflexivity].
  assert (G : forall ms, incl ms metrics ->
                (distinct_p
                   (filter (fun m => String.eqb (m_version m) "openmp") ms
                    ++ filter (fun m => String.eqb (m_version m) "mpi") ms)
                 <? 2)%nat = true).
  { intros ms Hms. apply Nat.ltb_lt.
    eapply Nat.le_lt_trans; [|exact H].
    apply distinct_p_incl. intros m Hm.
    apply parallel_of_group in Hm. apply filter_In.
    split; [apply Hms|]; tauto. }
  cbv zeta. rewrite !flat_map_nil; [reflexivity | |].
  - intros [k ms] Hin. apply (proj1 (In_sorted_items _ _)) in Hin.
    unfold plot_compare_weak. cbv zeta. cbn [fst snd].
    rewrite G; [reflexivity|].
    intros m Hm. apply (weak_group_spec _ _ _ Hin). assumption.
  - intros [k ms] Hin. apply (proj1 (In_sorted_items _ _)) in Hin.
    unfold plot_compare_strong. cbv zeta. cbn [fst snd].
    rewrite G; [reflexivity|].
    intros m Hm. apply (strong_group_spec _ _ _ Hin). assumption.
Qed.

Lemma plots_single_point_witness :
  try_plot true (firstn 1 weak_out_sample) = [].
Proof.
  apply (plots_single_point true (firstn 1 weak_out_sample)).
  vm_compute. lia.
Defined.

Lemma p_differs (r1 r2 : BenchRow) :
  version r1 = version r2 -> p r1 <> p r2 ->
  version r1 = "openmp" \/ version r1 = "mpi".
Proof.
  unfold p. intros E. rewrite <- E.
  destruct (String.eqb (version r1) "openmp") eqn:E1;
    [apply String.eqb_eq in E1; auto|].
  destruct (String.eqb (version r1) "mpi") eqn:E2;
    [apply String.eqb_eq in E2; auto|].
  congruence.
Qed.

(** A record the strong pass keeps has its dict in the result. *)
Lemma strong_metrics_selected (rows : list BenchRow) (s : list MetricRow)
    (r : BenchRow) :
  _strong_metrics rows = Ok s -> In r rows -> strong_selected rows r = true ->
  exists m, In m s /\ m_mode m = strong /\ record_of m = r /\ m_p m = p r.
Proof.
  intros Hs Hr Hsel.
  assert (Hin : In r (map record_of s)).
  { rewrite (strong_metrics_records _ _ Hs). apply filter_In. auto. }
  apply in_map_iff in Hin. destruct Hin as (m & Em & Hm).
  destruct (strong_metrics_In _ _ _ Hs Hm) as (r' & t & _ & _ & _ & S).
  exists m. split; [assumption|]. split; [exact (sr_mode _ _ _ _ S)|].
  split; [assumption|].
  assert (E : record_of m = r').
  { unfold record_of.
    rewrite (sr_version _ _ _ _ S), (sr_n_bats _ _ _ _ S),
      (sr_iters _ _ _ _ S), (sr_procs _ _ _ _ S), (sr_threads _ _ _ _ S),
      (sr_time_s _ _ _ _ S).
    apply BenchRow_eta. }
  rewrite (sr_p _ _ _ _ S). congruence.
Qed.

(** X22. For the metrics of [compute_metrics], the guard of
    [plot_compare_strong] drops exactly the sizes that have sequential
    dicts only: a strong group with a dict of another version gets its
    five files, and a group of sequential dicts gets none. *)
Theorem strong_plots (rows : list BenchRow) (out : list MetricRow)
    (k : Z * Z) (ms : list MetricRow) :
  compute_metrics rows = Ok out ->
  In (k, ms) (fst (plot_groups out)) ->
  ((exists m, In m ms /\ m_version m <> "sequential") ->
   plot_compare_strong (fst k) (snd k) ms =
   let tag := ("nbats" ++ show (fst k) ++ "_it" ++ show (snd k))%string in
   [ ("compare_strong_time_" ++ tag ++ ".png")%string;
     ("compare_strong_speedup_vs_seq_" ++ tag ++ ".png")%string;
     ("compare_strong_efficiency_vs_seq_" ++ tag ++ ".png")%string;
     ("compare_strong_speedup_vs_self_" ++ tag ++ ".png")%string;
     ("compare_strong_efficiency_vs_self_" ++ tag ++ ".png")%string ])
  /\ ((forall m, In m ms -> m_version m = "sequential") ->
      plot_compare_strong (fst k) (snd k) ms = []).
Proof.
  intros H Hk. pose proof (strong_group_spec _ _ _ Hk) as G.
  split.
  - intros (m & Hm & Hv).
    destruct (proj1 (G m) Hm) as (Hout & Hmode & Hkey).
    destruct (compute_metrics_strong _ _ _ H Hout Hmode)
      as (r & t & Hr & Hsel & Hb & S).
    rewrite (sr_version _ _ _ _ S) in Hv.
    destruct Hsel as [Hsel|Hsel]; [contradiction|].
    destruct (strong_keys_spec _ _ Hsel) as (r1 & r2 & H1 & H2 & K1 & K2 & Hp).
    unfold compute_metrics in H.
    apply bind_Ok in H. destruct H as (s & Hs & H).
    apply bind_Ok in H. destruct H as (w & _ & H). injection H as <-.
    assert (Hseq : has_sequential rows (n_bats r) (iters r) = true).
    { destruct (find_baseline_Ok_inv _ _ _ _ Hb)
        as (r0 & Hr0 & Hv0 & Hn0 & Hi0 & _).
      unfold has_sequential. apply existsb_exists. exists r0.
      split; [assumption|]. rewrite Hv0, Hn0, Hi0, !Z.eqb_refl. reflexivity. }
    assert (Sel : forall r', In r' rows -> group_key r' = group_key r ->
              exists m', In m' ms /\ m_p m' = p r'
                         /\ m_version m' = version r).
    { intros r' Hr' K'. unfold group_key in K'. injection K' as Ev En Ei.
      destruct (strong_metrics_selected rows s r' Hs Hr')
        as (m' & Hm' & Hmode' & Erec & Ep).
      { unfold strong_selected. rewrite En, Ei, Hseq, andb_true_r.
        apply orb_true_iff. right. apply In_existsb_key.
        unfold group_key. rewrite Ev, En, Ei. exact Hsel. }
      exists m'. split.
      - apply G. split; [apply in_or_app; auto|]. split; [assumption|].
        rewrite <- Hkey, (sr_n_bats _ _ _ _ S), (sr_iters _ _ _ _ S).
        rewrite <- En, <- Ei, <- Erec. reflexivity.
      - split; [assumption|]. rewrite <- Ev, <- Erec. reflexivity. }
    destruct (Sel r1 H1 K1) as (m1 & M1 & P1 & V1).
    destruct (Sel r2 H2 K2) as (m2 & M2 & P2 & V2).
    assert (Hpar : version r = "openmp" \/ version r = "mpi").
    { assert (E1 : version r1 = version r)
        by (unfold group_key in K1; congruence).
      assert (E2 : version r2 = version r)
        by (unfold group_key in K1, K2; congruence).
      rewrite <- E1. apply (p_differs r1 r2); congruence. }
    assert (Par : forall m', In m' ms -> m_version m' = version r ->
                    is_parallel m' = true).
    { intros m' _ E. unfold is_parallel. rewrite E.
      destruct Hpar as [-> | ->]; reflexivity. }
    unfold plot_compare_strong. cbv zeta.
    replace (distinct_p _ <? 2)%nat with false; [reflexivity|].
    symmetry. apply Nat.ltb_ge. apply distinct_p_two.
    exists m1, m2. split; [apply parallel_of_group; auto|].
    split; [apply parallel_of_group; auto | congruence].
  - intros Hall. unfold plot_compare_strong. cbv zeta.
    replace (distinct_p _ <? 2)%nat with true; [reflexivity|].
    symmetry. apply Nat.ltb_lt.
    destruct (Nat.lt_ge_cases
                (distinct_p
                   (filter (fun m => String.eqb (m_version m) "openmp") ms
                    ++ filter (fun m => String.eqb (m_version m) "mpi") ms))
                2) as [Hlt|Hge]; [assumption|].
    exfalso. apply distinct_p_two in Hge.
    destruct Hge as (m1 & _ & H1 & _).
    apply parallel_of_group in H1. destruct H1 as [H1 Hpar].
    unfold is_parallel in Hpar. rewrite (Hall m1 H1) in Hpar. discriminate.
Qed.

Lemma strong_plots_witness :
  plot_compare_strong 2000 2000 (firstn 3 strong_out)
  = [ "compare_strong_time_nbats2000_it2000.png";
      "compare_strong_speedup_vs_seq_nbats2000_it2000.png";
      "compare_strong_efficiency_vs_seq_nbats2000_it2000.png";
      "compare_strong_speedup_vs_self_nbats2000_it2000.png";
      "compare_strong_efficiency_vs_self_nbats2000_it2000.png" ]
  /\ plot_compare_strong 1000 500 (firstn 1 weak_out_sample) = [].
Proof.
  split.
  - apply (proj1 (strong_plots strong_rows strong_out (2000, 2000)
                    (firstn 3 strong_out) eq_refl (or_introl eq_refl))).
    exists (nth 1 strong_out no_row).
    split; [right; left; reflexivity | discriminate].
  - apply (proj2 (strong_plots weak_rows weak_out_sample (1000, 500)
                    (firstn 1 weak_out_sample) eq_refl (or_introl eq_refl))).
    intros m [<-|[]]. reflexivity.
Defined.

(** ** The names of the files *)

Lemma show_inj (a b : Z) : show a = show b -> a = b.
Proof.
  unfold show. intros H. apply DecimalZ.to_int_inj.
  assert (N : forall z, Z.to_int z <> Decimal.Pos Decimal.Nil
                        /\ Z.to_int z <> Decimal.Neg Decimal.Nil).
  { intros z. split; intros E;
      pose proof (DecimalZ.of_to z) as O; rewrite E in O;
      cbn in O; subst z; discriminate E. }
  assert (S : Some (Z.to_int a) = Some (Z.to_int b)).
  { rewrite <- (NilZero.isi (Z.to_int a)) by apply N.
    rewrite <- (NilZero.isi (Z.to_int b)) by apply N.
    rewrite H. reflexivity. }
  congruence.
Qed.

Lemma uint_chars (d : Decimal.uint) (c : ascii) :
  In c (list_ascii_of_string (NilEmpty.string_of_uint d)) ->
  c <> "_"%char /\ c <> "."%char.
Proof.
  induction d; simpl; try tauto;
    (intros [<-|H]; [split; discriminate | auto]).
Qed.

Lemma show_chars (z : Z) (c : ascii) :
  In c (list_ascii_of_string (show z)) -> c <> "_"%char /\ c <> "."%char.
Proof.
  unfold show, NilZero.string_of_int, NilZero.string_of_uint.
  destruct (Z.to_int z) as [d|d]; destruct d;
    simpl; try tauto;
    repeat (intros [<-|H]; [split; discriminate | revert H]);
    try tauto; apply uint_chars.
Qed.

Lemma append_split (c : ascii) (s1 s2 r1 r2 : string) :
  ~ In c (list_ascii_of_string s1) -> ~ In c (list_ascii_of_string s2) ->
  (s1 ++ String c r1 = s2 ++ String c r2)%string -> s1 = s2 /\ r1 = r2.
Proof.
  revert s2. induction s1 as [|x s1 IH]; intros [|y s2]; simpl; intros H1 H2 E.
  - injection E as <-. auto.
  - injection E as <- _. tauto.
  - injection E as -> _. tauto.
  - injection E as <- E. destruct (IH s2) as [<- <-]; auto.
Qed.

Lemma tag_inj (n it n' it' : Z) :
  (show n ++ "_it" ++ show it ++ ".png"
   = show n' ++ "_it" ++ show it' ++ ".png")%string ->
  n = n' /\ it = it'.
Proof.
  intros E. cbn [String.append] in E.
  apply append_split in E;
    try (intros H; apply show_chars in H; tauto).
  destruct E as [En E]. injection E as E.
  apply (append_split "."%char) in E;
    try (intros H; apply show_chars in H; tauto).
  split; apply show_inj; tauto.
Qed.

Lemma string_app_assoc (a b c : string) :
  ((a ++ b) ++ c = a ++ (b ++ c))%string.
Proof.
  induction a as [|x a IH]; simpl; [reflexivity | rewrite IH; reflexivity].
Qed.

Ltac names_of H :=
  repeat (destruct H as [H|H]; [symmetry in H|]); try contradiction.

Lemma plot_compare_strong_names (n it : Z) (ms : list MetricRow) (a : string) :
  In a (plot_compare_strong n it ms) ->
  exists pre, In pre ["compare_strong_time_nbats";
                      "compare_strong_speedup_vs_seq_nbats";
                      "compare_strong_efficiency_vs_seq_nbats";
                      "compare_strong_speedup_vs_self_nbats";
                      "compare_strong_efficiency_vs_self_nbats"]%string
              /\ a = (pre ++ show n ++ "_it" ++ show it ++ ".png")%string.
Proof.
  unfold plot_compare_strong. cbv zeta.
  destruct (distinct_p _ <? 2)%nat; [intros []|].
  rewrite !string_app_assoc. cbn [String.append].
  intros H. names_of H; subst a;
    first [ exists "compare_strong_time_nbats"%string; split;
            [simpl; tauto | reflexivity]
          | exists "compare_strong_speedup_vs_seq_nbats"%string; split;
            [simpl; tauto | reflexivity]
          | exists "compare_strong_efficiency_vs_seq_nbats"%string; split;
            [simpl; tauto | reflexivity]
          | exists "compare_strong_speedup_vs_self_nbats"%string; split;
            [simpl; tauto | reflexivity]
          | exists "compare_strong_efficiency_vs_self_nbats"%string; split;
            [simpl; tauto | reflexivity] ].
Qed.

Lemma plot_compare_weak_names (n it : Z) (ms : list MetricRow) (a : string) :
  In a (plot_compare_weak n it ms) ->
  exists pre, In pre ["compare_weak_time_base";
                      "compare_weak_efficiency_vs_seq_base";
                      "compare_weak_efficiency_vs_self_base"]%string
              /\ a = (pre ++ show n ++ "_it" ++ show it ++ ".png")%string.
Proof.
  unfold plot_compare_weak. cbv zeta.
  destruct (distinct_p _ <? 2)%nat; [intros []|].
  rewrite !string_app_assoc. cbn [String.append].
  intros H. names_of H; subst a;
    first [ exists "compare_weak_time_base"%string; split;
            [simpl; tauto | reflexivity]
          | exists "compare_weak_efficiency_vs_seq_base"%string; split;
            [simpl; tauto | reflexivity]
          | exists "compare_weak_efficiency_vs_self_base"%string; split;
            [simpl; tauto | reflexivity] ].
Qed.

Lemma plot_compare_strong_NoDup (n it : Z) (ms : list MetricRow) :
  NoDup (plot_compare_strong n it ms).
Proof.
  unfold plot_compare_strong. cbv zeta.
  destruct (distinct_p _ <? 2)%nat; [constructor|].
  repeat constructor; simpl; intuition discriminate.
Qed.

Lemma plot_compare_weak_NoDup (n it : Z) (ms : list MetricRow) :
  NoDup (plot_compare_weak n it ms).
Proof.
  unfold plot_compare_weak. cbv zeta.
  destruct (distinct_p _ <? 2)%nat; [constructor|].
  repeat constructor; simpl; intuition discriminate.
Qed.

Ltac same_name E :=
  cbn [String.append] in E;
  first [ discriminate E
        | injection E as E; apply tag_inj in E; exact E ].

Lemma plot_compare_strong_key (n it n' it' : Z) (ms ms' : list MetricRow)
    (a : string) :
  In a (plot_compare_strong n it ms) -> In a (plot_compare_strong n' it' ms') ->
  n = n' /\ it = it'.
Proof.
  intros H H'.
  apply plot_compare_strong_names in H, H'.
  destruct H as (pre & Hp & E), H' as (pre' & Hp' & E').
  rewrite E in E'. clear E.
  names_of Hp; names_of Hp'; subst pre pre'; same_name E'.
Qed.

Lemma plot_compare_weak_key (n it n' it' : Z) (ms ms' : list MetricRow)
    (a : string) :
  In a (plot_compare_weak n it ms) -> In a (plot_compare_weak n' it' ms') ->
  n = n' /\ it = it'.
Proof.
  intros H H'.
  apply plot_compare_weak_names in H, H'.
  destruct H as (pre & Hp & E), H' as (pre' & Hp' & E').
  rewrite E in E'. clear E.
  names_of Hp; names_of Hp'; subst pre pre'; same_name E'.
Qed.

Lemma plot_compare_strong_weak (n it n' it' : Z) (ms ms' : list MetricRow)
    (a : string) :
  In a (plot_compare_strong n it ms) -> ~ In a (plot_compare_weak n' it' ms').
Proof.
  intros H H'.
  apply plot_compare_strong_names in H. apply plot_compare_weak_names in H'.
  destruct H as (pre & Hp & E), H' as (pre' & Hp' & E').
  rewrite E in E'. clear E.
  names_of Hp; names_of Hp'; subst pre pre'; discriminate E'.
Qed.

Lemma NoDup_flat_map {V : Type} (f : Z * Z * V -> list string)
    (l : list (Z * Z * V)) :
  NoDup (map fst l) ->
  (forall x, In x l -> NoDup (f x)) ->
  (forall x y a, In x l -> In y l -> In a (f x) -> In a (f y) ->
                 fst x = fst y) ->
  NoDup (flat_map f l).
Proof.
  induction l as [|x l IH]; simpl; intros Hk Hf Hd; [constructor|].
  inversion Hk as [|? ? Hx Hl]; subst.
  apply NoDup_app.
  - apply Hf. left. reflexivity.
  - apply IH; [assumption | intros y Hy; apply Hf; right; assumption |].
    intros y z a Hy Hz. apply Hd; right; assumption.
  - intros a Ha Hin. apply in_flat_map in Hin. destruct Hin as (y & Hy & Hay).
    apply Hx.
    rewrite (Hd x y a);
      [apply in_map; assumption | left; reflexivity | right; assumption
      | assumption | assumption].
Qed.

Lemma insert_item_keys (x : Z * Z * list MetricRow)
    (l : list (Z * Z * list MetricRow)) (k : Z * Z) :
  In k (map fst (insert_item x l)) <-> k = fst x \/ In k (map fst l).
Proof.
  induction l as [|y l IH]; simpl; [intuition|].
  destruct (PySet.cmp_pair (fst x) (fst y)); simpl; rewrite ?IH; intuition.
Qed.

Lemma insert_item_NoDup (x : Z * Z * list MetricRow)
    (l : list (Z * Z * list MetricRow)) :
  ~ In (fst x) (map fst l) -> NoDup (map fst l) ->
  NoDup (map fst (insert_item x l)).
Proof.
  induction l as [|y l IH]; simpl; intros Hx Hl.
  - constructor; [intros [] | constructor].
  - inversion Hl as [|? ? Hy Hl']; subst.
    destruct (PySet.cmp_pair (fst x) (fst y)); simpl;
      try (constructor; [simpl; tauto | assumption]);
      (constructor;
       [rewrite insert_item_keys; intros [E|E];
        [apply Hx; left; assumption | contradiction]
       | apply IH; tauto]).
Qed.

Lemma sorted_items_NoDup (l : list (Z * Z * list MetricRow)) :
  NoDup (map fst l) -> NoDup (map fst (sorted_items l)).
Proof.
  unfold sorted_items.
  assert (G : forall acc,
             NoDup (map fst l) -> NoDup (map fst acc) ->
             (forall k, In k (map fst l) -> ~ In k (map fst acc)) ->
             NoDup (map fst (fold_left (fun acc x => insert_item x acc) l acc))).
  { induction l as [|a l IH]; intros acc Hl Hacc Hd; simpl; [assumption|].
    inversion Hl as [|? ? Ha Hl']; subst.
    apply IH; [assumption | |].
    - apply insert_item_NoDup; [apply Hd; left; reflexivity | assumption].
    - intros k Hk. rewrite insert_item_keys. intros [->|Hin]; [contradiction|].
      apply (Hd k); [right; assumption | assumption]. }
  intros H. apply G; [assumption | constructor | intros k _ []].
Qed.

Lemma plot_groups_NoDup (metrics : list MetricRow) :
  NoDup (map fst (fst (plot_groups metrics)))
  /\ NoDup (map fst (snd (plot_groups metrics))).
Proof.
  rewrite plot_groups_split. cbn [fst snd].
  split; [apply (groups_NoDup pick_strong) | apply (groups_NoDup pick_weak)].
Qed.

(** X23. No file is saved twice: the names [try_plot] passes to
    [savefig] in one run are pairwise distinct, so no figure of the run
    overwrites another. *)
Theorem plot_names_distinct (have_matplotlib : bool)
    (metrics : list MetricRow) :
  NoDup (try_plot have_matplotlib metrics).
Proof.
  unfold try_plot. destruct have_matplotlib; [|constructor]. cbv zeta.
  destruct (plot_groups_NoDup metrics) as [Hs Hw].
  apply NoDup_app.
  - apply NoDup_flat_map.
    + apply sorted_items_NoDup. assumption.
    + intros x _. apply plot_compare_strong_NoDup.
    + intros [[n it] ms] [[n' it'] ms'] a _ _ Ha Ha'. cbn [fst snd] in *.
      destruct (plot_compare_strong_key _ _ _ _ _ _ _ Ha Ha') as [-> ->].
      reflexivity.
  - apply NoDup_flat_map.
    + apply sorted_items_NoDup. assumption.
    + intros x _. apply plot_compare_weak_NoDup.
    + intros [[n it] ms] [[n' it'] ms'] a _ _ Ha Ha'. cbn [fst snd] in *.
      destruct (plot_compare_weak_key _ _ _ _ _ _ _ Ha Ha') as [-> ->].
      reflexivity.
  - intros a Ha Ha'.
    apply in_flat_map in Ha, Ha'.
    destruct Ha as (x & _ & Ha), Ha' as (y & _ & Ha').
    exact (plot_compare_strong_weak _ _ _ _ _ _ _ Ha Ha').
Qed.
